(** * The qtree-pooled NAS storage driver (ontap NAS economy driver)

    A shallow embedding of [storage_drivers/ontap/ontap_nas_qtree.go] and a
    verification of its provisioning, quota and housekeeping paths.

    The driver talks to an appliance through an RPC client.  The appliance is
    not part of the driver, so the embedding is parametric in it: a client is
    a record of state transformers over an abstract world [W], and every call
    the driver makes is appended, with its arguments and its answer, to a
    trace.  Driver methods are state-passing functions over the world, the
    trace and the driver's only mutable field, [quotaResizeMap].

    Logging, the debug tracing of method entry and exit, and the provisioning
    mutex have no effect on the values computed and are left out. *)

From Stdlib Require Import ZArith String Ascii List Lia DecimalString.
From Stdlib Require Import Decimal DecimalN DecimalPos.
From stdpp Require Import base option list strings gmap fin_maps.

Local Open Scope string_scope.
Local Open Scope Z_scope.
Local Open Scope list_scope.

(** ** Go's [strconv] on the values the driver handles *)

Module Strconv.

Definition uint64_modulus : Z := 2 ^ 64.
Definition maxUint64 : Z := 2 ^ 64 - 1.
Definition minInt64 : Z := - 2 ^ 63.
Definition maxInt64 : Z := 2 ^ 63 - 1.

(** Arithmetic on [uint64] and [int64] wraps around. *)
Definition wrap_uint64 (z : Z) : Z := z mod uint64_modulus.
Definition wrap_int64 (z : Z) : Z :=
  (z + 2 ^ 63) mod uint64_modulus - 2 ^ 63.

Inductive NumError := ErrSyntax | ErrRange.

(** [strconv.FormatUint(v, 10)] and [strconv.FormatInt(v, 10)]. *)
Definition FormatUint (v : Z) : string := NilZero.string_of_uint (N.to_uint (Z.to_N v)).
Definition FormatInt (v : Z) : string := NilZero.string_of_int (Z.to_int v).

(** The digit loop of [strconv.ParseUint(s, 10, 64)]: [n] is the value
    accumulated so far. *)
Fixpoint parseUint_loop (s : string) (n : Z) : Z * option NumError :=
  match s with
  | EmptyString => (n, None)
  | String c rest =>
      let v := Z.of_nat (nat_of_ascii c) in
      if (48 <=? v) && (v <=? 57) then
        let d := v - 48 in
        if maxUint64 / 10 + 1 <=? n then (maxUint64, Some ErrRange)
        else
          let n10 := wrap_uint64 (n * 10) in
          let n1 := wrap_uint64 (n10 + d) in
          if (n1 <? n10) || (maxUint64 <? n1) then (maxUint64, Some ErrRange)
          else parseUint_loop rest n1
      else (0, Some ErrSyntax)
  end.

Definition ParseUint (s : string) : Z * option NumError :=
  match s with
  | EmptyString => (0, Some ErrSyntax)
  | _ => parseUint_loop s 0
  end.

(** [strconv.ParseInt(s, 10, 64)]. *)
Definition ParseInt (s : string) : Z * option NumError :=
  match s with
  | EmptyString => (0, Some ErrSyntax)
  | String c rest =>
      let '(neg, body) :=
        if Ascii.eqb c "+" then (false, rest)
        else if Ascii.eqb c "-" then (true, rest)
        else (false, s) in
      match ParseUint body with
      | (_, Some ErrSyntax) => (0, Some ErrSyntax)
      | (un, _) =>
          let cutoff := 2 ^ 63 in
          if negb neg && (cutoff <=? un) then (cutoff - 1, Some ErrRange)
          else if neg && (cutoff <? un) then (- cutoff, Some ErrRange)
          else (if neg then - un else un, None)
      end
  end.

(** [strconv.ParseBool]. *)
Definition ParseBool (str : string) : bool * option NumError :=
  if bool_decide (str ∈ ["1"; "t"; "T"; "TRUE"; "true"; "True"]) then (true, None)
  else if bool_decide (str ∈ ["0"; "f"; "F"; "FALSE"; "false"; "False"]) then (false, None)
  else (false, Some ErrSyntax).

Definition FormatBool (b : bool) : string := if b then "true" else "false".

(** The text of a [*NumError]; the offending input is shown between
    double quotes (bytes that [strconv.Quote] would escape are shown raw). *)
Definition NumError_text (fn num : string) (e : NumError) : string :=
  let dq := String (ascii_of_nat 34) EmptyString in
  "strconv." +:+ fn +:+ ": parsing " +:+ dq +:+ num +:+ dq +:+ ": " +:+
  match e with
  | ErrSyntax => "invalid syntax"
  | ErrRange => "value out of range"
  end.

End Strconv.

(** ** Strings as Go sees them: byte sequences *)

(** [len(s)]. *)
Definition len (s : string) : Z := Z.of_nat (String.length s).

(** [s] without its first [k] bytes. *)
Fixpoint string_drop (k : nat) (s : string) : string :=
  match k, s with
  | O, _ => s
  | S k', String _ rest => string_drop k' rest
  | S _, EmptyString => EmptyString
  end.

(** The slice expression [s[k:]], which panics ([None]) when [k > len(s)]. *)
Definition slice_from (s : string) (k : nat) : option string :=
  if (k <=? String.length s)%nat then Some (string_drop k s) else None.

(** [strings.HasPrefix(s, p)] is Stdlib's [String.prefix p s]. *)
Definition HasPrefix (s p : string) : bool := String.prefix p s.

(** The bytes [0-9A-Za-z]. *)
Definition alphanumeric (c : ascii) : bool :=
  let n := nat_of_ascii c in
  ((48 <=? n) && (n <=? 57) || (65 <=? n) && (n <=? 90) || (97 <=? n) && (n <=? 122))%nat.

Fixpoint all_alphanumeric (s : string) : bool :=
  match s with
  | EmptyString => true
  | String c rest => alphanumeric c && all_alphanumeric rest
  end.

(** Whether the byte ["/"] occurs in [s]. *)
Fixpoint contains_slash (s : string) : bool :=
  match s with
  | EmptyString => false
  | String c rest => Ascii.eqb c "/" || contains_slash rest
  end.

(** The last component of a path: what follows its last ["/"]. *)
Fixpoint last_component (path : string) : string :=
  match path with
  | EmptyString => EmptyString
  | String c rest =>
      if contains_slash rest then last_component rest
      else if Ascii.eqb c "/" then rest else path
  end.

Arguments string_drop : simpl never.
Arguments slice_from : simpl never.

(** ** What the appliance answers *)

(** Go's [error]: [None] is [nil], [Some msg] an error whose text is [msg]. *)
Definition error := option string.

Module azgo.

(** The status part of an appliance answer, as [api.NewZapiError] reads it. *)
Record ZapiResult := {
  IsPassed : bool;
  Code : string;
  ErrorText : string
}.

(** An answer: its status and the attributes the driver reads from it. *)
Record Response (A : Type) := {
  Result : ZapiResult;
  Attributes : A
}.
Arguments Result {A} _.
Arguments Attributes {A} _.
Arguments Build_Response {A} _ _.

Record VolumeAttributesType := {
  Name : string;
  ContainingAggregateName : string;
  PercentageSnapshotReserve : Z;
  SnapshotPolicy : string;
  SnapdirAccessEnabled : bool
}.

Record QtreeInfoType := {
  Volume : string;
  Qtree : string;
  ExportPolicy : string;
  Mode : string
}.

Record QuotaEntryType := {
  QuotaTarget : string;
  DiskLimit : string
}.

End azgo.

Module api.
Import azgo.

(** Modelled from the spec: [api.GetError] is not under src/.  Every
    operation returns an appliance result and a transport error, and
    "passed" is a success predicate over the appliance result; the combined
    error is nil exactly when there is no transport error and the result
    passed. *)
Definition GetError {A} (response : Response A) (err : error) : error :=
  match err with
  | Some e => Some e
  | None => if IsPassed (Result response) then None
            else Some (ErrorText (Result response))
  end.

(** Every interaction of the driver with its environment, with the
    arguments sent and the answer received. *)
Inductive Event :=
| EvQtreeExists (name flexvolPrefix : string) (found : bool) (flexvol : string) (err : error)
| EvValidateEncryptionAttribute (encryption : string) (encrypt : option bool) (err : error)
| EvVolumeListByAttrs (prefix aggregate spaceReserve snapshotPolicy : string)
    (snapshotDir : bool) (encrypt : option bool)
    (r : Response (list VolumeAttributesType)) (err : error)
| EvQtreeCount (volume : string) (count : Z) (err : error)
| EvVolumeCreate (name aggregate size spaceReserve snapshotPolicy unixPermissions
    exportPolicy securityStyle : string) (encrypt : option bool)
    (r : Response unit) (err : error)
| EvVolumeDisableSnapshotDirectoryAccess (name : string) (r : Response unit) (err : error)
| EvVolumeMount (name junction : string) (r : Response unit) (err : error)
| EvUpdateLoadSharingMirrors
| EvVolumeDestroy (name : string) (force : bool) (r : Response unit) (err : error)
| EvVolumeGet (name : string) (attrs : VolumeAttributesType) (err : error)
| EvSetVolumeSize (name size : string) (r : Response unit) (err : error)
| EvQtreeCreate (name flexvol unixPermissions exportPolicy securityStyle : string)
    (r : Response unit) (err : error)
| EvQtreeRename (path newPath : string) (r : Response unit) (err : error)
| EvQtreeDestroyAsync (path : string) (force : bool) (r : Response unit) (err : error)
| EvQtreeList (prefix flexvolPrefix : string) (r : Response (list QtreeInfoType)) (err : error)
| EvQuotaSetEntry (qtarget flexvol path qtype diskLimit : string)
    (r : Response unit) (err : error)
| EvQuotaStatus (flexvol : string) (r : Response string) (err : error)
| EvQuotaOn (flexvol : string) (r : Response unit) (err : error)
| EvQuotaOff (flexvol : string) (r : Response unit) (err : error)
| EvQuotaResize (flexvol : string) (r : Response unit) (err : error)
| EvQuotaEntryList (flexvol : string) (r : Response (list QuotaEntryType)) (err : error)
| EvMountVolume (exportPath mountpoint : string) (err : error)
| EvUnmountVolume (mountpoint : string) (err : error)
| EvSleep (seconds : Z)
| EvRandomString (n : Z) (s : string)
| EvRandIntn (n : Z) (k : Z).

(** The environment of the driver over a world [W]: the appliance client
    ([d.API]), the host's mount helpers, the clock and the random sources.
    Each operation reads the world and leaves a new one. *)
Record Client (W : Type) := {
  QtreeExists : string -> string -> W -> (bool * string * error) * W;
  VolumeListByAttrs : string -> string -> string -> string -> bool -> option bool ->
                      W -> (Response (list VolumeAttributesType) * error) * W;
  QtreeCount : string -> W -> (Z * error) * W;
  VolumeCreate : string -> string -> string -> string -> string -> string -> string ->
                 string -> option bool -> W -> (Response unit * error) * W;
  VolumeDisableSnapshotDirectoryAccess : string -> W -> (Response unit * error) * W;
  VolumeMount : string -> string -> W -> (Response unit * error) * W;
  VolumeDestroy : string -> bool -> W -> (Response unit * error) * W;
  VolumeGet : string -> W -> (VolumeAttributesType * error) * W;
  SetVolumeSize : string -> string -> W -> (Response unit * error) * W;
  QtreeCreate : string -> string -> string -> string -> string ->
                W -> (Response unit * error) * W;
  QtreeRename : string -> string -> W -> (Response unit * error) * W;
  QtreeDestroyAsync : string -> bool -> W -> (Response unit * error) * W;
  QtreeList : string -> string -> W -> (Response (list QtreeInfoType) * error) * W;
  QuotaSetEntry : string -> string -> string -> string -> string ->
                  W -> (Response unit * error) * W;
  QuotaStatus : string -> W -> (Response string * error) * W;
  QuotaOn : string -> W -> (Response unit * error) * W;
  QuotaOff : string -> W -> (Response unit * error) * W;
  QuotaResize : string -> W -> (Response unit * error) * W;
  QuotaEntryList : string -> W -> (Response (list QuotaEntryType) * error) * W;
  (* helpers of the driver family that live outside this file *)
  ValidateEncryptionAttribute : string -> W -> (option bool * error) * W;
  UpdateLoadSharingMirrors : W -> W;
  MountVolume : string -> string -> W -> error * W;
  UnmountVolume : string -> W -> error * W;
  (* time.Sleep, utils.RandomString, rand.Intn *)
  Sleep : Z -> W -> W;
  RandomString : Z -> W -> string * W;
  RandIntn : Z -> W -> Z * W
}.

End api.

Module drivers.

(** The options of [drivers.OntapStorageDriverConfig] this driver reads. *)
Record OntapStorageDriverConfig := {
  StoragePrefix : string;
  Aggregate : string;
  SpaceReserve : string;
  SnapshotPolicy : string;
  SnapshotDir : string;
  Encryption : string;
  UnixPermissions : string;
  ExportPolicy : string;
  SecurityStyle : string;
  DataLIF : string
}.

End drivers.

Module trident.
Inductive Protocol := File | Block | ProtocolAny.
Inductive AccessMode := ReadWriteOnce | ReadOnlyMany | ReadWriteMany | ModeAny.
End trident.

Module storage.

Record VolumeAccessInfo := {
  NfsServerIP : string;
  NfsPath : string
}.

Record VolumeConfig := {
  Version : string;
  Name : string;
  InternalName : string;
  Size : string;
  Protocol : trident.Protocol;
  SnapshotPolicy : string;
  ExportPolicy : string;
  SnapshotDir : string;
  UnixPermissions : string;
  StorageClass : string;
  AccessMode : trident.AccessMode;
  AccessInfo : VolumeAccessInfo;
  BlockSize : string;
  FileSystem : string
}.

Record VolumeExternal := {
  Config : VolumeConfig;
  Pool : string
}.

End storage.

(** Constants and arithmetic the driver takes from other packages. *)
Record Externals := {
  (** [MinimumVolumeSizeBytes], the externally defined lower bound. *)
  MinimumVolumeSizeBytes : Z;
  (** [azgo.EVOLUMEDOESNOTEXIST], the code of "volume does not exist". *)
  EVOLUMEDOESNOTEXIST : string;
  (** [trident.OrchestratorAPIVersion]. *)
  OrchestratorAPIVersion : string;
  (** The floating-point step of [getOptimalSizeForFlexvol]:
      [uint64(float64(bytes) * (1.0 + float64(pct) / 100.0))]. *)
  scaleBySnapReserve : Z -> Z -> Z
}.

(** Modelled from the spec: [utils.GetV] is not under src/.  It resolves an
    option; unspecified keys fall back to the driver default. *)
Definition GetV (opts : gmap string string) (key defaultValue : string) : string :=
  default defaultValue (opts !! key).

(** ** The driver *)

Definition deletedQtreeNamePrefix : string := "deleted_".
Definition maxQtreeNameLength : Z := 64.
Definition maxQtreesPerFlexvol : Z := 200.

(** The fields of [NASQtreeStorageDriver] that stay fixed once [Initialize]
    has run.  The one field that provisioning mutates, [quotaResizeMap], is
    part of the state below. *)
Record NASQtreeStorageDriver := {
  Config : drivers.OntapStorageDriverConfig;
  flexvolNamePrefix : string;
  flexvolExportPolicy : string
}.

Section Driver.
Import azgo api.

Context {W : Type}.
Variable API : Client W.
Variable ext : Externals.
Variable d : NASQtreeStorageDriver.

(** The state a driver method runs in. *)
Record State := {
  world : W;
  quotaResizeMap : gmap string bool;
  trace : list Event
}.

(** A method either returns, panics (a Go run-time panic such as a slice
    out of range), or is still polling, in state [s], when the fuel of the
    model ends. *)
Inductive Outcome (A : Type) :=
| Ret (a : A) (s : State)
| Panic
| Stall (s : State).
Arguments Ret {A} _ _.
Arguments Panic {A}.
Arguments Stall {A} _.

Definition M (A : Type) : Type := State -> Outcome A.

Definition ret {A} (a : A) : M A := fun s => Ret a s.

Definition bind {A B} (m : M A) (k : A -> M B) : M B :=
  fun s => match m s with
           | Ret a s' => k a s'
           | Panic => Panic
           | Stall s' => Stall s'
           end.

Definition panic {A} : M A := fun _ => Panic.
Definition stall {A} : M A := fun s => Stall s.

Notation "'let*' p ':=' c 'in' k" := (bind c (fun p => k))
  (at level 10, p pattern, c at level 100, k at level 200).

(** One call to the environment: run it on the world and log it. *)
Definition rpc {A} (f : W -> A * W) (ev : A -> Event) : M A :=
  fun s => let (a, w) := f (world s) in
           Ret a {| world := w;
                    quotaResizeMap := quotaResizeMap s;
                    trace := trace s ++ [ev a] |}.

Definition rpc_ (f : W -> W) (ev : Event) : M unit :=
  rpc (fun w => (tt, f w)) (fun _ => ev).

(** [d.quotaResizeMap[flexvol] = true] and [delete(d.quotaResizeMap, flexvol)]. *)
Definition markForResize (flexvol : string) : M unit :=
  fun s => Ret tt {| world := world s;
                     quotaResizeMap := <[flexvol := true]> (quotaResizeMap s);
                     trace := trace s |}.

Definition unmarkForResize (flexvol : string) : M unit :=
  fun s => Ret tt {| world := world s;
                     quotaResizeMap := delete flexvol (quotaResizeMap s);
                     trace := trace s |}.

(** *** The calls, logged *)

Definition API_QtreeExists (name prefix : string) : M (bool * string * error) :=
  rpc (QtreeExists _ API name prefix)
      (fun '(found, flexvol, err) => EvQtreeExists name prefix found flexvol err).

Definition API_VolumeListByAttrs (prefix aggregate spaceReserve snapshotPolicy : string)
    (snapshotDir : bool) (encrypt : option bool) :=
  rpc (VolumeListByAttrs _ API prefix aggregate spaceReserve snapshotPolicy snapshotDir encrypt)
      (fun '(r, err) => EvVolumeListByAttrs prefix aggregate spaceReserve snapshotPolicy
                          snapshotDir encrypt r err).

Definition API_QtreeCount (volume : string) :=
  rpc (QtreeCount _ API volume) (fun '(count, err) => EvQtreeCount volume count err).

Definition API_VolumeCreate (name aggregate size spaceReserve snapshotPolicy
    unixPermissions exportPolicy securityStyle : string) (encrypt : option bool) :=
  rpc (VolumeCreate _ API name aggregate size spaceReserve snapshotPolicy unixPermissions
         exportPolicy securityStyle encrypt)
      (fun '(r, err) => EvVolumeCreate name aggregate size spaceReserve snapshotPolicy
                          unixPermissions exportPolicy securityStyle encrypt r err).

Definition API_VolumeDisableSnapshotDirectoryAccess (name : string) :=
  rpc (VolumeDisableSnapshotDirectoryAccess _ API name)
      (fun '(r, err) => EvVolumeDisableSnapshotDirectoryAccess name r err).

Definition API_VolumeMount (name junction : string) :=
  rpc (VolumeMount _ API name junction) (fun '(r, err) => EvVolumeMount name junction r err).

Definition API_VolumeDestroy (name : string) (force : bool) :=
  rpc (VolumeDestroy _ API name force) (fun '(r, err) => EvVolumeDestroy name force r err).

Definition API_VolumeGet (name : string) :=
  rpc (VolumeGet _ API name) (fun '(attrs, err) => EvVolumeGet name attrs err).

Definition API_SetVolumeSize (name size : string) :=
  rpc (SetVolumeSize _ API name size) (fun '(r, err) => EvSetVolumeSize name size r err).

Definition API_QtreeCreate (name flexvol unixPermissions exportPolicy securityStyle : string) :=
  rpc (QtreeCreate _ API name flexvol unixPermissions exportPolicy securityStyle)
      (fun '(r, err) => EvQtreeCreate name flexvol unixPermissions exportPolicy
                          securityStyle r err).

Definition API_QtreeRename (path newPath : string) :=
  rpc (QtreeRename _ API path newPath) (fun '(r, err) => EvQtreeRename path newPath r err).

Definition API_QtreeDestroyAsync (path : string) (force : bool) :=
  rpc (QtreeDestroyAsync _ API path force)
      (fun '(r, err) => EvQtreeDestroyAsync path force r err).

Definition API_QtreeList (prefix flexvolPrefix : string) :=
  rpc (QtreeList _ API prefix flexvolPrefix)
      (fun '(r, err) => EvQtreeList prefix flexvolPrefix r err).

Definition API_QuotaSetEntry (qtarget flexvol path qtype diskLimit : string) :=
  rpc (QuotaSetEntry _ API qtarget flexvol path qtype diskLimit)
      (fun '(r, err) => EvQuotaSetEntry qtarget flexvol path qtype diskLimit r err).

Definition API_QuotaStatus (flexvol : string) :=
  rpc (QuotaStatus _ API flexvol) (fun '(r, err) => EvQuotaStatus flexvol r err).

Definition API_QuotaOn (flexvol : string) :=
  rpc (QuotaOn _ API flexvol) (fun '(r, err) => EvQuotaOn flexvol r err).

Definition API_QuotaOff (flexvol : string) :=
  rpc (QuotaOff _ API flexvol) (fun '(r, err) => EvQuotaOff flexvol r err).

Definition API_QuotaResize (flexvol : string) :=
  rpc (QuotaResize _ API flexvol) (fun '(r, err) => EvQuotaResize flexvol r err).

Definition API_QuotaEntryList (flexvol : string) :=
  rpc (QuotaEntryList _ API flexvol) (fun '(r, err) => EvQuotaEntryList flexvol r err).

Definition call_ValidateEncryptionAttribute (encryption : string) :=
  rpc (ValidateEncryptionAttribute _ API encryption)
      (fun '(encrypt, err) => EvValidateEncryptionAttribute encryption encrypt err).

Definition call_UpdateLoadSharingMirrors : M unit :=
  rpc_ (UpdateLoadSharingMirrors _ API) EvUpdateLoadSharingMirrors.

Definition call_MountVolume (exportPath mountpoint : string) : M error :=
  rpc (MountVolume _ API exportPath mountpoint) (EvMountVolume exportPath mountpoint).

Definition call_UnmountVolume (mountpoint : string) : M error :=
  rpc (UnmountVolume _ API mountpoint) (EvUnmountVolume mountpoint).

Definition time_Sleep (seconds : Z) : M unit :=
  rpc_ (Sleep _ API seconds) (EvSleep seconds).

Definition utils_RandomString (n : Z) : M string :=
  rpc (RandomString _ API n) (EvRandomString n).

(** [rand.Seed(time.Now().UnixNano())] followed by [rand.Intn(n)]. *)
Definition rand_Intn (n : Z) : M Z :=
  rpc (RandIntn _ API n) (EvRandIntn n).

Definition FlexvolNamePrefix : string := flexvolNamePrefix d.
Definition StoragePrefix : string := drivers.StoragePrefix (Config d).

(** *** Quota engine *)

(** [getQuotaStatus] returns the status of the quotas on a Flexvol. *)
Definition getQuotaStatus (flexvol : string) : M (string * error) :=
  let* (statusResponse, err) := API_QuotaStatus flexvol in
  match GetError statusResponse err with
  | Some e =>
      ret ("", Some ("error getting quota status for Flexvol " +:+ flexvol +:+ ": " +:+ e))
  | None => ret (Attributes statusResponse, None)
  end.

(** The loop [for status != "off" { ... }] of [disableQuotas]. *)
Fixpoint disableQuotas_wait (fuel : nat) (flexvol status : string) : M error :=
  if String.eqb status "off" then ret None
  else
    match fuel with
    | O => stall
    | S fuel' =>
        let* _ := time_Sleep 1 in
        let* (status, err) := getQuotaStatus flexvol in
        match err with
        | Some e => ret (Some ("error disabling quotas: " +:+ e))
        | None =>
            if String.eqb status "corrupt" then
              ret (Some ("error disabling quotas: quotas are corrupt on flexvol " +:+ flexvol))
            else disableQuotas_wait fuel' flexvol status
        end
    end.

Definition disableQuotas (fuel : nat) (flexvol : string) (wait : bool) : M error :=
  let* (status, err) := getQuotaStatus flexvol in
  match err with
  | Some e => ret (Some ("error disabling quotas: " +:+ e))
  | None =>
      if String.eqb status "corrupt" then
        ret (Some ("error disabling quotas: quotas are corrupt on Flexvol " +:+ flexvol))
      else
        let* offErr :=
          if negb (String.eqb status "off") then
            let* (offResponse, err) := API_QuotaOff flexvol in
            ret (GetError offResponse err)
          else ret None in
        match offErr with
        | Some e => ret (Some ("error disabling quotas: " +:+ e))
        | None =>
            if wait then disableQuotas_wait fuel flexvol status else ret None
        end
  end.

(** The loop [for status != "on" { ... }] of [enableQuotas]. *)
Fixpoint enableQuotas_wait (fuel : nat) (flexvol status : string) : M error :=
  if String.eqb status "on" then ret None
  else
    match fuel with
    | O => stall
    | S fuel' =>
        let* _ := time_Sleep 1 in
        let* (status, err) := getQuotaStatus flexvol in
        match err with
        | Some e => ret (Some ("error enabling quotas: " +:+ e))
        | None =>
            if String.eqb status "corrupt" then
              ret (Some ("error enabling quotas: quotas are corrupt on flexvol " +:+ flexvol))
            else enableQuotas_wait fuel' flexvol status
        end
    end.

Definition enableQuotas (fuel : nat) (flexvol : string) (wait : bool) : M error :=
  let* (status, err) := getQuotaStatus flexvol in
  match err with
  | Some e => ret (Some ("error enabling quotas: " +:+ e))
  | None =>
      if String.eqb status "corrupt" then
        ret (Some ("error enabling quotas: quotas are corrupt on flexvol " +:+ flexvol))
      else
        let* onErr :=
          if String.eqb status "off" then
            let* (onResponse, err) := API_QuotaOn flexvol in
            ret (GetError onResponse err)
          else ret None in
        match onErr with
        | Some e => ret (Some ("error enabling quotas: " +:+ e))
        | None =>
            if wait then enableQuotas_wait fuel flexvol status else ret None
        end
  end.

(** [addDefaultQuotaForFlexvol].  The results of [disableQuotas] and
    [enableQuotas] are not assigned: the two tests that follow them read
    [err], which still holds the outcome of [QuotaSetEntry]. *)
Definition addDefaultQuotaForFlexvol (fuel : nat) (flexvol : string) : M error :=
  let* (response, err) := API_QuotaSetEntry "" flexvol "" "tree" "-" in
  let err := GetError response err in
  match err with
  | Some e => ret (Some ("error adding default quota: " +:+ e))
  | None =>
      let* _ := disableQuotas fuel flexvol true in
      match err with
      | Some e => ret (Some ("error adding default quota: " +:+ e))
      | None =>
          let* _ := enableQuotas fuel flexvol true in
          match err with
          | Some e => ret (Some ("error adding default quota: " +:+ e))
          | None => ret None
          end
      end
  end.

(** [addQuotaForQtree] adds a tree quota with a hard disk size limit. *)
Definition addQuotaForQtree (qtree flexvol : string) (sizeBytes : Z) : M error :=
  let target := "/vol/" +:+ flexvol +:+ "/" +:+ qtree in
  let sizeKB := Strconv.FormatUint (sizeBytes / 1024) in
  let* (response, err) := API_QuotaSetEntry "" flexvol target "tree" sizeKB in
  match GetError response err with
  | Some e => ret (Some ("error adding qtree quota: " +:+ e))
  | None =>
      let* _ := markForResize flexvol in
      ret None
  end.

(** The loop of [getTotalHardDiskLimitQuota] over the quota rules. *)
Fixpoint sumDiskLimits (rules : list QuotaEntryType) (totalDiskLimitKB : Z) : Z :=
  match rules with
  | [] => totalDiskLimitKB
  | rule :: rest =>
      match Strconv.ParseUint (DiskLimit rule) with
      | (_, Some _) => sumDiskLimits rest totalDiskLimitKB
      | (diskLimitKB, None) =>
          sumDiskLimits rest (Strconv.wrap_uint64 (totalDiskLimitKB + diskLimitKB))
      end
  end.

Definition getTotalHardDiskLimitQuota (flexvol : string) : M (Z * error) :=
  let* (listResponse, err) := API_QuotaEntryList flexvol in
  match err with
  | Some e => ret (0, Some e)
  | None =>
      let totalDiskLimitKB := sumDiskLimits (Attributes listResponse) 0 in
      ret (Strconv.wrap_uint64 (totalDiskLimitKB * 1024), None)
  end.

Definition getOptimalSizeForFlexvol (flexvol : string) (newQtreeSizeBytes : Z)
  : M (Z * error) :=
  let* (volAttrs, err) := API_VolumeGet flexvol in
  match err with
  | Some e => ret (0, Some e)
  | None =>
      let* (totalDiskLimitBytes, err) := getTotalHardDiskLimitQuota flexvol in
      match err with
      | Some e => ret (0, Some e)
      | None =>
          let usableSpaceBytes := Strconv.wrap_uint64 (newQtreeSizeBytes + totalDiskLimitBytes) in
          ret (scaleBySnapReserve ext usableSpaceBytes (PercentageSnapshotReserve volAttrs),
               None)
      end
  end.

(** *** Pool selector and Flexvol factory *)

(** Weed out the Flexvols already having too many qtrees. *)
Fixpoint getFlexvolForQtree_filter (attrs : list VolumeAttributesType)
    (volumes : list string) : M (list string * error) :=
  match attrs with
  | [] => ret (volumes, None)
  | volAttrs :: rest =>
      let volName := azgo.Name volAttrs in
      let* (count, err) := API_QtreeCount volName in
      match err with
      | Some e => ret ([], Some ("error enumerating qtrees: " +:+ e))
      | None =>
          getFlexvolForQtree_filter rest
            (if count <? maxQtreesPerFlexvol then volumes ++ [volName] else volumes)
      end
  end.

Definition getFlexvolForQtree (aggregate spaceReserve snapshotPolicy : string)
    (enableSnapshotDir : bool) (encrypt : option bool) : M (string * error) :=
  let* (volListResponse, err) :=
    API_VolumeListByAttrs FlexvolNamePrefix aggregate spaceReserve snapshotPolicy
      enableSnapshotDir encrypt in
  match GetError volListResponse err with
  | Some e => ret ("", Some ("error enumerating Flexvols: " +:+ e))
  | None =>
      let* (volumes, err) := getFlexvolForQtree_filter (Attributes volListResponse) [] in
      match err with
      | Some e => ret ("", Some e)
      | None =>
          match volumes with
          | [] => ret ("", None)
          | [volume] => ret (volume, None)
          | _ =>
              let* k := rand_Intn (Z.of_nat (length volumes)) in
              if k <? 0 then panic
              else match volumes !! Z.to_nat k with
                   | Some volume => ret (volume, None)
                   | None => panic
                   end
          end
      end
  end.

Definition createFlexvolForQtree (fuel : nat) (aggregate spaceReserve snapshotPolicy : string)
    (enableSnapshotDir : bool) (encrypt : option bool) : M (string * error) :=
  let* suffix := utils_RandomString 10 in
  let flexvol := FlexvolNamePrefix +:+ suffix in
  let size := "1g" in
  let unixPermissions := "0700" in
  let exportPolicy := flexvolExportPolicy d in
  let securityStyle := "unix" in
  let* (createResponse, err) :=
    API_VolumeCreate flexvol aggregate size spaceReserve snapshotPolicy
      unixPermissions exportPolicy securityStyle encrypt in
  match GetError createResponse err with
  | Some e => ret ("", Some ("error creating Flexvol: " +:+ e))
  | None =>
      let* snapDirErr :=
        if negb enableSnapshotDir then
          let* (snapDirResponse, err) := API_VolumeDisableSnapshotDirectoryAccess flexvol in
          ret (GetError snapDirResponse err)
        else ret None in
      match snapDirErr with
      | Some e =>
          let* _ := API_VolumeDestroy flexvol true in
          ret ("", Some ("error disabling snapshot directory access: " +:+ e))
      | None =>
          let* (mountResponse, err) := API_VolumeMount flexvol ("/" +:+ flexvol) in
          match GetError mountResponse err with
          | Some e =>
              let* _ := API_VolumeDestroy flexvol true in
              ret ("", Some ("error mounting Flexvol: " +:+ e))
          | None =>
              let* _ := call_UpdateLoadSharingMirrors in
              let* err := addDefaultQuotaForFlexvol fuel flexvol in
              match err with
              | Some e =>
                  let* _ := API_VolumeDestroy flexvol true in
                  ret ("", Some ("error adding default quota to Flexvol: " +:+ e))
              | None => ret (flexvol, None)
              end
          end
      end
  end.

Definition ensureFlexvolForQtree (fuel : nat) (aggregate spaceReserve snapshotPolicy : string)
    (enableSnapshotDir : bool) (encrypt : option bool) : M (string * error) :=
  let* (flexvol, err) :=
    getFlexvolForQtree aggregate spaceReserve snapshotPolicy enableSnapshotDir encrypt in
  match err with
  | Some e => ret ("", Some ("error finding Flexvol for qtree: " +:+ e))
  | None =>
      if negb (String.eqb flexvol "") then ret (flexvol, None)
      else
        let* (flexvol, err) :=
          createFlexvolForQtree fuel aggregate spaceReserve snapshotPolicy
            enableSnapshotDir encrypt in
        match err with
        | Some e => ret ("", Some ("error creating Flexvol for qtree: " +:+ e))
        | None => ret (flexvol, None)
        end
  end.

(** *** Provisioner *)

Definition createError : error := Some "volume creation failed".
Definition deleteError : error := Some "volume deletion failed".
Definition listError : error := Some "volume list failed".

(** [Create] a qtree-backed volume.  After [QtreeCreate] the result of
    [addQuotaForQtree] is not assigned, and the test that follows reads
    [err], the outcome of the qtree creation. *)
Definition Create (fuel : nat) (name : string) (sizeBytes : Z)
    (opts : gmap string string) : M error :=
  let* (exists_, existsInFlexvol, err) := API_QtreeExists name FlexvolNamePrefix in
  match err with
  | Some _ => ret createError
  | None =>
  if exists_ : bool then ret (Some ("volume " +:+ name +:+ " already exists")) else
  if sizeBytes <? MinimumVolumeSizeBytes ext then
    ret (Some ("requested volume size (" +:+ Strconv.FormatUint sizeBytes +:+
               " bytes) is too small; the minimum volume size is " +:+
               Strconv.FormatUint (MinimumVolumeSizeBytes ext) +:+ " bytes"))
  else
  if maxQtreeNameLength <? len name then
    ret (Some ("volume " +:+ name +:+ " name exceeds the limit of " +:+
               Strconv.FormatInt maxQtreeNameLength +:+ " characters"))
  else
  let size := Strconv.FormatUint sizeBytes in
  let aggregate := GetV opts "aggregate" (drivers.Aggregate (Config d)) in
  let spaceReserve := GetV opts "spaceReserve" (drivers.SpaceReserve (Config d)) in
  let snapshotPolicy := GetV opts "snapshotPolicy" (drivers.SnapshotPolicy (Config d)) in
  let snapshotDir := GetV opts "snapshotDir" (drivers.SnapshotDir (Config d)) in
  let encryption := GetV opts "encryption" (drivers.Encryption (Config d)) in
  match Strconv.ParseBool snapshotDir with
  | (_, Some e) =>
      ret (Some ("invalid boolean value for snapshotDir: " +:+
                 Strconv.NumError_text "ParseBool" snapshotDir e))
  | (enableSnapshotDir, None) =>
  let* (encrypt, err) := call_ValidateEncryptionAttribute encryption in
  match err with
  | Some e => ret (Some e)
  | None =>
  let* (flexvol, err) :=
    ensureFlexvolForQtree fuel aggregate spaceReserve snapshotPolicy
      enableSnapshotDir encrypt in
  match err with
  | Some _ => ret createError
  | None =>
  let* (flexvolSizeBytes, err) := getOptimalSizeForFlexvol flexvol sizeBytes in
  let* resizeErr :=
    match err with
    | Some _ =>
        let* (resizeResponse, err) := API_SetVolumeSize flexvol ("+" +:+ size) in
        ret (GetError resizeResponse err)
    | None =>
        let flexvolSizeStr := Strconv.FormatUint flexvolSizeBytes in
        let* (resizeResponse, err) := API_SetVolumeSize flexvol flexvolSizeStr in
        ret (GetError resizeResponse err)
    end in
  match resizeErr with
  | Some _ => ret createError
  | None =>
  let unixPermissions := GetV opts "unixPermissions" (drivers.UnixPermissions (Config d)) in
  let exportPolicy := GetV opts "exportPolicy" (drivers.ExportPolicy (Config d)) in
  let securityStyle := GetV opts "securityStyle" (drivers.SecurityStyle (Config d)) in
  let* (qtreeResponse, err) :=
    API_QtreeCreate name flexvol unixPermissions exportPolicy securityStyle in
  let err := GetError qtreeResponse err in
  match err with
  | Some _ => ret createError
  | None =>
  let* _ := addQuotaForQtree name flexvol sizeBytes in
  match err with
  | Some _ => ret createError
  | None => ret None
  end end end end end end end.

(** The name a qtree is given when it is marked for deletion, and the
    random suffixes drawn on the way. *)
Definition deletedQtreeName (name : string) : M string :=
  let* suffix := utils_RandomString 5 in
  let deletedName := deletedQtreeNamePrefix +:+ name +:+ "_" +:+ suffix in
  if maxQtreeNameLength <? len deletedName then
    let trimLength := (String.length deletedQtreeNamePrefix + 10)%nat in
    match slice_from name trimLength with
    | None => panic
    | Some trimmed =>
        let* suffix := utils_RandomString 5 in
        ret (deletedQtreeNamePrefix +:+ trimmed +:+ "_" +:+ suffix)
    end
  else ret deletedName.

Definition Destroy (name : string) : M error :=
  let* (exists_, flexvol, err) := API_QtreeExists name FlexvolNamePrefix in
  match err with
  | Some _ => ret deleteError
  | None =>
      if negb exists_ then ret None
      else
        let path := "/vol/" +:+ flexvol +:+ "/" +:+ name in
        let* deletedName := deletedQtreeName name in
        let deletedPath := "/vol/" +:+ flexvol +:+ "/" +:+ deletedName in
        let* (renameResponse, err) := API_QtreeRename path deletedPath in
        match GetError renameResponse err with
        | Some _ => ret deleteError
        | None =>
            let* (destroyResponse, err) := API_QtreeDestroyAsync deletedPath true in
            match GetError destroyResponse err with
            | Some _ =>
                let* _ := API_QtreeRename deletedPath path in
                ret deleteError
            | None => ret None
            end
        end
  end.

Definition Attach (name mountpoint : string) (opts : gmap string string) : M error :=
  let* (exists_, flexvol, err) := API_QtreeExists name FlexvolNamePrefix in
  match err with
  | Some _ => ret (Some "volume mount failed")
  | None =>
      if negb exists_ then ret (Some ("volume " +:+ name +:+ " not found"))
      else
        let exportPath := drivers.DataLIF (Config d) +:+ ":/" +:+ flexvol +:+ "/" +:+ name in
        call_MountVolume exportPath mountpoint
  end.

(** [Detach]: the outcome of the lookup is only logged. *)
Definition Detach (name mountpoint : string) : M error :=
  let* (exists_, _, err) := API_QtreeExists name FlexvolNamePrefix in
  call_UnmountVolume mountpoint.

(** The loop of [List]: strip the storage prefix off every qtree name. *)
Fixpoint List_strip (prefix : string) (qtrees : list QtreeInfoType) (volumes : list string)
  : option (list string) :=
  match qtrees with
  | [] => Some volumes
  | qtree :: rest =>
      match slice_from (Qtree qtree) (String.length prefix) with
      | None => None
      | Some vol => List_strip prefix rest (volumes ++ [vol])
      end
  end.

Definition List : M (list string * error) :=
  let prefix := StoragePrefix in
  let volumes := [] in
  let* (listResponse, err) := API_QtreeList prefix FlexvolNamePrefix in
  match GetError listResponse err with
  | Some _ => ret (volumes, listError)
  | None =>
      match List_strip prefix (Attributes listResponse) volumes with
      | None => panic
      | Some volumes => ret (volumes, None)
      end
  end.

Definition Get (name : string) : M error :=
  let getError := Some ("volume " +:+ name +:+ " not found") in
  let* (exists_, flexvol, err) := API_QtreeExists name FlexvolNamePrefix in
  match err with
  | Some _ => ret getError
  | None => if negb exists_ then ret getError else ret None
  end.

(** *** Housekeeping *)

(** The body of the loop of [resizeQuotas] for one entry of the map. *)
Definition resizeQuotas_entry (flexvol : string) (resize : bool) : M unit :=
  if resize then
    let* (resizeResponse, err) := API_QuotaResize flexvol in
    match err with
    | Some _ => ret tt
    | None =>
        if negb (IsPassed (Result resizeResponse)) then
          if String.eqb (Code (Result resizeResponse)) (EVOLUMEDOESNOTEXIST ext)
          then unmarkForResize flexvol
          else ret tt
        else unmarkForResize flexvol
    end
  else ret tt.

(** [for flexvol, resize := range d.quotaResizeMap], the entries taken in
    the order [entries]. *)
Fixpoint resizeQuotas_range (entries : list (string * bool)) : M unit :=
  match entries with
  | [] => ret tt
  | (flexvol, resize) :: rest =>
      let* _ := resizeQuotas_entry flexvol resize in
      resizeQuotas_range rest
  end.

(** [resizeQuotas].  Go leaves the order of a [range] over a map open; the
    model walks the map in the order of [map_to_list], and the properties
    of the loop are proved for every order. *)
Definition resizeQuotas : M unit :=
  fun s => resizeQuotas_range (map_to_list (quotaResizeMap s)) s.

(** *** External representation *)

(** [getVolumeExternal]; [None] is the panic of the slice
    [internalName[len(prefix):]] on a name shorter than the prefix. *)
Definition getVolumeExternal (qtreeAttrs : QtreeInfoType)
    (volumeAttrs : VolumeAttributesType) (quotaAttrs : QuotaEntryType)
  : option storage.VolumeExternal :=
  let internalName := Qtree qtreeAttrs in
  match slice_from internalName (String.length StoragePrefix) with
  | None => None
  | Some name =>
      let size :=
        match Strconv.ParseInt (DiskLimit quotaAttrs) with
        | (_, Some _) => 0
        | (size, None) => Strconv.wrap_int64 (size * 1024)
        end in
      let volumeConfig := {|
        storage.Version := OrchestratorAPIVersion ext;
        storage.Name := name;
        storage.InternalName := internalName;
        storage.Size := Strconv.FormatInt size;
        storage.Protocol := trident.File;
        storage.SnapshotPolicy := azgo.SnapshotPolicy volumeAttrs;
        storage.ExportPolicy := azgo.ExportPolicy qtreeAttrs;
        storage.SnapshotDir := Strconv.FormatBool (SnapdirAccessEnabled volumeAttrs);
        storage.UnixPermissions := Mode qtreeAttrs;
        storage.StorageClass := "";
        storage.AccessMode := trident.ReadWriteMany;
        storage.AccessInfo := {| storage.NfsServerIP := ""; storage.NfsPath := "" |};
        storage.BlockSize := "";
        storage.FileSystem := ""
      |} in
      Some {| storage.Config := volumeConfig;
              storage.Pool := ContainingAggregateName volumeAttrs |}
  end.

End Driver.

Arguments Ret {W A} _ _.
Arguments Panic {W A}.
Arguments Stall {W A} _.

(** The events a run added to the trace. *)
Definition events_since {W} (s s' : @State W) : list api.Event :=
  drop (length (trace s)) (trace s').

(** What the driver expects of its random sources: [utils.RandomString(n)]
    is [n] alphanumerics, and [rand.Intn(n)] lies in [[0, n)]. *)
Definition RandomString_contract {W} (API : api.Client W) : Prop :=
  forall n w, 0 <= n ->
    len (api.RandomString _ API n w).1 = n /\
    all_alphanumeric (api.RandomString _ API n w).1 = true.

Definition RandIntn_contract {W} (API : api.Client W) : Prop :=
  forall n w, 0 < n -> 0 <= (api.RandIntn _ API n w).1 < n.

(** What the driver expects of [QtreeList(namePrefix, flexvolPrefix)]: a
    successful answer holds only qtrees whose names begin with [namePrefix]. *)
Definition QtreeList_contract {W} (API : api.Client W) : Prop :=
  forall prefix flexvolPrefix w,
    let '(r, err, _) := api.QtreeList _ API prefix flexvolPrefix w in
    api.GetError r err = None ->
    Forall (fun q => HasPrefix (azgo.Qtree q) prefix = true) (azgo.Attributes r).

(** ** Vocabulary of the statements *)

Section Vocabulary.
Import azgo api.
Variable ext : Externals.

(** A resize answer after which the sweep forgets the Flexvol: the call
    went through and either passed or reported that the volume is gone. *)
Definition resize_settled (r : Response unit) (err : error) : bool :=
  match err with
  | Some _ => false
  | None => IsPassed (Result r) || String.eqb (Code (Result r)) (EVOLUMEDOESNOTEXIST ext)
  end.

(** The Flexvols a trace shows to be under the fan-out cap: those for which
    [QtreeCount] answered a count below [maxQtreesPerFlexvol], in order. *)
Fixpoint candidates (tr : list Event) : list string :=
  match tr with
  | [] => []
  | EvQtreeCount volume count None :: rest =>
      if count <? maxQtreesPerFlexvol then volume :: candidates rest else candidates rest
  | _ :: rest => candidates rest
  end.

(** Every enumeration call of a trace went through. *)
Definition enumerated (ev : Event) : bool :=
  match ev with
  | EvVolumeListByAttrs _ _ _ _ _ _ r err => bool_decide (GetError r err = None)
  | EvQtreeCount _ _ err => bool_decide (err = None)
  | _ => true
  end.

Definition enumeration_ok (tr : list Event) : bool := forallb enumerated tr.

(** How a polling loop ends. *)
Inductive PollEnd := Reached | Corrupt | ReadFailed.

(** [Polling target flexvol status tr o]: starting with the status
    [status] in hand, [tr] is a run of polls of the quota status of
    [flexvol], each a one-second sleep followed by a status read, that goes
    on while the status read is neither [target] nor ["corrupt"]; [o] tells
    how it ended, [None] when it is still going on. *)
Inductive Polling (target flexvol : string)
  : string -> list Event -> option PollEnd -> Prop :=
| Polling_reached :
    Polling target flexvol target [] (Some Reached)
| Polling_pending status :
    status <> target ->
    Polling target flexvol status [] None
| Polling_read_failed status r err e :
    status <> target ->
    GetError r err = Some e ->
    Polling target flexvol status [EvSleep 1; EvQuotaStatus flexvol r err] (Some ReadFailed)
| Polling_corrupt status r err :
    status <> target ->
    GetError r err = None ->
    Attributes r = "corrupt" ->
    Polling target flexvol status [EvSleep 1; EvQuotaStatus flexvol r err] (Some Corrupt)
| Polling_again status r err tr o :
    status <> target ->
    GetError r err = None ->
    Attributes r <> "corrupt" ->
    Polling target flexvol (Attributes r) tr o ->
    Polling target flexvol status (EvSleep 1 :: EvQuotaStatus flexvol r err :: tr) o.

(** The number of sleeps in a trace. *)
Fixpoint sleeps (tr : list Event) : nat :=
  match tr with
  | [] => O
  | EvSleep _ :: rest => S (sleeps rest)
  | _ :: rest => sleeps rest
  end.

End Vocabulary.

(** ** A scripted appliance

    A small client on which the driver can be run: its answers are fixed by
    an [Appliance] record, and its world is the script of the quota statuses
    still to be reported (["on"] once the script is used up). *)

Module Scripted.
Import azgo api.

Definition passed : ZapiResult :=
  {| IsPassed := true; Code := ""; ErrorText := "" |}.

Definition failed (code text : string) : ZapiResult :=
  {| IsPassed := false; Code := code; ErrorText := text |}.

Definition ok {A} (a : A) : Response A * error :=
  ({| Result := passed; Attributes := a |}, None).

Definition rejected (code text : string) : Response unit * error :=
  ({| Result := failed code text; Attributes := tt |}, None).

Definition unreachable : Response unit * error :=
  ({| Result := failed "" ""; Attributes := tt |}, Some "connection refused").

Record Appliance := {
  volumes : list VolumeAttributesType;
  qtreeCount : string -> Z * error;
  qtrees : list QtreeInfoType;
  lookupError : error;
  quotaSetEntry : Response unit * error;
  quotaResize : string -> Response unit * error;
  unmount : error
}.

Fixpoint findQtree (name : string) (qs : list QtreeInfoType) : bool * string :=
  match qs with
  | [] => (false, "")
  | q :: rest => if String.eqb (Qtree q) name then (true, Volume q) else findQtree name rest
  end.

Fixpoint repeat_char (n : nat) (c : ascii) : string :=
  match n with
  | O => EmptyString
  | S n' => String c (repeat_char n' c)
  end.

Definition noVolume : VolumeAttributesType :=
  {| Name := ""; ContainingAggregateName := ""; PercentageSnapshotReserve := 0;
     SnapshotPolicy := ""; SnapdirAccessEnabled := false |}.

Fixpoint findVolume (name : string) (vs : list VolumeAttributesType)
  : VolumeAttributesType * error :=
  match vs with
  | [] => (noVolume, Some "volume not found")
  | v :: rest => if String.eqb (Name v) name then (v, None) else findVolume name rest
  end.

(** Modelled from the spec: the appliance client is not under src/.
    [QtreeExists] looks a qtree up by name, [QtreeList] enumerates the
    qtrees whose names begin with the name prefix under Flexvols whose
    names begin with the Flexvol prefix, [QuotaStatus] gives the status
    string; every other operation answers as the [Appliance] says. *)
Definition client (a : Appliance) : Client (list string) := {|
  QtreeExists name _ w :=
    match lookupError a with
    | Some e => ((false, "", Some e), w)
    | None => (findQtree name (qtrees a), None, w)
    end;
  VolumeListByAttrs _ _ _ _ _ _ w := (ok (volumes a), w);
  QtreeCount volume w := (qtreeCount a volume, w);
  VolumeCreate _ _ _ _ _ _ _ _ _ w := (ok tt, w);
  VolumeDisableSnapshotDirectoryAccess _ w := (ok tt, w);
  VolumeMount _ _ w := (ok tt, w);
  VolumeDestroy _ _ w := (ok tt, w);
  VolumeGet name w := (findVolume name (volumes a), w);
  SetVolumeSize _ _ w := (ok tt, w);
  QtreeCreate _ _ _ _ _ w := (ok tt, w);
  QtreeRename _ _ w := (ok tt, w);
  QtreeDestroyAsync _ _ w := (ok tt, w);
  QtreeList prefix flexvolPrefix w :=
    (ok (List.filter (fun q => HasPrefix (Qtree q) prefix &&
                               HasPrefix (Volume q) flexvolPrefix) (qtrees a)), w);
  QuotaSetEntry _ _ _ _ _ w := (quotaSetEntry a, w);
  QuotaStatus _ w :=
    match w with
    | [] => (ok "on", [])
    | status :: rest => (ok status, rest)
    end;
  QuotaOn _ w := (ok tt, w);
  QuotaOff _ w := (ok tt, w);
  QuotaResize flexvol w := (quotaResize a flexvol, w);
  QuotaEntryList _ w := (ok [], w);
  ValidateEncryptionAttribute _ w := (None, None, w);
  UpdateLoadSharingMirrors w := w;
  MountVolume _ _ w := (None, w);
  UnmountVolume _ w := (unmount a, w);
  Sleep _ w := w;
  RandomString n w := (repeat_char (Z.to_nat n) "x", w);
  RandIntn _ w := (0, w)
|}.

(** The constants of a default build.  [scaleBySnapReserve] stands in for
    the floating-point step with exact arithmetic, rounded down: on the
    sizes and the 5 % reserve of the runs below the two give the same
    bytes, elsewhere they can differ, and no property depends on the
    choice. *)
Definition ext : Externals := {|
  MinimumVolumeSizeBytes := 20971520;
  EVOLUMEDOESNOTEXIST := "13040";
  OrchestratorAPIVersion := "1";
  scaleBySnapReserve bytes pct := bytes * (100 + pct) / 100
|}.

Definition config (storagePrefix : string) : drivers.OntapStorageDriverConfig := {|
  drivers.StoragePrefix := storagePrefix;
  drivers.Aggregate := "aggr1";
  drivers.SpaceReserve := "none";
  drivers.SnapshotPolicy := "none";
  drivers.SnapshotDir := "false";
  drivers.Encryption := "false";
  drivers.UnixPermissions := "---rwxrwxrwx";
  drivers.ExportPolicy := "default";
  drivers.SecurityStyle := "unix";
  drivers.DataLIF := "10.0.0.1"
|}.

Definition driver (storagePrefix : string) : NASQtreeStorageDriver := {|
  Config := config storagePrefix;
  flexvolNamePrefix := "trident_qtree_pool_" +:+ storagePrefix;
  flexvolExportPolicy := "trident_qtree_pool_export_policy"
|}.

Definition flexvol (name : string) : VolumeAttributesType :=
  {| Name := name; ContainingAggregateName := "aggr1"; PercentageSnapshotReserve := 5;
     SnapshotPolicy := "none"; SnapdirAccessEnabled := false |}.

Definition qtree (volume name : string) : QtreeInfoType :=
  {| Volume := volume; Qtree := name; ExportPolicy := "default"; Mode := "777" |}.

Definition start (statuses : list string) : @State (list string) :=
  {| world := statuses; quotaResizeMap := ∅; trace := [] |}.

(** An appliance with one pooled Flexvol that holds three qtrees. *)
Definition pool1 : string := "trident_qtree_pool_trident_aBcDeFgHiJ".

Definition healthy : Appliance := {|
  volumes := [flexvol pool1];
  qtreeCount _ := (3, None);
  qtrees := [qtree pool1 "trident_a"; qtree pool1 "trident_b"; qtree pool1 "trident_c"];
  lookupError := None;
  quotaSetEntry := ok tt;
  quotaResize _ := ok tt;
  unmount := None
|}.

(** The same appliance, refusing every quota rule it is sent. *)
Definition quotaRejecting : Appliance := {|
  volumes := volumes healthy;
  qtreeCount := qtreeCount healthy;
  qtrees := qtrees healthy;
  lookupError := None;
  quotaSetEntry := rejected "13001" "quota rule refused";
  quotaResize := quotaResize healthy;
  unmount := None
|}.

(** An appliance with no pooled Flexvol yet. *)
Definition emptyPool : Appliance := {|
  volumes := [];
  qtreeCount _ := (0, None);
  qtrees := [];
  lookupError := None;
  quotaSetEntry := ok tt;
  quotaResize _ := ok tt;
  unmount := None
|}.

(** An appliance that cannot be reached for the qtree lookup. *)
Definition offline : Appliance := {|
  volumes := [];
  qtreeCount _ := (0, Some "connection refused");
  qtrees := [];
  lookupError := Some "connection refused";
  quotaSetEntry := unreachable;
  quotaResize _ := unreachable;
  unmount := Some "umount: /mnt/vol1: not mounted"
|}.

(** With an empty storage prefix: the qtree [vol1] has been renamed for
    deletion and is not destroyed yet; [vol2] is live. *)
Definition afterRename : Appliance := {|
  volumes := [flexvol pool1];
  qtreeCount _ := (2, None);
  qtrees := [qtree pool1 "deleted_vol1_xxxxx"; qtree pool1 "vol2"];
  lookupError := None;
  quotaSetEntry := ok tt;
  quotaResize _ := ok tt;
  unmount := None
|}.

(** With the storage prefix ["trident_"]: a live volume that its user
    called [deleted_scenes]. *)
Definition deletedScenes : Appliance := {|
  volumes := [flexvol pool1];
  qtreeCount _ := (1, None);
  qtrees := [qtree pool1 "trident_deleted_scenes"];
  lookupError := None;
  quotaSetEntry := ok tt;
  quotaResize _ := ok tt;
  unmount := None
|}.

(** An appliance that holds a qtree with a name of sixty bytes. *)
Definition name60 : string := repeat_char 60 "q".

Definition longName : Appliance := {|
  volumes := [flexvol pool1];
  qtreeCount _ := (1, None);
  qtrees := [qtree pool1 name60];
  lookupError := None;
  quotaSetEntry := ok tt;
  quotaResize _ := ok tt;
  unmount := None
|}.

(** An appliance with a full Flexvol and one that has room for one more. *)
Definition fanout : Appliance := {|
  volumes := [flexvol "pool_full"; flexvol "pool_room"];
  qtreeCount volume := (if String.eqb volume "pool_full" then 200 else 199, None);
  qtrees := [];
  lookupError := None;
  quotaSetEntry := ok tt;
  quotaResize _ := ok tt;
  unmount := None
|}.



End Scripted.

(** ** The driver, continued

    The paths of the driver that the further properties cover: the names
    [Initialize] derives, the periods of the housekeeping tasks, the pruner,
    the reaper and the requeue at start-up, the sweeps of [Terminate], the
    follow-up of a creation, and the discovery of the volumes. *)

(** *** Names derived by [Initialize] *)

(** The driver context, as far as the [switch] of [Initialize] tells
    contexts apart. *)
Inductive DriverContext := ContextDocker | ContextKubernetes | ContextOther.

Definition artifactPrefixDocker : string := "ndvp".
Definition artifactPrefixKubernetes : string := "trident".

(** [var artifactPrefix string; switch context { ... }]: no case, no prefix. *)
Definition artifactPrefix (context : DriverContext) : string :=
  match context with
  | ContextDocker => artifactPrefixDocker
  | ContextKubernetes => artifactPrefixKubernetes
  | ContextOther => ""
  end.

(** [strings.Replace(s, "__", "_", -1)]: one pass from the left over the
    occurrences that do not overlap. *)
Fixpoint collapse_underscores (s : string) : string :=
  match s with
  | EmptyString => EmptyString
  | String c rest =>
      match rest with
      | String c' rest' =>
          if Ascii.eqb c "_" && Ascii.eqb c' "_"
          then String "_" (collapse_underscores rest')
          else String c (collapse_underscores rest)
      | EmptyString => String c EmptyString
      end
  end.

(** [d.flexvolNamePrefix] as [Initialize] sets it. *)
Definition Initialize_flexvolNamePrefix (context : DriverContext)
    (storagePrefix : string) : string :=
  collapse_underscores (artifactPrefix context +:+ "_qtree_pool_" +:+ storagePrefix +:+ "_").

(** Whether the byte ["_"] occurs in [s]. *)
Fixpoint contains_underscore (s : string) : bool :=
  match s with
  | EmptyString => false
  | String c rest => Ascii.eqb c "_" || contains_underscore rest
  end.

(** *** Periods of the housekeeping tasks *)

Definition defaultPruneFlexvolsPeriodSecs : Z := 600.
Definition defaultResizeQuotasPeriodSecs : Z := 60.

(** The period [startHousekeepingTasks] reads from an option of the
    configuration: the default when the option is empty or is not accepted
    by [strconv.ParseUint(_, 10, 64)]. *)
Definition housekeepingPeriodSecs (configured : string) (defaultSecs : Z) : Z :=
  if String.eqb configured "" then defaultSecs
  else match Strconv.ParseUint configured with
       | (_, Some _) => defaultSecs
       | (i, None) => i
       end.

(** [time.Duration(secs) * time.Second], in nanoseconds: the conversion of
    the [uint64] to [int64] and the product both wrap around. *)
Definition tickerDuration (secs : Z) : Z :=
  Strconv.wrap_int64 (Strconv.wrap_int64 secs * 1000000000).

(** [time.NewTicker(d)] panics ([None]) unless [d] is positive. *)
Definition NewTicker (d : Z) : option Z :=
  if 0 <? d then Some d else None.

(** The value of a decimal numeral read from the left, [acc] being the
    value of the digits already read. *)
Fixpoint uint_value (d : Decimal.uint) (acc : Z) : Z :=
  match d with
  | Decimal.Nil => acc
  | Decimal.D0 l => uint_value l (acc * 10)
  | Decimal.D1 l => uint_value l (acc * 10 + 1)
  | Decimal.D2 l => uint_value l (acc * 10 + 2)
  | Decimal.D3 l => uint_value l (acc * 10 + 3)
  | Decimal.D4 l => uint_value l (acc * 10 + 4)
  | Decimal.D5 l => uint_value l (acc * 10 + 5)
  | Decimal.D6 l => uint_value l (acc * 10 + 6)
  | Decimal.D7 l => uint_value l (acc * 10 + 7)
  | Decimal.D8 l => uint_value l (acc * 10 + 8)
  | Decimal.D9 l => uint_value l (acc * 10 + 9)
  end.

(** Whether every byte of [s] is one of [0-9]. *)
Fixpoint all_digits (s : string) : bool :=
  match s with
  | EmptyString => true
  | String c rest =>
      let v := Z.of_nat (nat_of_ascii c) in
      (48 <=? v) && (v <=? 57) && all_digits rest
  end.

(** *** Operations of the housekeeping paths *)

Module housekeeping.
Import azgo.

(** [d.API.VolumeList], which only the pruner and the requeue at start-up
    call.  It is kept apart from [api.Client]; its calls act on the world
    and leave no entry in the trace, which keeps the calls of [api.Client]. *)
Record Client (W : Type) := {
  VolumeList : string -> W -> (Response (list VolumeAttributesType) * error) * W
}.

End housekeeping.

(** *** Operations of the discovery path *)

Module discovery.
Import azgo.

(** [d.API.VolumeGetAll] and [d.API.QtreeGetAll], which only
    [GetVolumeExternalWrappers] calls; like [VolumeList], they act on the
    world and leave no entry in the trace. *)
Record Client (W : Type) := {
  VolumeGetAll : string -> W -> (Response (list VolumeAttributesType) * error) * W;
  QtreeGetAll : string -> W -> (Response (list QtreeInfoType) * error) * W
}.

(** [storage.VolumeExternalWrapper]: a volume or an error. *)
Record VolumeExternalWrapper := {
  Volume : option storage.VolumeExternal;
  Error : error
}.

End discovery.

Section DriverMore.
Import azgo api.

Context {W : Type}.
Variable API : Client W.
Variable HK : housekeeping.Client W.
Variable DISC : discovery.Client W.
Variable ext : Externals.
Variable d : NASQtreeStorageDriver.

Notation "'let*' p ':=' c 'in' k" := (bind c (fun p => k))
  (at level 10, p pattern, c at level 100, k at level 200).

(** A call that acts on the world without an entry in the trace. *)
Definition untraced {A} (f : W -> A * W) : @M W A :=
  fun s => let (a, w) := f (world s) in
           Ret a {| world := w;
                    quotaResizeMap := quotaResizeMap s;
                    trace := trace s |}.

Definition API_VolumeList (prefix : string) :=
  untraced (housekeeping.VolumeList _ HK prefix).

(** The loop of [queueAllFlexvolsForQuotaResize] over the listed Flexvols. *)
Fixpoint queueAllFlexvolsForQuotaResize_range (attrs : list VolumeAttributesType) : @M W unit :=
  match attrs with
  | [] => ret tt
  | volAttrs :: rest =>
      let flexvol := azgo.Name volAttrs in
      let* _ := markForResize flexvol in
      queueAllFlexvolsForQuotaResize_range rest
  end.

(** [queueAllFlexvolsForQuotaResize]: a failure of the listing is logged,
    and the loop runs over whatever the answer holds. *)
Definition queueAllFlexvolsForQuotaResize : @M W unit :=
  let* (volumeListResponse, err) := API_VolumeList (FlexvolNamePrefix d) in
  queueAllFlexvolsForQuotaResize_range (Attributes volumeListResponse).

(** The second loop of [pruneUnusedFlexvols]: destroy any Flexvol devoid of
    qtrees. *)
Fixpoint pruneUnusedFlexvols_range (flexvols : list string) : @M W unit :=
  match flexvols with
  | [] => ret tt
  | flexvol :: rest =>
      let* (qtreeCount, err) := API_QtreeCount API flexvol in
      let* _ :=
        match err with
        | None =>
            if qtreeCount =? 0 then
              let* _ := API_VolumeDestroy API flexvol true in ret tt
            else ret tt
        | Some _ => ret tt
        end in
      pruneUnusedFlexvols_range rest
  end.

(** [pruneUnusedFlexvols]: a failure of the listing is logged, and the
    loops run over whatever the answer holds. *)
Definition pruneUnusedFlexvols : @M W unit :=
  let* (volumeListResponse, err) := API_VolumeList (FlexvolNamePrefix d) in
  let flexvols := map azgo.Name (Attributes volumeListResponse) in
  pruneUnusedFlexvols_range flexvols.

(** The loop of [reapDeletedQtrees]. *)
Fixpoint reapDeletedQtrees_range (qtrees : list QtreeInfoType) : @M W unit :=
  match qtrees with
  | [] => ret tt
  | qtree :: rest =>
      let qtreePath := "/vol/" +:+ Volume qtree +:+ "/" +:+ Qtree qtree in
      let* _ := API_QtreeDestroyAsync API qtreePath true in
      reapDeletedQtrees_range rest
  end.

(** [reapDeletedQtrees]: a failure of the listing is logged, and the loop
    runs over whatever the answer holds. *)
Definition reapDeletedQtrees : @M W unit :=
  let prefix := deletedQtreeNamePrefix +:+ StoragePrefix d in
  let* (listResponse, err) := API_QtreeList API prefix (FlexvolNamePrefix d) in
  reapDeletedQtrees_range (Attributes listResponse).

(** The three sweeps [Terminate] runs one last time, after it has stopped
    the tickers. *)
Definition Terminate_sweeps : @M W unit :=
  let* _ := pruneUnusedFlexvols in
  let* _ := reapDeletedQtrees in
  resizeQuotas API ext.

(** The part of [startHousekeepingTasks] that runs before it returns: the
    two periods are read from the configuration, the pruner and the reaper
    run once, the first ticker is made, the resize sweep runs once, the
    second ticker is made.  [time.NewTicker] panics on a period that is not
    positive.  The telemetry heartbeat and the goroutines that wait on the
    tickers are left out. *)
Definition startHousekeepingTasks (qtreePruneFlexvolsPeriod qtreeQuotaResizePeriod : string)
  : @M W unit :=
  let pruneFlexvolsPeriodSecs :=
    housekeepingPeriodSecs qtreePruneFlexvolsPeriod defaultPruneFlexvolsPeriodSecs in
  let resizeQuotasPeriodSecs :=
    housekeepingPeriodSecs qtreeQuotaResizePeriod defaultResizeQuotasPeriodSecs in
  let* _ := pruneUnusedFlexvols in
  let* _ := reapDeletedQtrees in
  match NewTicker (tickerDuration pruneFlexvolsPeriodSecs) with
  | None => panic
  | Some pruneTicker =>
      let* _ := resizeQuotas API ext in
      match NewTicker (tickerDuration resizeQuotasPeriodSecs) with
      | None => panic
      | Some resizeTicker => ret tt
      end
  end.

(** What [Initialize] does once [validate] has passed. *)
Definition Initialize_housekeeping (qtreePruneFlexvolsPeriod qtreeQuotaResizePeriod : string)
  : @M W unit :=
  let* _ := queueAllFlexvolsForQuotaResize in
  startHousekeepingTasks qtreePruneFlexvolsPeriod qtreeQuotaResizePeriod.

(** [CreateFollowup]: the volume configuration it is handed, as it leaves
    it, and its result. *)
Definition CreateFollowup (volConfig : storage.VolumeConfig)
  : @M W (storage.VolumeConfig * error) :=
  let internalName := storage.InternalName volConfig in
  let* (exists_, flexvol, err) := API_QtreeExists API internalName (FlexvolNamePrefix d) in
  match err with
  | Some e =>
      ret (volConfig,
           Some ("could not determine if qtree " +:+ internalName +:+ " exists: " +:+ e))
  | None =>
      if negb exists_ then
        ret (volConfig, Some ("could not find qtree " +:+ internalName))
      else
        let accessInfo := {|
          storage.NfsServerIP := drivers.DataLIF (Config d);
          storage.NfsPath := "/" +:+ flexvol +:+ "/" +:+ internalName
        |} in
        ret ({| storage.Version := storage.Version volConfig;
                storage.Name := storage.Name volConfig;
                storage.InternalName := storage.InternalName volConfig;
                storage.Size := storage.Size volConfig;
                storage.Protocol := storage.Protocol volConfig;
                storage.SnapshotPolicy := storage.SnapshotPolicy volConfig;
                storage.ExportPolicy := storage.ExportPolicy volConfig;
                storage.SnapshotDir := storage.SnapshotDir volConfig;
                storage.UnixPermissions := storage.UnixPermissions volConfig;
                storage.StorageClass := storage.StorageClass volConfig;
                storage.AccessMode := storage.AccessMode volConfig;
                storage.AccessInfo := accessInfo;
                storage.BlockSize := storage.BlockSize volConfig;
                storage.FileSystem := storage.FileSystem volConfig |},
             None)
  end.

(** The maps [GetVolumeExternalWrappers] builds for the correlation: a
    later entry of a listing replaces an earlier one with the same key. *)
Definition GetVolumeExternalWrappers_volumeMap (volumes : list VolumeAttributesType)
  : gmap string VolumeAttributesType :=
  foldl (fun volumeMap volumeAttrs => <[azgo.Name volumeAttrs := volumeAttrs]> volumeMap)
        ∅ volumes.

Definition GetVolumeExternalWrappers_quotaMap (quotas : list QuotaEntryType)
  : gmap string QuotaEntryType :=
  foldl (fun quotaMap quotaAttrs => <[QuotaTarget quotaAttrs := quotaAttrs]> quotaMap)
        ∅ quotas.

(** The last loop of [GetVolumeExternalWrappers]: the wrappers written to
    the channel, and whether the loop ran to its end ([false]: it ended in
    the panic of [getVolumeExternal], after the wrappers written so far). *)
Fixpoint GetVolumeExternalWrappers_range (volumeMap : gmap string VolumeAttributesType)
    (quotaMap : gmap string QuotaEntryType) (qtrees : list QtreeInfoType)
  : list discovery.VolumeExternalWrapper * bool :=
  match qtrees with
  | [] => ([], true)
  | qtree :: rest =>
      if String.eqb (Qtree qtree) "" then
        GetVolumeExternalWrappers_range volumeMap quotaMap rest
      else
        match volumeMap !! azgo.Volume qtree with
        | None => GetVolumeExternalWrappers_range volumeMap quotaMap rest
        | Some volume =>
            let quotaTarget := "/vol/" +:+ azgo.Volume qtree +:+ "/" +:+ Qtree qtree in
            match quotaMap !! quotaTarget with
            | None => GetVolumeExternalWrappers_range volumeMap quotaMap rest
            | Some quota =>
                match getVolumeExternal ext d qtree volume quota with
                | None => ([], false)
                | Some external =>
                    let (wrappers, completed) :=
                      GetVolumeExternalWrappers_range volumeMap quotaMap rest in
                    ({| discovery.Volume := Some external; discovery.Error := None |}
                       :: wrappers, completed)
                end
            end
        end
  end.

(** [GetVolumeExternalWrappers]: what it writes to the channel before it
    closes it, and whether it ran to its end. *)
Definition GetVolumeExternalWrappers
  : @M W (list discovery.VolumeExternalWrapper * bool) :=
  let failed (err : string) :=
    ([{| discovery.Volume := None; discovery.Error := Some err |}], true) in
  let* (volumesResponse, err) :=
    untraced (discovery.VolumeGetAll _ DISC (FlexvolNamePrefix d)) in
  match GetError volumesResponse err with
  | Some e => ret (failed e)
  | None =>
      let* (quotasResponse, err) := API_QuotaEntryList API (FlexvolNamePrefix d +:+ "*") in
      match GetError quotasResponse err with
      | Some e => ret (failed e)
      | None =>
          let* (qtreesResponse, err) :=
            untraced (discovery.QtreeGetAll _ DISC (FlexvolNamePrefix d)) in
          match GetError qtreesResponse err with
          | Some e => ret (failed e)
          | None =>
              let volumeMap :=
                GetVolumeExternalWrappers_volumeMap (Attributes volumesResponse) in
              let quotaMap :=
                GetVolumeExternalWrappers_quotaMap (Attributes quotasResponse) in
              ret (GetVolumeExternalWrappers_range volumeMap quotaMap
                     (Attributes qtreesResponse))
          end
      end
  end.

End DriverMore.

(** What the loop of [GetVolumeExternalWrappers] writes: a volume wrapper,
    for a listed qtree with a name, the last listed Flexvol of its name and
    the last listed quota rule of its path. *)
Definition correlated (ext : Externals) (d : NASQtreeStorageDriver)
    (volumes : list azgo.VolumeAttributesType) (quotas : list azgo.QuotaEntryType)
    (qtrees : list azgo.QtreeInfoType) (wrapper : discovery.VolumeExternalWrapper) : Prop :=
  discovery.Error wrapper = None /\
  exists external qtree volume quota,
    discovery.Volume wrapper = Some external /\
    qtree ∈ qtrees /\
    azgo.Qtree qtree <> "" /\
    last (filter (fun a => azgo.Name a = azgo.Volume qtree) volumes) = Some volume /\
    last (filter (fun a => azgo.QuotaTarget a =
                           "/vol/" +:+ azgo.Volume qtree +:+ "/" +:+ azgo.Qtree qtree) quotas)
      = Some quota /\
    getVolumeExternal ext d qtree volume quota = Some external.

(** *** Traces and the answers of the appliance *)

(** [answers API ev w w']: the call that [ev] records, made on the world
    [w], is answered by the environment as [ev] says, and leaves the world
    [w']. *)
Definition answers {W} (API : api.Client W) (ev : api.Event) (w w' : W) : Prop :=
  match ev with
  | api.EvQtreeExists name flexvolPrefix found flexvol err =>
      api.QtreeExists _ API name flexvolPrefix w = (found, flexvol, err, w')
  | api.EvValidateEncryptionAttribute encryption encrypt err =>
      api.ValidateEncryptionAttribute _ API encryption w = (encrypt, err, w')
  | api.EvVolumeListByAttrs prefix aggregate spaceReserve snapshotPolicy snapshotDir
      encrypt r err =>
      api.VolumeListByAttrs _ API prefix aggregate spaceReserve snapshotPolicy snapshotDir
        encrypt w = (r, err, w')
  | api.EvQtreeCount volume count err =>
      api.QtreeCount _ API volume w = (count, err, w')
  | api.EvVolumeCreate name aggregate size spaceReserve snapshotPolicy unixPermissions
      exportPolicy securityStyle encrypt r err =>
      api.VolumeCreate _ API name aggregate size spaceReserve snapshotPolicy unixPermissions
        exportPolicy securityStyle encrypt w = (r, err, w')
  | api.EvVolumeDisableSnapshotDirectoryAccess name r err =>
      api.VolumeDisableSnapshotDirectoryAccess _ API name w = (r, err, w')
  | api.EvVolumeMount name junction r err =>
      api.VolumeMount _ API name junction w = (r, err, w')
  | api.EvUpdateLoadSharingMirrors =>
      api.UpdateLoadSharingMirrors _ API w = w'
  | api.EvVolumeDestroy name force r err =>
      api.VolumeDestroy _ API name force w = (r, err, w')
  | api.EvVolumeGet name attrs err =>
      api.VolumeGet _ API name w = (attrs, err, w')
  | api.EvSetVolumeSize name size r err =>
      api.SetVolumeSize _ API name size w = (r, err, w')
  | api.EvQtreeCreate name flexvol unixPermissions exportPolicy securityStyle r err =>
      api.QtreeCreate _ API name flexvol unixPermissions exportPolicy securityStyle w
        = (r, err, w')
  | api.EvQtreeRename path newPath r err =>
      api.QtreeRename _ API path newPath w = (r, err, w')
  | api.EvQtreeDestroyAsync path force r err =>
      api.QtreeDestroyAsync _ API path force w = (r, err, w')
  | api.EvQtreeList prefix flexvolPrefix r err =>
      api.QtreeList _ API prefix flexvolPrefix w = (r, err, w')
  | api.EvQuotaSetEntry qtarget flexvol path qtype diskLimit r err =>
      api.QuotaSetEntry _ API qtarget flexvol path qtype diskLimit w = (r, err, w')
  | api.EvQuotaStatus flexvol r err =>
      api.QuotaStatus _ API flexvol w = (r, err, w')
  | api.EvQuotaOn flexvol r err =>
      api.QuotaOn _ API flexvol w = (r, err, w')
  | api.EvQuotaOff flexvol r err =>
      api.QuotaOff _ API flexvol w = (r, err, w')
  | api.EvQuotaResize flexvol r err =>
      api.QuotaResize _ API flexvol w = (r, err, w')
  | api.EvQuotaEntryList flexvol r err =>
      api.QuotaEntryList _ API flexvol w = (r, err, w')
  | api.EvMountVolume exportPath mountpoint err =>
      api.MountVolume _ API exportPath mountpoint w = (err, w')
  | api.EvUnmountVolume mountpoint err =>
      api.UnmountVolume _ API mountpoint w = (err, w')
  | api.EvSleep seconds =>
      api.Sleep _ API seconds w = w'
  | api.EvRandomString n str =>
      api.RandomString _ API n w = (str, w')
  | api.EvRandIntn n k =>
      api.RandIntn _ API n w = (k, w')
  end.

(** [genuine API w tr w']: the calls of [tr], made one after the other from
    the world [w], are each answered by the environment as the trace says,
    and leave the world [w']. *)
Fixpoint genuine {W} (API : api.Client W) (w : W) (tr : list api.Event) (w' : W) : Prop :=
  match tr with
  | [] => w = w'
  | ev :: rest => exists w1, answers API ev w w1 /\ genuine API w1 rest w'
  end.

(** A method whose trace is genuine: it records every call it makes, with
    the answer it got, and makes no other. *)
Definition faithful {W A} (API : api.Client W) (m : @M W A) : Prop :=
  forall s,
    match m s with
    | Ret _ s' | Stall s' =>
        exists tr, trace s' = trace s ++ tr /\ genuine API (world s) tr (world s')
    | Panic => True
    end.

(** *** What a run leaves alone *)

(** A method that only appends to the trace and leaves the Quota Resize Set
    as it found it. *)
Definition keeps_resize_set {W A} (m : @M W A) : Prop :=
  forall s,
    match m s with
    | Ret _ s' | Stall s' =>
        quotaResizeMap s' = quotaResizeMap s /\ exists tr, trace s' = trace s ++ tr
    | Panic => True
    end.

(** A method that only appends to the trace and takes no flag out of the
    Quota Resize Set. *)
Definition grows_resize_set {W A} (m : @M W A) : Prop :=
  forall s,
    match m s with
    | Ret _ s' | Stall s' =>
        (forall flexvol, quotaResizeMap s !! flexvol = Some true ->
                         quotaResizeMap s' !! flexvol = Some true) /\
        exists tr, trace s' = trace s ++ tr
    | Panic => True
    end.

(** The calls of a trace that change something on the appliance. *)
Definition mutating (ev : api.Event) : bool :=
  match ev with
  | api.EvVolumeCreate _ _ _ _ _ _ _ _ _ _ _
  | api.EvVolumeDisableSnapshotDirectoryAccess _ _ _
  | api.EvVolumeMount _ _ _ _
  | api.EvUpdateLoadSharingMirrors
  | api.EvVolumeDestroy _ _ _ _
  | api.EvSetVolumeSize _ _ _ _
  | api.EvQtreeCreate _ _ _ _ _ _ _
  | api.EvQtreeRename _ _ _ _
  | api.EvQtreeDestroyAsync _ _ _ _
  | api.EvQuotaSetEntry _ _ _ _ _ _ _
  | api.EvQuotaOn _ _ _
  | api.EvQuotaOff _ _ _
  | api.EvQuotaResize _ _ _
  | api.EvMountVolume _ _ _
  | api.EvUnmountVolume _ _ => true
  | _ => false
  end.

(** The calls of the quota steps: the quota operations and the clock. *)
Definition quota_call (ev : api.Event) : bool :=
  match ev with
  | api.EvQuotaSetEntry _ _ _ _ _ _ _
  | api.EvQuotaStatus _ _ _
  | api.EvQuotaOn _ _ _
  | api.EvQuotaOff _ _ _
  | api.EvSleep _ => true
  | _ => false
  end.

(** The calls of the pool selector, and those of the Flexvol factory. *)
Definition selection_call (ev : api.Event) : bool :=
  match ev with
  | api.EvVolumeListByAttrs _ _ _ _ _ _ _ _
  | api.EvQtreeCount _ _ _
  | api.EvRandIntn _ _ => true
  | _ => false
  end.

Definition factory_call (ev : api.Event) : bool :=
  match ev with
  | api.EvRandomString _ _
  | api.EvVolumeCreate _ _ _ _ _ _ _ _ _ _ _
  | api.EvVolumeDisableSnapshotDirectoryAccess _ _ _
  | api.EvVolumeMount _ _ _ _
  | api.EvUpdateLoadSharingMirrors
  | api.EvVolumeDestroy _ _ _ _ => true
  | _ => quota_call ev
  end.

(** A method whose calls all satisfy [P]; it only appends to the trace. *)
Definition emits {W A} (P : api.Event -> bool) (m : @M W A) : Prop :=
  forall s,
    match m s with
    | Ret _ s' | Stall s' => exists tr, trace s' = trace s ++ tr /\ forallb P tr = true
    | Panic => True
    end.

(** The Flexvols a trace destroys, and the qtree paths it asks to destroy. *)
Fixpoint destroyedFlexvols (tr : list api.Event) : list (string * bool) :=
  match tr with
  | [] => []
  | api.EvVolumeDestroy name force _ _ :: rest => (name, force) :: destroyedFlexvols rest
  | _ :: rest => destroyedFlexvols rest
  end.

Fixpoint destroyedQtrees (tr : list api.Event) : list (string * bool) :=
  match tr with
  | [] => []
  | api.EvQtreeDestroyAsync path force _ _ :: rest => (path, force) :: destroyedQtrees rest
  | _ :: rest => destroyedQtrees rest
  end.

(** The calls that count the qtrees of a Flexvol. *)
Definition count_call (ev : api.Event) : bool :=
  match ev with
  | api.EvQtreeCount _ _ _ => true
  | _ => false
  end.

(** The Flexvols a trace counts the qtrees of, and those of them it finds
    empty. *)
Fixpoint countedFlexvols (tr : list api.Event) : list string :=
  match tr with
  | [] => []
  | api.EvQtreeCount volume _ _ :: rest => volume :: countedFlexvols rest
  | _ :: rest => countedFlexvols rest
  end.

Fixpoint emptyFlexvols (tr : list api.Event) : list string :=
  match tr with
  | [] => []
  | api.EvQtreeCount volume count None :: rest =>
      if count =? 0 then volume :: emptyFlexvols rest else emptyFlexvols rest
  | _ :: rest => emptyFlexvols rest
  end.

(** The Flexvols a trace asks to resize. *)
Fixpoint resizedFlexvols (tr : list api.Event) : list string :=
  match tr with
  | [] => []
  | api.EvQuotaResize flexvol _ _ :: rest => flexvol :: resizedFlexvols rest
  | _ :: rest => resizedFlexvols rest
  end.

(** ** The command [tridentctl delete storageclass] *)

Module cli.

(** What the command reaches out to: the base URL, the list of storage
    classes, the REST call (answering a status code and a status line) and
    the tunnel. *)
Record Env (W : Type) := {
  GetBaseURL : W -> (string * error) * W;
  GetStorageClasses : string -> W -> (list string * error) * W;
  InvokeRESTAPI : string -> string -> W -> ((Z * string) * error) * W;
  TunnelCommand : list string -> W -> W
}.

(** The REST calls and tunnelled commands made so far. *)
Inductive Call :=
| Rest (method url : string)
| Tunnel (command : list string).

Definition StatusOK : Z := 200.

Section Command.
Context {W : Type}.
Variable env : Env W.
(** The flag [--all]. *)
Variable AllStorageClasses : bool.

(** The loop of [storageClassDelete]. *)
Fixpoint storageClassDelete_range (baseURL : string) (storageClassNames : list string)
    (w : W) (calls : list Call) : error * W * list Call :=
  match storageClassNames with
  | [] => (None, w, calls)
  | storageClassName :: rest =>
      let url := baseURL +:+ "/storageclass/" +:+ storageClassName in
      let '(response, err, w') := InvokeRESTAPI _ env "DELETE" url w in
      let calls' := calls ++ [Rest "DELETE" url] in
      match err with
      | Some e => (Some e, w', calls')
      | None =>
          if negb (response.1 =? StatusOK) then
            (Some ("could not delete storage class " +:+ storageClassName +:+ ". " +:+
                   response.2), w', calls')
          else storageClassDelete_range baseURL rest w' calls'
      end
  end.

(** The answers of the server to the deletion of each name of a list, asked
    one after the other, and the answers that end the loop: a transport
    error, or a status other than 200. *)
Fixpoint DELETE_answers (baseURL : string) (storageClassNames : list string) (w : W)
    : list ((Z * string) * error) :=
  match storageClassNames with
  | [] => []
  | storageClassName :: rest =>
      let url := baseURL +:+ "/storageclass/" +:+ storageClassName in
      let '(response, err, w') := InvokeRESTAPI _ env "DELETE" url w in
      (response, err) :: DELETE_answers baseURL rest w'
  end.

Definition refused (answer : (Z * string) * error) : bool :=
  match answer.2 with
  | Some _ => true
  | None => negb (answer.1.1 =? StatusOK)
  end.

Definition storageClassDelete (storageClassNames : list string) (w : W)
    (calls : list Call) : error * W * list Call :=
  let '(baseURL, err, w1) := GetBaseURL _ env w in
  match err with
  | Some e => (Some e, w1, calls)
  | None =>
      if AllStorageClasses then
        if (0 <? Z.of_nat (length storageClassNames)) then
          (Some "cannot use --all switch and specify individual storage classes", w1, calls)
        else
          let '(storageClassNames, err, w2) := GetStorageClasses _ env baseURL w1 in
          match err with
          | Some e => (Some e, w2, calls)
          | None => storageClassDelete_range baseURL storageClassNames w2 calls
          end
      else
        if (Z.of_nat (length storageClassNames) =? 0) then
          (Some "storage class name not specified", w1, calls)
        else storageClassDelete_range baseURL storageClassNames w1 calls
  end.

(** The [RunE] of [deleteStorageClassCmd]; [tunnel] is
    [OperatingMode == ModeTunnel]. *)
Definition deleteStorageClassCmd_RunE (tunnel : bool) (args : list string) (w : W)
    (calls : list Call) : error * W * list Call :=
  if tunnel then
    let command := ["delete"; "storageclass"] in
    let command := if AllStorageClasses then command ++ ["--all"] else command in
    (None, TunnelCommand _ env (command ++ args) w, calls ++ [Tunnel (command ++ args)])
  else storageClassDelete args w calls.

End Command.

End cli.

(** ** Scenarios for the housekeeping paths and the command *)

Module Scenarios.
Import azgo api.

(** The listing of the scripted appliance: all its Flexvols. *)
Definition lister (a : Scripted.Appliance) : housekeeping.Client (list string) := {|
  housekeeping.VolumeList _ w := (Scripted.ok (Scripted.volumes a), w)
|}.

(** An appliance with an empty Flexvol, a used one, and one that cannot be
    counted; it holds a live qtree and one left behind by a deletion. *)
Definition pool_empty : string := "trident_qtree_pool_trident_empty".
Definition pool_used : string := "trident_qtree_pool_trident_used".
Definition pool_unknown : string := "trident_qtree_pool_trident_unknown".

Definition leftovers : Scripted.Appliance := {|
  Scripted.volumes := [Scripted.flexvol pool_empty; Scripted.flexvol pool_used;
                       Scripted.flexvol pool_unknown];
  Scripted.qtreeCount volume :=
    if String.eqb volume pool_empty then (0, None)
    else if String.eqb volume pool_used then (2, None)
    else (0, Some "connection reset");
  Scripted.qtrees := [Scripted.qtree pool_used "trident_a";
                      Scripted.qtree pool_used "deleted_trident_b_xxxxx"];
  Scripted.lookupError := None;
  Scripted.quotaSetEntry := Scripted.ok tt;
  Scripted.quotaResize _ := Scripted.ok tt;
  Scripted.unmount := None
|}.

(** The scripted appliance, answering [QuotaEntryList] with [rules]. *)
Definition withQuotaRules (a : Scripted.Appliance) (rules : list QuotaEntryType)
  : Client (list string) := {|
  QtreeExists := QtreeExists _ (Scripted.client a);
  VolumeListByAttrs := VolumeListByAttrs _ (Scripted.client a);
  QtreeCount := QtreeCount _ (Scripted.client a);
  VolumeCreate := VolumeCreate _ (Scripted.client a);
  VolumeDisableSnapshotDirectoryAccess :=
    VolumeDisableSnapshotDirectoryAccess _ (Scripted.client a);
  VolumeMount := VolumeMount _ (Scripted.client a);
  VolumeDestroy := VolumeDestroy _ (Scripted.client a);
  VolumeGet := VolumeGet _ (Scripted.client a);
  SetVolumeSize := SetVolumeSize _ (Scripted.client a);
  QtreeCreate := QtreeCreate _ (Scripted.client a);
  QtreeRename := QtreeRename _ (Scripted.client a);
  QtreeDestroyAsync := QtreeDestroyAsync _ (Scripted.client a);
  QtreeList := QtreeList _ (Scripted.client a);
  QuotaSetEntry := QuotaSetEntry _ (Scripted.client a);
  QuotaStatus := QuotaStatus _ (Scripted.client a);
  QuotaOn := QuotaOn _ (Scripted.client a);
  QuotaOff := QuotaOff _ (Scripted.client a);
  QuotaResize := QuotaResize _ (Scripted.client a);
  QuotaEntryList _ w := (Scripted.ok rules, w);
  ValidateEncryptionAttribute := ValidateEncryptionAttribute _ (Scripted.client a);
  UpdateLoadSharingMirrors := UpdateLoadSharingMirrors _ (Scripted.client a);
  MountVolume := MountVolume _ (Scripted.client a);
  UnmountVolume := UnmountVolume _ (Scripted.client a);
  Sleep := Sleep _ (Scripted.client a);
  RandomString := RandomString _ (Scripted.client a);
  RandIntn := RandIntn _ (Scripted.client a)
|}.

(** The quota rules of a Flexvol that holds volumes of 1 GiB and of
    1 GiB + 1 byte. *)
Definition twoVolumes : list QuotaEntryType :=
  [ {| QuotaTarget := ""; DiskLimit := "-" |};
    {| QuotaTarget := "/vol/" +:+ pool_used +:+ "/trident_a"; DiskLimit := "1048576" |};
    {| QuotaTarget := "/vol/" +:+ pool_used +:+ "/trident_b"; DiskLimit := "1048576" |} ].

Definition volConfig (internalName : string) : storage.VolumeConfig := {|
  storage.Version := "1";
  storage.Name := "a";
  storage.InternalName := internalName;
  storage.Size := "1073741824";
  storage.Protocol := trident.File;
  storage.SnapshotPolicy := "none";
  storage.ExportPolicy := "default";
  storage.SnapshotDir := "false";
  storage.UnixPermissions := "---rwxrwxrwx";
  storage.StorageClass := "gold";
  storage.AccessMode := trident.ReadWriteMany;
  storage.AccessInfo := {| storage.NfsServerIP := ""; storage.NfsPath := "" |};
  storage.BlockSize := "";
  storage.FileSystem := ""
|}.

(** A REST server on which deleting the classes named in [broken] fails
    with the status 404; its world counts the calls made. *)
Definition rest (classes broken : list string) : cli.Env nat := {|
  cli.GetBaseURL w := (("http://127.0.0.1:8000/trident/v1", None), w);
  cli.GetStorageClasses _ w := ((classes, None), w);
  cli.InvokeRESTAPI _ url w :=
    if existsb (fun name => String.eqb url
                  ("http://127.0.0.1:8000/trident/v1/storageclass/" +:+ name)) broken
    then (((404, "404 Not Found"), None), S w)
    else (((200, "200 OK"), None), S w);
  cli.TunnelCommand _ w := w
|}.

End Scenarios.

(** ** Properties *)

Lemma wrap_int64_small (z : Z) :
  Strconv.minInt64 <= z <= Strconv.maxInt64 -> Strconv.wrap_int64 z = z.
Proof.
  unfold Strconv.wrap_int64, Strconv.minInt64, Strconv.maxInt64, Strconv.uint64_modulus.
  intros Hz. rewrite Z.mod_small; lia.
Qed.

Lemma wrap_int64_range (z : Z) :
  Strconv.minInt64 <= Strconv.wrap_int64 z <= Strconv.maxInt64.
Proof.
  unfold Strconv.wrap_int64, Strconv.minInt64, Strconv.maxInt64, Strconv.uint64_modulus.
  pose proof (Z.mod_pos_bound (z + 2 ^ 63) (2 ^ 64) ltac:(lia)). lia.
Qed.

Section Properties.
Import azgo api.

Context {W : Type}.
Variable API : Client W.
Variable ext : Externals.
Variable d : NASQtreeStorageDriver.

(** *** Traces *)

Lemma events_since_app (s s' : @State W) (tr : list Event) :
  trace s' = trace s ++ tr -> events_since s s' = tr.
Proof. unfold events_since. intros ->. apply drop_app_length. Qed.

Lemma events_since_mk (s : @State W) w m (tr : list Event) :
  events_since s {| world := w; quotaResizeMap := m; trace := trace s ++ tr |} = tr.
Proof. by apply events_since_app. Qed.

(** *** Pool selector *)

Lemma candidates_app (tr1 tr2 : list Event) :
  candidates (tr1 ++ tr2) = candidates tr1 ++ candidates tr2.
Proof.
  induction tr1 as [|ev tr1 IH]; [reflexivity|].
  destruct ev; simpl; try exact IH.
  destruct err; [exact IH|].
  destruct (count <? maxQtreesPerFlexvol); simpl; by rewrite IH.
Qed.

Lemma candidates_under_cap (tr : list Event) (v : string) :
  v ∈ candidates tr ->
  exists count, EvQtreeCount v count None ∈ tr /\ count < maxQtreesPerFlexvol.
Proof.
  induction tr as [|ev tr IH]; simpl; intros Hin.
  { by apply elem_of_nil in Hin. }
  assert (Hrest : v ∈ candidates tr ->
            exists count, EvQtreeCount v count None ∈ ev :: tr /\
                          count < maxQtreesPerFlexvol).
  { intros H. destruct (IH H) as (c & Hc & Hlt). exists c. split; [|done].
    by apply list_elem_of_further. }
  destruct ev; auto.
  destruct err; auto.
  destruct (count <? maxQtreesPerFlexvol) eqn:Hcap; auto.
  apply elem_of_cons in Hin as [->|Hin]; auto.
  exists count. split; [apply list_elem_of_here|]. by apply Z.ltb_lt.
Qed.

Lemma getFlexvolForQtree_filter_spec (attrs : list VolumeAttributesType) :
  forall (volumes : list string) (s : @State W),
  exists res e s' tr,
    getFlexvolForQtree_filter API attrs volumes s = Ret (res, e) s' /\
    trace s' = trace s ++ tr /\
    match e with
    | None => res = volumes ++ candidates tr /\ enumeration_ok tr = true
    | Some _ => enumeration_ok tr = false
    end.
Proof.
  induction attrs as [|volAttrs rest IH]; intros volumes s; simpl.
  { exists volumes, None, s, []. by rewrite !app_nil_r. }
  unfold bind, API_QtreeCount, rpc.
  destruct (QtreeCount _ API (Name volAttrs) (world s)) as [[count err] w1]; simpl.
  destruct err as [e|].
  { eexists _, _, _, [_]. split; [reflexivity|]. split; [reflexivity|]. reflexivity. }
  match goal with |- context [getFlexvolForQtree_filter API rest ?v ?s1] =>
    destruct (IH v s1) as (res & e & s' & tr & -> & Htr & Hres) end.
  simpl in Htr.
  exists res, e, s', (EvQtreeCount (Name volAttrs) count None :: tr).
  split; [reflexivity|]. split; [by rewrite Htr, <- app_assoc|].
  destruct e as [e|]; simpl; [exact Hres|].
  destruct Hres as [-> Hok]. split; [|exact Hok].
  destruct (count <? maxQtreesPerFlexvol); [by rewrite <- app_assoc|reflexivity].
Qed.

(** *** Strings *)

Lemma length_app_string (a b : string) :
  String.length (a +:+ b) = (String.length a + String.length b)%nat.
Proof. induction a as [|c a IH]; simpl; [reflexivity|by rewrite IH]. Qed.

Lemma len_app (a b : string) : len (a +:+ b) = len a + len b.
Proof. unfold len. rewrite length_app_string. apply Nat2Z.inj_add. Qed.

Lemma len_nonneg (a : string) : 0 <= len a.
Proof. unfold len. lia. Qed.

Lemma string_drop_length (k : nat) (s : string) :
  (k <= String.length s)%nat ->
  String.length (string_drop k s) = (String.length s - k)%nat.
Proof.
  revert s. induction k as [|k IH]; intros s Hk.
  { unfold string_drop. lia. }
  destruct s as [|c s]; simpl in *; [lia|].
  change (string_drop (S k) (String c s)) with (string_drop k s). apply IH. lia.
Qed.

Lemma slice_from_Some (s : string) (k : nat) :
  (k <= String.length s)%nat -> slice_from s k = Some (string_drop k s).
Proof.
  intros Hk. unfold slice_from.
  by destruct (Nat.leb_spec k (String.length s)); [|lia].
Qed.

Lemma prefix_app (p t : string) : HasPrefix (p +:+ t) p = true.
Proof.
  unfold HasPrefix. induction p as [|c p IH]; simpl; [by destruct t|].
  by destruct (ascii_dec c c).
Qed.

Lemma prefix_split (p s : string) :
  HasPrefix s p = true -> s = p +:+ string_drop (String.length p) s.
Proof.
  unfold HasPrefix. revert s. induction p as [|c p IH]; intros s.
  { reflexivity. }
  destruct s as [|c' s]; simpl; [discriminate|].
  destruct (ascii_dec c c') as [->|]; [|discriminate].
  intros H. change (String c' s = String c' (p +:+ string_drop (String.length p) s)). f_equal. by apply IH.
Qed.

Lemma prefix_comparable (p q s : string) :
  HasPrefix s p = true -> HasPrefix s q = true ->
  HasPrefix q p = true \/ HasPrefix p q = true.
Proof.
  unfold HasPrefix. revert q s. induction p as [|c p IH]; intros q s.
  { intros _ _. left. by destruct q. }
  destruct s as [|c' s]; simpl; [discriminate|].
  destruct (ascii_dec c c') as [->|]; [|discriminate].
  intros Hp. destruct q as [|c'' q]; simpl.
  { intros _. by right. }
  destruct (ascii_dec c'' c') as [->|]; [|discriminate].
  intros Hq. destruct (ascii_dec c' c'); [|done]. eauto.
Qed.

(** *** Provisioner *)

(** C9.  [Detach] returns exactly what [UnmountVolume] returns, whatever the
    qtree lookup answered: a qtree found, a qtree absent, or a lookup that
    itself failed with a transport error.  The unmount is always attempted,
    right after the lookup. *)
Theorem Detach_returns_unmount_result (name mountpoint : string) (s : State) :
  let '(found, flexvol, lookupErr, w1) :=
    QtreeExists _ API name (FlexvolNamePrefix d) (world s) in
  let '(unmountErr, w2) := UnmountVolume _ API mountpoint w1 in
  Detach API d name mountpoint s =
    Ret unmountErr
        {| world := w2;
           quotaResizeMap := quotaResizeMap s;
           trace := trace s ++ [EvQtreeExists name (FlexvolNamePrefix d) found flexvol lookupErr;
                                EvUnmountVolume mountpoint unmountErr] |}.
Proof.
  unfold Detach, bind, API_QtreeExists, call_UnmountVolume, rpc.
  destruct (QtreeExists _ API name (FlexvolNamePrefix d) (world s))
    as [[[found flexvol] lookupErr] w1]; simpl.
  destruct (UnmountVolume _ API mountpoint w1) as [unmountErr w2]; simpl.
  by rewrite <- app_assoc.
Qed.

(** What [getFlexvolForQtree] returns, in terms of the Flexvols its own
    trace shows under the cap: a Flexvol it returns was counted, and its
    count was below [maxQtreesPerFlexvol]; it returns no error exactly when
    every call of the enumeration succeeded. *)
Lemma getFlexvolForQtree_candidates (aggregate spaceReserve snapshotPolicy : string)
    (enableSnapshotDir : bool) (encrypt : option bool) (s : State) :
  match getFlexvolForQtree API d aggregate spaceReserve snapshotPolicy
          enableSnapshotDir encrypt s with
  | Ret (flexvol, err) s' =>
      let tr := events_since s s' in
      (err = None ->
         (flexvol <> "" ->
          exists count, EvQtreeCount flexvol count None ∈ tr /\
                        count < maxQtreesPerFlexvol) /\
         (candidates tr = [] -> flexvol = "") /\
         (forall v, candidates tr = [v] -> flexvol = v) /\
         (candidates tr <> [] -> flexvol ∈ candidates tr)) /\
      (err = None <-> enumeration_ok tr = true)
  | Panic => ~ RandIntn_contract API
  | Stall _ => False
  end.
Proof.
  unfold getFlexvolForQtree, bind, API_VolumeListByAttrs, rpc.
  destruct (VolumeListByAttrs _ API _ _ _ _ _ _ (world s)) as [[r err] w1]; simpl.
  destruct (GetError r err) as [e|] eqn:Hlist; simpl.
  { rewrite events_since_mk. simpl. rewrite Hlist.
    split; [discriminate|]. split; discriminate. }
  match goal with |- context [getFlexvolForQtree_filter API ?a ?v ?s1] =>
    destruct (getFlexvolForQtree_filter_spec a v s1)
      as (res & e & s2 & tr & -> & Htr & Hres) end.
  simpl in Htr. rewrite <- app_assoc in Htr.
  destruct e as [e|].
  { simpl. rewrite (events_since_app _ _ _ Htr). simpl. rewrite Hlist, Hres.
    split; [discriminate|]. split; discriminate. }
  destruct Hres as [Hres Hok]. simpl in Hres.
  assert (Hcap : forall tr' v, v ∈ candidates tr ->
            exists count, EvQtreeCount v count None ∈
                            (EvVolumeListByAttrs (FlexvolNamePrefix d) aggregate spaceReserve
                               snapshotPolicy enableSnapshotDir encrypt r err :: tr) ++ tr' /\
                          count < maxQtreesPerFlexvol).
  { intros tr' v Hv. destruct (candidates_under_cap _ _ Hv) as (c & Hc & Hlt).
    exists c. split; [|done]. apply elem_of_app. left. by apply list_elem_of_further. }
  destruct res as [|v1 [|v2 res']].
  - simpl. rewrite (events_since_app _ _ _ Htr). simpl. rewrite Hlist, Hok, <- Hres.
    split; [|done]. intros _. done.
  - simpl. rewrite (events_since_app _ _ _ Htr). simpl. rewrite Hlist, Hok, <- Hres.
    split; [|done]. intros _. split; [|split; [|split]].
    + intros _. specialize (Hcap [] v1). rewrite app_nil_r in Hcap. apply Hcap.
      rewrite <- Hres. apply list_elem_of_here.
    + discriminate.
    + by intros v [= ->].
    + intros _. apply list_elem_of_here.
  - unfold rand_Intn, rpc.
    set (volumes := v1 :: v2 :: res') in *.
    set (n := Z.of_nat (length volumes)).
    assert (Hn : 0 < n) by (unfold n, volumes; simpl; lia).
    destruct (RandIntn _ API n (world s2)) as [k w3] eqn:Hk.
    assert (Hcontract : RandIntn_contract API -> 0 <= k < n).
    { intros Hc. specialize (Hc n (world s2) Hn). by rewrite Hk in Hc. }
    destruct (k <? 0) eqn:Hneg.
    { intros Hc. apply Hcontract in Hc. apply Z.ltb_lt in Hneg. lia. }
    destruct (volumes !! Z.to_nat k) as [volume|] eqn:Hpick.
    2:{ intros Hc. apply Hcontract in Hc. apply lookup_ge_None in Hpick.
        unfold n in Hc. lia. }
    assert (Hin : volume ∈ candidates tr).
    { rewrite <- Hres. apply list_elem_of_lookup. eauto. }
    unfold ret. erewrite events_since_app by (simpl; rewrite Htr, <- app_assoc; reflexivity).
    rewrite !candidates_app. simpl. rewrite app_nil_r.
    unfold enumeration_ok in *. rewrite forallb_app. simpl. rewrite Hlist, Hok.
    split; [|done]. intros _. split; [|split; [|split]].
    + intros _. by apply Hcap.
    + rewrite <- Hres. discriminate.
    + rewrite <- Hres. discriminate.
    + done.
Qed.
Lemma deletedQtreeName_spec (name : string) (s : @State W) :
  RandomString_contract API ->
  len name <= maxQtreeNameLength ->
  exists suffix s' tr,
    let original :=
      if maxQtreeNameLength <? len (deletedQtreeNamePrefix +:+ name +:+ "_") + 5
      then string_drop (String.length deletedQtreeNamePrefix + 10) name
      else name in
    deletedQtreeName API name s =
      Ret (deletedQtreeNamePrefix +:+ original +:+ "_" +:+ suffix) s' /\
    trace s' = trace s ++ tr /\
    last tr = Some (EvRandomString 5 suffix) /\
    Forall (fun ev => exists n r, ev = EvRandomString n r) tr /\
    len suffix = 5 /\
    all_alphanumeric suffix = true /\
    len (deletedQtreeNamePrefix +:+ original +:+ "_" +:+ suffix) <= maxQtreeNameLength.
Proof.
  intros Hrand Hlen.
  unfold deletedQtreeName, bind, utils_RandomString, rpc.
  destruct (RandomString _ API 5 (world s)) as [suffix1 w1] eqn:H1; simpl.
  pose proof (Hrand 5 (world s) ltac:(lia)) as [Hlen1 Halpha1]. rewrite H1 in *. simpl in *.
  rewrite !len_app, Hlen1.
  change (len deletedQtreeNamePrefix) with 8. change (len "_") with 1.
  unfold maxQtreeNameLength in *.
  destruct (64 <? 8 + (len name + (1 + 5))) eqn:Hlong.
  - apply Z.ltb_lt in Hlong.
    assert (Hk : (String.length deletedQtreeNamePrefix + 10 <= String.length name)%nat).
    { unfold len in Hlong. simpl. lia. }
    simpl in Hk. rewrite (slice_from_Some _ _ Hk). unfold bind, rpc. simpl.
    destruct (RandomString _ API 5 w1) as [suffix2 w2] eqn:H2; simpl.
    pose proof (Hrand 5 w1 ltac:(lia)) as [Hlen2 Halpha2]. rewrite H2 in *. simpl in *.
    exists suffix2. eexists. exists [EvRandomString 5 suffix1; EvRandomString 5 suffix2].
    replace (64 <? 8 + (len name + 1) + 5) with true by (symmetry; apply Z.ltb_lt; lia).
    split; [reflexivity|]. split; [by rewrite <- app_assoc|]. split; [reflexivity|].
    split; [repeat constructor; eauto|]. split; [done|]. split; [done|].
    rewrite !len_app, Hlen2. change (len deletedQtreeNamePrefix) with 8.
    change (len "_") with 1.
    unfold len in *. rewrite string_drop_length by exact Hk. simpl. lia.
  - apply Z.ltb_ge in Hlong.
    exists suffix1. eexists. exists [EvRandomString 5 suffix1].
    replace (64 <? 8 + (len name + 1) + 5) with false by (symmetry; apply Z.ltb_ge; lia).
    split; [reflexivity|]. split; [reflexivity|]. split; [reflexivity|].
    split; [repeat constructor; eauto|]. split; [done|]. split; [done|].
    rewrite !len_app, Hlen1. change (len deletedQtreeNamePrefix) with 8.
    change (len "_") with 1. lia.
Qed.

Lemma contains_slash_app (a b : string) :
  contains_slash (a +:+ b) = contains_slash a || contains_slash b.
Proof.
  induction a as [|c a IH]; [reflexivity|].
  change (String c a +:+ b) with (String c (a +:+ b)). simpl.
  by rewrite IH, orb_assoc.
Qed.

Lemma contains_slash_drop (k : nat) (s : string) :
  contains_slash s = false -> contains_slash (string_drop k s) = false.
Proof.
  revert s. induction k as [|k IH]; intros s Hs; [exact Hs|].
  destruct s as [|c s]; [reflexivity|].
  change (string_drop (S k) (String c s)) with (string_drop k s).
  simpl in Hs. apply orb_false_iff in Hs as [_ Hs]. by apply IH.
Qed.

Lemma alphanumeric_no_slash (s : string) :
  all_alphanumeric s = true -> contains_slash s = false.
Proof.
  induction s as [|c s IH]; simpl; [reflexivity|].
  intros [Hc Hs]%andb_true_iff. rewrite (IH Hs), orb_false_r.
  destruct (Ascii.eqb_spec c "/") as [->|]; [discriminate|reflexivity].
Qed.

Lemma last_component_app (dir base : string) :
  contains_slash base = false ->
  last_component (dir +:+ "/" +:+ base) = base.
Proof.
  intros Hbase. induction dir as [|c dir IH].
  { change ("" +:+ "/" +:+ base) with (String "/" base). simpl. by rewrite Hbase. }
  change (String c dir +:+ "/" +:+ base) with (String c (dir +:+ "/" +:+ base)).
  simpl. rewrite contains_slash_app.
  change ("/" +:+ base) with (String "/" base). simpl.
  rewrite orb_true_r. exact IH.
Qed.

(** C5.  When [Destroy(name)], with [len(name) <= 64], finds the qtree and
    so reaches the rename step, the first rename it issues moves
    [/vol/F/name] to [/vol/F/deletedName], where [deletedName] is
    ["deleted_"], then the original name, then ["_"] and the five random
    alphanumerics drawn last; [deletedName] is at most 64 bytes long and,
    [name] holding no ["/"], is the last component of the target path; and
    when ["deleted_" + name +
    "_"] and five more bytes would exceed 64 bytes, the original name goes
    in without its first [len("deleted_") + 10 = 18] bytes. *)
Theorem Destroy_rename_target (name flexvol : string) (s : State) (w1 : W) :
  RandomString_contract API ->
  len name <= maxQtreeNameLength ->
  QtreeExists _ API name (FlexvolNamePrefix d) (world s) = (true, flexvol, None, w1) ->
  exists suffix result s' pre post r err,
    let original :=
      if maxQtreeNameLength <? len (deletedQtreeNamePrefix +:+ name +:+ "_") + 5
      then string_drop (String.length deletedQtreeNamePrefix + 10) name
      else name in
    let deletedName := deletedQtreeNamePrefix +:+ original +:+ "_" +:+ suffix in
    let target := "/vol/" +:+ flexvol +:+ "/" +:+ deletedName in
    Destroy API d name s = Ret result s' /\
    events_since s s' =
      pre ++ EvQtreeRename ("/vol/" +:+ flexvol +:+ "/" +:+ name) target r err :: post /\
    Forall (fun ev => forall path newPath r' err',
              ev <> EvQtreeRename path newPath r' err') pre /\
    last pre = Some (EvRandomString 5 suffix) /\
    len suffix = 5 /\
    all_alphanumeric suffix = true /\
    HasPrefix deletedName deletedQtreeNamePrefix = true /\
    len deletedName <= maxQtreeNameLength /\
    (contains_slash name = false -> last_component target = deletedName).
Proof.
  intros Hrand Hlen Hexists.
  unfold Destroy, bind, API_QtreeExists, rpc. rewrite Hexists. simpl.
  match goal with |- context [deletedQtreeName API name ?s1] =>
    destruct (deletedQtreeName_spec name s1 Hrand Hlen)
      as (suffix & s2 & tr & Hname & Htr & Hlast & Honly & Hsuffix & Halpha & Hshort) end.
  rewrite Hname. simpl in Htr.
  unfold API_QtreeRename, API_QtreeDestroyAsync, rpc.
  set (original := if maxQtreeNameLength <? len (deletedQtreeNamePrefix +:+ name +:+ "_") + 5
                   then string_drop (String.length deletedQtreeNamePrefix + 10) name
                   else name) in *.
  set (deletedName := deletedQtreeNamePrefix +:+ original +:+ "_" +:+ suffix) in *.
  set (path := "/vol/" +:+ flexvol +:+ "/" +:+ name).
  set (target := "/vol/" +:+ flexvol +:+ "/" +:+ deletedName).
  destruct (QtreeRename _ API path target (world s2)) as [[r err] w3] eqn:Hrename.
  set (pre := EvQtreeExists name (FlexvolNamePrefix d) true flexvol None :: tr).
  assert (Hpre : Forall (fun ev => forall path newPath r' err',
                           ev <> EvQtreeRename path newPath r' err') pre).
  { constructor; [discriminate|].
    eapply Forall_impl; [exact Honly|]. by intros ev (n & rs & ->). }
  assert (Hlastpre : last pre = Some (EvRandomString 5 suffix)).
  { unfold pre. destruct tr; [discriminate|]. exact Hlast. }
  assert (Hcomponent : contains_slash name = false -> last_component target = deletedName).
  { intros Hname'. unfold target.
    change ("/vol/" +:+ flexvol +:+ "/" +:+ deletedName)
      with (("/vol/" +:+ flexvol) +:+ "/" +:+ deletedName).
    apply last_component_app. unfold deletedName.
    rewrite !contains_slash_app, (alphanumeric_no_slash _ Halpha). simpl.
    rewrite orb_false_r. unfold original.
    destruct (_ <? _); [by apply contains_slash_drop|done]. }
  assert (Hprefix : HasPrefix deletedName deletedQtreeNamePrefix = true)
    by apply prefix_app.
  assert (Hevents : forall w m post,
            events_since s {| world := w; quotaResizeMap := m;
                              trace := trace s2 ++ EvQtreeRename path target r err :: post |}
            = pre ++ EvQtreeRename path target r err :: post).
  { intros w m post. apply events_since_app. simpl. rewrite Htr. unfold pre.
    by rewrite <- !app_assoc. }
  simpl. destruct (GetError r err) as [e|].
  { exists suffix, deleteError. eexists. exists pre, [], r, err.
    split; [reflexivity|]. split; [|done]. apply Hevents. }
  simpl.
  destruct (QtreeDestroyAsync _ API target true w3) as [[r' err'] w4]; simpl.
  destruct (GetError r' err') as [e|]; simpl.
  - destruct (QtreeRename _ API target path w4) as [[r'' err''] w5]; simpl.
    exists suffix, deleteError. eexists. exists pre. eexists. exists r, err.
    split; [reflexivity|]. split; [|done].
    rewrite <- !app_assoc. simpl. apply Hevents.
  - exists suffix, None. eexists. exists pre. eexists. exists r, err.
    split; [reflexivity|]. split; [|done].
    rewrite <- !app_assoc. simpl. apply Hevents.
Qed.
(** *** Listing *)

Lemma List_strip_spec (prefix : string) (qtrees : list QtreeInfoType) :
  Forall (fun q => HasPrefix (Qtree q) prefix = true) qtrees ->
  forall volumes, exists stripped,
    List_strip prefix qtrees volumes = Some (volumes ++ stripped) /\
    Forall2 (fun vol q => Qtree q = prefix +:+ vol) stripped qtrees.
Proof.
  induction 1 as [|q qtrees Hq _ IH]; intros volumes; simpl.
  { exists []. by rewrite app_nil_r. }
  pose proof (prefix_split _ _ Hq) as Hsplit.
  assert (Hlen : (String.length prefix <= String.length (Qtree q))%nat).
  { apply (f_equal String.length) in Hsplit.
    rewrite length_app_string in Hsplit. lia. }
  rewrite (slice_from_Some _ _ Hlen).
  destruct (IH (volumes ++ [string_drop (String.length prefix) (Qtree q)]))
    as (stripped & -> & Hall).
  exists (string_drop (String.length prefix) (Qtree q) :: stripped).
  split; [by rewrite <- app_assoc|]. by constructor.
Qed.

(** C6, as amended.  Provided [QtreeList] answers with qtrees whose names
    begin with the prefix asked for, [List] returns, for each listed qtree
    and in order, its name with the storage prefix stripped.  When neither
    the storage prefix nor ["deleted_"] is a prefix of the other, no listed
    qtree has a name that begins with ["deleted_"]: a qtree renamed for
    deletion is not part of the result. *)
Theorem List_names (s : State) :
  QtreeList_contract API ->
  exists volumes err s' r rerr,
    List API d s = Ret (volumes, err) s' /\
    events_since s s' = [EvQtreeList (StoragePrefix d) (FlexvolNamePrefix d) r rerr] /\
    (err = None <-> GetError r rerr = None) /\
    (err = None ->
       Forall2 (fun vol q => Qtree q = StoragePrefix d +:+ vol) volumes (Attributes r) /\
       (HasPrefix deletedQtreeNamePrefix (StoragePrefix d) = false ->
        HasPrefix (StoragePrefix d) deletedQtreeNamePrefix = false ->
        Forall (fun q => HasPrefix (Qtree q) deletedQtreeNamePrefix = false)
               (Attributes r))).
Proof.
  intros Hcontract.
  assert (Hhidden : HasPrefix deletedQtreeNamePrefix (StoragePrefix d) = false ->
                    HasPrefix (StoragePrefix d) deletedQtreeNamePrefix = false ->
                    forall name, HasPrefix name (StoragePrefix d) = true ->
                                 HasPrefix name deletedQtreeNamePrefix = false).
  { intros Hnot1 Hnot2 name Hname.
    destruct (HasPrefix name deletedQtreeNamePrefix) eqn:Hdel; [|reflexivity].
    destruct (prefix_comparable _ _ _ Hname Hdel); congruence. }
  unfold List, bind, API_QtreeList, rpc.
  specialize (Hcontract (StoragePrefix d) (FlexvolNamePrefix d) (world s)).
  destruct (QtreeList _ API (StoragePrefix d) (FlexvolNamePrefix d) (world s))
    as [[r rerr] w1]; simpl.
  destruct (GetError r rerr) as [e|] eqn:Herr.
  { exists [], listError. eexists. exists r, rerr.
    split; [reflexivity|]. split; [by apply events_since_app|].
    rewrite Herr. split; [done|]. discriminate. }
  specialize (Hcontract eq_refl).
  destruct (List_strip_spec _ _ Hcontract []) as (volumes & -> & Hall).
  exists volumes, None. eexists. exists r, rerr.
  split; [reflexivity|]. split; [by apply events_since_app|].
  rewrite Herr. split; [done|]. intros _. split; [exact Hall|].
  intros Hnot1 Hnot2. eapply Forall_impl; [exact Hcontract|].
  intros q Hq. by apply Hhidden.
Qed.
(** *** Quota engine *)

(** The two polling loops have the same shape; one script proves both. *)
Ltac polling_loop wait_fn target fuel flexvol :=
  let IH := fresh "IH" in
  induction fuel as [|fuel IH]; intros status s; simpl;
  [ destruct (String.eqb_spec status target) as [->|Hne]; simpl;
    [ exists [], Reached; rewrite app_nil_r; repeat split; constructor
    | exists []; rewrite app_nil_r; repeat split; by constructor ]
  | destruct (String.eqb_spec status target) as [->|Hne]; simpl;
    [ exists [], Reached; rewrite app_nil_r; repeat split; constructor | ];
    unfold bind, time_Sleep, rpc_, getQuotaStatus, API_QuotaStatus, rpc, bind; simpl;
    destruct (QuotaStatus _ API flexvol (Sleep _ API 1 (world s))) as [[r err] w1]; simpl;
    destruct (GetError r err) as [e|] eqn:Herr; simpl;
    [ eexists [_; _], ReadFailed; rewrite <- app_assoc; split; [reflexivity|];
      split; [by econstructor|]; split; discriminate | ];
    destruct (String.eqb_spec (Attributes r) "corrupt") as [Hc|Hnc]; simpl;
    [ eexists [_; _], Corrupt; rewrite <- app_assoc; split; [reflexivity|];
      split; [by econstructor|]; split; discriminate | ];
    match goal with |- context [wait_fn API fuel flexvol ?st ?s1] =>
      specialize (IH st s1); destruct (wait_fn API fuel flexvol st s1) end;
    [ destruct IH as (tr & o & Htr & Hpoll & Hres); simpl in Htr;
      exists (EvSleep 1 :: EvQuotaStatus flexvol r err :: tr), o;
      split; [by rewrite Htr, <- !app_assoc|]; split; [by constructor|exact Hres]
    | exact IH
    | destruct IH as (tr & Htr & Hpoll & Hsleeps); simpl in Htr;
      exists (EvSleep 1 :: EvQuotaStatus flexvol r err :: tr);
      split; [by rewrite Htr, <- !app_assoc|]; split; [by constructor|];
      simpl; by rewrite Hsleeps ] ].

Lemma enableQuotas_wait_spec (fuel : nat) (flexvol : string) :
  forall (status : string) (s : @State W),
  match enableQuotas_wait API fuel flexvol status s with
  | Ret e s' =>
      exists tr o, trace s' = trace s ++ tr /\
                   Polling "on" flexvol status tr (Some o) /\
                   (e = None <-> o = Reached)
  | Stall s' =>
      exists tr, trace s' = trace s ++ tr /\
                 Polling "on" flexvol status tr None /\ sleeps tr = fuel
  | Panic => False
  end.
Proof. polling_loop (@enableQuotas_wait W) "on" fuel flexvol. Qed.

Lemma disableQuotas_wait_spec (fuel : nat) (flexvol : string) :
  forall (status : string) (s : @State W),
  match disableQuotas_wait API fuel flexvol status s with
  | Ret e s' =>
      exists tr o, trace s' = trace s ++ tr /\
                   Polling "off" flexvol status tr (Some o) /\
                   (e = None <-> o = Reached)
  | Stall s' =>
      exists tr, trace s' = trace s ++ tr /\
                 Polling "off" flexvol status tr None /\ sleeps tr = fuel
  | Panic => False
  end.
Proof. polling_loop (@disableQuotas_wait W) "off" fuel flexvol. Qed.

(** *** External representation *)

(** C10, as amended.  For a qtree whose name is at least as long as the
    storage prefix, [getVolumeExternal] reports the Size ["0"] whenever
    [strconv.ParseInt] rejects the quota entry's disk limit, as it does
    for the unlimited value ["-"]; otherwise the Size is the decimal text
    of the parsed limit times 1024 in [int64] arithmetic, which is the
    exact product whenever the limit lies in [[-2^53, 2^53)]. *)
Theorem getVolumeExternal_Size (qtreeAttrs : QtreeInfoType)
    (volumeAttrs : VolumeAttributesType) (quotaAttrs : QuotaEntryType) :
  (String.length (StoragePrefix d) <= String.length (Qtree qtreeAttrs))%nat ->
  exists external,
    getVolumeExternal ext d qtreeAttrs volumeAttrs quotaAttrs = Some external /\
    let Size := storage.Size (storage.Config external) in
    match Strconv.ParseInt (DiskLimit quotaAttrs) with
    | (_, Some _) => Size = "0"
    | (limit, None) =>
        Size = Strconv.FormatInt (Strconv.wrap_int64 (limit * 1024)) /\
        (- 2 ^ 53 <= limit < 2 ^ 53 -> Size = Strconv.FormatInt (limit * 1024))
    end /\
    (DiskLimit quotaAttrs = "-" -> Size = "0").
Proof.
  intros Hlen. unfold getVolumeExternal.
  rewrite (slice_from_Some _ _ Hlen). eexists. split; [reflexivity|]. simpl.
  split.
  - destruct (Strconv.ParseInt (DiskLimit quotaAttrs)) as [limit [e|]]; [reflexivity|].
    split; [reflexivity|]. intros Hsmall. rewrite wrap_int64_small; [reflexivity|].
    unfold Strconv.minInt64, Strconv.maxInt64. lia.
  - intros ->. reflexivity.
Qed.
(** *** What the dropped results cost *)

Lemma disableQuotas_no_panic (fuel : nat) (flexvol : string) (wait : bool) (s : @State W) :
  disableQuotas API fuel flexvol wait s <> Panic.
Proof.
  unfold disableQuotas, bind, getQuotaStatus, API_QuotaStatus, API_QuotaOff, rpc, bind.
  destruct (QuotaStatus _ API flexvol (world s)) as [[r0 err0] w1]; simpl.
  destruct (GetError r0 err0); simpl; [discriminate|].
  destruct (String.eqb (Attributes r0) "corrupt"); simpl; [discriminate|].
  destruct (String.eqb (Attributes r0) "off"); simpl.
  - destruct wait; [|discriminate].
    match goal with |- ?run <> _ => intros Hrun end.
    match type of Hrun with disableQuotas_wait API fuel flexvol ?st ?s1 = _ =>
      pose proof (disableQuotas_wait_spec fuel flexvol st s1) as Hspec end.
    by rewrite Hrun in Hspec.
  - destruct (QuotaOff _ API flexvol w1) as [[r err] w2]; simpl.
    destruct (GetError r err); simpl; [discriminate|].
    destruct wait; [|discriminate].
    match goal with |- ?run <> _ => intros Hrun end.
    match type of Hrun with disableQuotas_wait API fuel flexvol ?st ?s1 = _ =>
      pose proof (disableQuotas_wait_spec fuel flexvol st s1) as Hspec end.
    by rewrite Hrun in Hspec.
Qed.

Lemma enableQuotas_no_panic (fuel : nat) (flexvol : string) (wait : bool) (s : @State W) :
  enableQuotas API fuel flexvol wait s <> Panic.
Proof.
  unfold enableQuotas, bind, getQuotaStatus, API_QuotaStatus, API_QuotaOn, rpc, bind.
  destruct (QuotaStatus _ API flexvol (world s)) as [[r0 err0] w1]; simpl.
  destruct (GetError r0 err0); simpl; [discriminate|].
  destruct (String.eqb (Attributes r0) "corrupt"); simpl; [discriminate|].
  destruct (String.eqb (Attributes r0) "off"); simpl.
  - destruct (QuotaOn _ API flexvol w1) as [[r err] w2]; simpl.
    destruct (GetError r err); simpl; [discriminate|].
    destruct wait; [|discriminate].
    match goal with |- ?run <> _ => intros Hrun end.
    match type of Hrun with enableQuotas_wait API fuel flexvol ?st ?s1 = _ =>
      pose proof (enableQuotas_wait_spec fuel flexvol st s1) as Hspec end.
    by rewrite Hrun in Hspec.
  - destruct wait; [|discriminate].
    match goal with |- ?run <> _ => intros Hrun end.
    match type of Hrun with enableQuotas_wait API fuel flexvol ?st ?s1 = _ =>
      pose proof (enableQuotas_wait_spec fuel flexvol st s1) as Hspec end.
    by rewrite Hrun in Hspec.
Qed.

(** Whatever [disableQuotas] and [enableQuotas] return, the result of
    [addDefaultQuotaForFlexvol] is that of its [QuotaSetEntry] call. *)
Lemma addDefaultQuotaForFlexvol_result (fuel : nat) (flexvol : string) (s : @State W) :
  let '(r, err, _) := QuotaSetEntry _ API "" flexvol "" "tree" "-" (world s) in
  match addDefaultQuotaForFlexvol API fuel flexvol s with
  | Ret e _ => e = None <-> GetError r err = None
  | Panic => False
  | Stall _ => GetError r err = None
  end.
Proof.
  unfold addDefaultQuotaForFlexvol, bind, API_QuotaSetEntry, rpc.
  destruct (QuotaSetEntry _ API "" flexvol "" "tree" "-" (world s)) as [[r err] w1]; simpl.
  destruct (GetError r err) as [e|] eqn:Herr; simpl; [done|].
  match goal with |- context [disableQuotas API fuel flexvol true ?s1] =>
    pose proof (disableQuotas_no_panic fuel flexvol true s1) as Hd;
    destruct (disableQuotas API fuel flexvol true s1) as [e1 s2| |s2] end; [|done|done].
  pose proof (enableQuotas_no_panic fuel flexvol true s2) as He.
  destruct (enableQuotas API fuel flexvol true s2) as [e2 s3| |s3]; done.
Qed.
Lemma addQuotaForQtree_spec (qtree flexvol : string) (sizeBytes : Z) (s : @State W) :
  exists e s' r err,
    addQuotaForQtree API qtree flexvol sizeBytes s = Ret e s' /\
    trace s' = trace s ++
      [EvQuotaSetEntry "" flexvol ("/vol/" +:+ flexvol +:+ "/" +:+ qtree) "tree"
         (Strconv.FormatUint (sizeBytes / 1024)) r err] /\
    (e = None <-> GetError r err = None) /\
    quotaResizeMap s' = match GetError r err with
                        | None => <[flexvol := true]> (quotaResizeMap s)
                        | Some _ => quotaResizeMap s
                        end.
Proof.
  unfold addQuotaForQtree, bind, API_QuotaSetEntry, rpc, markForResize.
  destruct (QuotaSetEntry _ API _ _ _ _ _ (world s)) as [[r err] w1]; simpl.
  destruct (GetError r err) as [e|] eqn:Herr; simpl.
  - eexists _, _, r, err. split; [reflexivity|]. rewrite Herr. simpl. done.
  - eexists _, _, r, err. split; [reflexivity|]. rewrite Herr. simpl. done.
Qed.

(** Whenever [Create] returns nil, the last call it made is the quota rule
    for the new qtree, with the target [/vol/F/name] and the size in KiB
    rounded down; the Flexvol is flagged for resize if that call passed. *)
Lemma Create_success_submits_quota_entry (fuel : nat) (name : string) (sizeBytes : Z)
    (opts : gmap string string) (s s' : State) :
  Create API ext d fuel name sizeBytes opts s = Ret None s' ->
  exists flexvol r err,
    last (trace s') =
      Some (EvQuotaSetEntry "" flexvol ("/vol/" +:+ flexvol +:+ "/" +:+ name) "tree"
              (Strconv.FormatUint (sizeBytes / 1024)) r err) /\
    (GetError r err = None -> quotaResizeMap s' !! flexvol = Some true).
Proof.
  unfold Create, bind. intros H.
  destruct (API_QtreeExists API name (FlexvolNamePrefix d) s)
    as [[[found existsInFlexvol] [e|]] s1| |]; try discriminate.
  destruct found; [discriminate|].
  destruct (sizeBytes <? MinimumVolumeSizeBytes ext); [discriminate|].
  destruct (maxQtreeNameLength <? len name); [discriminate|].
  destruct (Strconv.ParseBool _) as [enableSnapshotDir [e|]]; [discriminate|].
  destruct (call_ValidateEncryptionAttribute API _ s1)
    as [[encrypt [e|]] s2| |]; try discriminate.
  destruct (ensureFlexvolForQtree API d fuel _ _ _ _ _ s2)
    as [[flexvol [e|]] s3| |]; try discriminate.
  destruct (getOptimalSizeForFlexvol API ext flexvol sizeBytes s3)
    as [[flexvolSizeBytes sizeErr] s4| |]; try discriminate.
  destruct sizeErr as [e|]; unfold bind in H;
    (destruct (API_SetVolumeSize API flexvol _ s4) as [[resizeResponse err] s5| |];
       try discriminate;
     unfold ret in H at 1; destruct (GetError resizeResponse err); [discriminate|];
     destruct (API_QtreeCreate API name flexvol _ _ _ s5)
       as [[qtreeResponse qerr] s6| |]; try discriminate;
     destruct (GetError qtreeResponse qerr); [discriminate|];
     destruct (addQuotaForQtree_spec name flexvol sizeBytes s6)
       as (e' & s7 & r & serr & Hrun & Htr & _ & Hmap);
     rewrite Hrun in H; injection H as <-;
     exists flexvol, r, serr; split;
     [ rewrite Htr; apply last_snoc
     | intros Hok; rewrite Hmap, Hok; apply lookup_insert_eq ]).
Qed.
(** *** Housekeeping *)

Lemma resizeQuotas_entry_spec (flexvol : string) (resize : bool) (s : @State W) :
  exists s', resizeQuotas_entry API ext flexvol resize s = Ret tt s' /\
    if resize then
      exists r err,
        trace s' = trace s ++ [EvQuotaResize flexvol r err] /\
        quotaResizeMap s' = if resize_settled ext r err
                            then delete flexvol (quotaResizeMap s)
                            else quotaResizeMap s
    else s' = s.
Proof.
  unfold resizeQuotas_entry. destruct resize; [|by eexists].
  unfold bind, API_QuotaResize, rpc.
  destruct (QuotaResize _ API flexvol (world s)) as [[r err] w1]; simpl.
  unfold resize_settled.
  destruct err as [e|]; simpl.
  { eexists; split; [reflexivity|]. exists r, (Some e). (simpl; split; reflexivity). }
  destruct (IsPassed (Result r)) eqn:Hp; simpl.
  { eexists; split; [reflexivity|]. exists r, None. simpl. rewrite Hp. split; reflexivity. }
  destruct (String.eqb _ _) eqn:Hc; simpl.
  - eexists; split; [reflexivity|]. exists r, None. simpl. rewrite Hp, Hc. split; reflexivity.
  - eexists; split; [reflexivity|]. exists r, None. simpl. rewrite Hp, Hc. split; reflexivity.
Qed.



End Properties.

(** *** Go's number parsing, on examples *)

Example ParseInt_examples :
  Strconv.ParseInt "1048576" = (1048576, None) /\
  Strconv.ParseInt "-" = (0, Some Strconv.ErrSyntax) /\
  Strconv.ParseInt "" = (0, Some Strconv.ErrSyntax) /\
  Strconv.ParseInt "+7" = (7, None) /\
  Strconv.ParseInt "-12" = (-12, None) /\
  Strconv.ParseInt "12a" = (0, Some Strconv.ErrSyntax) /\
  Strconv.ParseInt "9223372036854775807" = (Strconv.maxInt64, None) /\
  Strconv.ParseInt "9223372036854775808" = (Strconv.maxInt64, Some Strconv.ErrRange) /\
  Strconv.ParseInt "-9223372036854775808" = (Strconv.minInt64, None) /\
  Strconv.ParseInt "-9223372036854775809" = (Strconv.minInt64, Some Strconv.ErrRange).
Proof. vm_compute. repeat split. Qed.

Example ParseUint_examples :
  Strconv.ParseUint "18446744073709551615" = (Strconv.maxUint64, None) /\
  Strconv.ParseUint "18446744073709551616" = (Strconv.maxUint64, Some Strconv.ErrRange) /\
  Strconv.ParseUint "-" = (0, Some Strconv.ErrSyntax) /\
  Strconv.ParseUint "-1" = (0, Some Strconv.ErrSyntax).
Proof. vm_compute. repeat split. Qed.

Example Format_examples :
  Strconv.FormatUint 0 = "0" /\
  Strconv.FormatUint (1073741824 / 1024) = "1048576" /\
  Strconv.FormatInt (-5120) = "-5120" /\
  Strconv.FormatInt (Strconv.wrap_int64 (2 ^ 63)) = "-9223372036854775808".
Proof. vm_compute. repeat split. Qed.

(** *** The driver on the scripted appliance *)

Lemma Detach_returns_unmount_result_witness :
  let '(found, flexvol, lookupErr, w1) :=
    api.QtreeExists _ (Scripted.client Scripted.offline) "trident_vol1"
      (FlexvolNamePrefix (Scripted.driver "trident_")) (world (Scripted.start [])) in
  let '(unmountErr, w2) :=
    api.UnmountVolume _ (Scripted.client Scripted.offline) "/mnt/vol1" w1 in
  Detach (Scripted.client Scripted.offline) (Scripted.driver "trident_")
         "trident_vol1" "/mnt/vol1" (Scripted.start []) =
    Ret unmountErr
        {| world := w2;
           quotaResizeMap := quotaResizeMap (Scripted.start []);
           trace := trace (Scripted.start []) ++
                    [api.EvQtreeExists "trident_vol1"
                       (FlexvolNamePrefix (Scripted.driver "trident_")) found flexvol lookupErr;
                     api.EvUnmountVolume "/mnt/vol1" unmountErr] |}.
Proof.
  exact (Detach_returns_unmount_result (Scripted.client Scripted.offline)
           (Scripted.driver "trident_") "trident_vol1" "/mnt/vol1" (Scripted.start [])).
Defined.

(** With the lookup failing on a transport error, [Detach] still unmounts
    and returns what the unmount returned. *)
Example Detach_after_failed_lookup :
  Detach (Scripted.client Scripted.offline) (Scripted.driver "trident_")
         "trident_vol1" "/mnt/vol1" (Scripted.start []) =
    Ret (Some "umount: /mnt/vol1: not mounted")
        {| world := [];
           quotaResizeMap := ∅;
           trace := [api.EvQtreeExists "trident_vol1" "trident_qtree_pool_trident_" false ""
                       (Some "connection refused");
                     api.EvUnmountVolume "/mnt/vol1" (Some "umount: /mnt/vol1: not mounted")] |}.
Proof. reflexivity. Qed.

Lemma repeat_char_length (n : nat) (c : ascii) :
  String.length (Scripted.repeat_char n c) = n.
Proof. induction n as [|n IH]; simpl; [reflexivity|by rewrite IH]. Qed.

Lemma repeat_char_alphanumeric (n : nat) (c : ascii) :
  alphanumeric c = true -> all_alphanumeric (Scripted.repeat_char n c) = true.
Proof. intros Hc. induction n as [|n IH]; simpl; [reflexivity|by rewrite Hc, IH]. Qed.

Lemma Scripted_RandomString_contract (a : Scripted.Appliance) :
  RandomString_contract (Scripted.client a).
Proof.
  intros n w Hn. simpl. split.
  - unfold len. rewrite repeat_char_length. lia.
  - by apply repeat_char_alphanumeric.
Qed.

Lemma Scripted_RandIntn_contract (a : Scripted.Appliance) :
  RandIntn_contract (Scripted.client a).
Proof. intros n w Hn. simpl. lia. Qed.

Lemma Destroy_rename_target_witness :
  exists suffix result s' pre post r err,
    let original :=
      if maxQtreeNameLength <? len (deletedQtreeNamePrefix +:+ Scripted.name60 +:+ "_") + 5
      then string_drop (String.length deletedQtreeNamePrefix + 10) Scripted.name60
      else Scripted.name60 in
    let deletedName := deletedQtreeNamePrefix +:+ original +:+ "_" +:+ suffix in
    let target := "/vol/" +:+ Scripted.pool1 +:+ "/" +:+ deletedName in
    Destroy (Scripted.client Scripted.longName) (Scripted.driver "") Scripted.name60
            (Scripted.start []) = Ret result s' /\
    events_since (Scripted.start []) s' =
      pre ++ api.EvQtreeRename ("/vol/" +:+ Scripted.pool1 +:+ "/" +:+ Scripted.name60)
               target r err :: post /\
    Forall (fun ev => forall path newPath r' err',
              ev <> api.EvQtreeRename path newPath r' err') pre /\
    last pre = Some (api.EvRandomString 5 suffix) /\
    len suffix = 5 /\
    all_alphanumeric suffix = true /\
    HasPrefix deletedName deletedQtreeNamePrefix = true /\
    len deletedName <= maxQtreeNameLength /\
    (contains_slash Scripted.name60 = false -> last_component target = deletedName).
Proof.
  apply (Destroy_rename_target (Scripted.client Scripted.longName) (Scripted.driver "")
           Scripted.name60 Scripted.pool1 (Scripted.start []) []).
  - apply Scripted_RandomString_contract.
  - vm_compute. discriminate.
  - reflexivity.
Defined.



Lemma Scripted_QtreeList_contract (a : Scripted.Appliance) :
  QtreeList_contract (Scripted.client a).
Proof.
  intros prefix flexvolPrefix w. simpl. intros _.
  apply Forall_forall. intros q Hq.
  apply list_elem_of_In, filter_In in Hq as [_ Hq].
  by apply andb_true_iff in Hq as [Hq _].
Qed.

Lemma List_names_witness :
  exists volumes err s' r rerr,
    List (Scripted.client Scripted.healthy) (Scripted.driver "trident_") (Scripted.start [])
      = Ret (volumes, err) s' /\
    events_since (Scripted.start []) s' =
      [api.EvQtreeList (StoragePrefix (Scripted.driver "trident_"))
         (FlexvolNamePrefix (Scripted.driver "trident_")) r rerr] /\
    (err = None <-> api.GetError r rerr = None) /\
    (err = None ->
       Forall2 (fun vol q => azgo.Qtree q = StoragePrefix (Scripted.driver "trident_") +:+ vol)
               volumes (azgo.Attributes r) /\
       (HasPrefix deletedQtreeNamePrefix (StoragePrefix (Scripted.driver "trident_")) = false ->
        HasPrefix (StoragePrefix (Scripted.driver "trident_")) deletedQtreeNamePrefix = false ->
        Forall (fun q => HasPrefix (azgo.Qtree q) deletedQtreeNamePrefix = false)
               (azgo.Attributes r))).
Proof.
  apply (List_names (Scripted.client Scripted.healthy) (Scripted.driver "trident_")
           (Scripted.start [])).
  apply Scripted_QtreeList_contract.
Defined.

(** C6, the claim as stated fails.  With an empty storage prefix, the name
    that [Destroy] gives the qtree [vol1] is listed by [List], and it begins
    with ["deleted_"]; and with the storage prefix ["trident_"], the volume
    of the qtree [trident_deleted_scenes] is listed under a name that begins
    with ["deleted_"]. *)
Lemma List_shows_deleted_names :
  (exists s1,
     deletedQtreeName (Scripted.client Scripted.afterRename) "vol1" (Scripted.start [])
       = Ret "deleted_vol1_xxxxx" s1) /\
  (exists s',
     List (Scripted.client Scripted.afterRename) (Scripted.driver "") (Scripted.start [])
       = Ret (["deleted_vol1_xxxxx"; "vol2"], None) s') /\
  HasPrefix "deleted_vol1_xxxxx" "deleted_" = true /\
  (exists s',
     List (Scripted.client Scripted.deletedScenes) (Scripted.driver "trident_")
          (Scripted.start [])
       = Ret (["deleted_scenes"], None) s') /\
  HasPrefix "deleted_scenes" "deleted_" = true.
Proof.
  split; [eexists; vm_compute; reflexivity|].
  split; [eexists; vm_compute; reflexivity|].
  split; [reflexivity|].
  split; [eexists; vm_compute; reflexivity|reflexivity].
Qed.

Lemma getVolumeExternal_Size_witness :
  exists external,
    getVolumeExternal Scripted.ext (Scripted.driver "trident_")
      (Scripted.qtree Scripted.pool1 "trident_a") (Scripted.flexvol Scripted.pool1)
      {| azgo.QuotaTarget := "/vol/pool/trident_a"; azgo.DiskLimit := "1048576" |}
      = Some external /\
    let Size := storage.Size (storage.Config external) in
    match Strconv.ParseInt "1048576" with
    | (_, Some _) => Size = "0"
    | (limit, None) =>
        Size = Strconv.FormatInt (Strconv.wrap_int64 (limit * 1024)) /\
        (- 2 ^ 53 <= limit < 2 ^ 53 -> Size = Strconv.FormatInt (limit * 1024))
    end /\
    ("1048576" = "-" -> Size = "0").
Proof.
  apply (getVolumeExternal_Size Scripted.ext (Scripted.driver "trident_")
           (Scripted.qtree Scripted.pool1 "trident_a") (Scripted.flexvol Scripted.pool1)
           {| azgo.QuotaTarget := "/vol/pool/trident_a"; azgo.DiskLimit := "1048576" |}).
  vm_compute. lia.
Defined.

(** C10, the claim as stated fails.  The disk limit ["9007199254740992"]
    (2^53 KiB) parses, and its product with 1024 is 2^63, one more than the
    largest [int64]: the Size reported is the wrapped value, not the
    product. *)
Lemma getVolumeExternal_Size_wraps :
  let quota := {| azgo.QuotaTarget := "/vol/pool/trident_a";
                  azgo.DiskLimit := "9007199254740992" |} in
  Strconv.ParseInt (azgo.DiskLimit quota) = (9007199254740992, None) /\
  Strconv.FormatInt (9007199254740992 * 1024) = "9223372036854775808" /\
  exists external,
    getVolumeExternal Scripted.ext (Scripted.driver "trident_")
      (Scripted.qtree Scripted.pool1 "trident_a") (Scripted.flexvol Scripted.pool1) quota
      = Some external /\
    storage.Size (storage.Config external) = "-9223372036854775808" /\
    storage.Size (storage.Config external) <> Strconv.FormatInt (9007199254740992 * 1024).
Proof.
  split; [vm_compute; reflexivity|]. split; [vm_compute; reflexivity|].
  eexists. split; [vm_compute; reflexivity|]. split; [reflexivity|].
  vm_compute. discriminate.
Qed.

(** C8, the claim as stated fails.  The status read is ["resizing"], which
    is neither ["on"] nor ["corrupt"]; [enableQuotas] waits for ["on"] and
    returns without having issued any [QuotaOn]. *)
Lemma enableQuotas_resizing_no_QuotaOn :
  exists s',
    enableQuotas (Scripted.client Scripted.healthy) 5 "pool" true
                 (Scripted.start ["resizing"; "on"]) = Ret None s' /\
    trace s' = [api.EvQuotaStatus "pool" (Scripted.ok "resizing").1 None;
                api.EvSleep 1;
                api.EvQuotaStatus "pool" (Scripted.ok "on").1 None] /\
    "resizing" <> "on" /\ "resizing" <> "corrupt" /\
    forall r err, api.EvQuotaOn "pool" r err ∉ trace s'.
Proof.
  eexists. split; [vm_compute; reflexivity|]. split; [reflexivity|].
  split; [discriminate|]. split; [discriminate|].
  intros r err Hin. simpl in Hin.
  repeat (apply elem_of_cons in Hin as [Hin|Hin]; [discriminate|]).
  by apply elem_of_nil in Hin.
Qed.

(** With one Flexvol at the cap and one below it, the one below is chosen. *)
Example getFlexvolForQtree_skips_full_Flexvol :
  exists s',
    getFlexvolForQtree (Scripted.client Scripted.fanout) (Scripted.driver "trident_")
      "aggr1" "none" "none" false None (Scripted.start []) = Ret ("pool_room", None) s' /\
    candidates (trace s') = ["pool_room"] /\
    api.EvQtreeCount "pool_full" 200 None ∈ trace s'.
Proof.
  eexists. split; [vm_compute; reflexivity|]. split; [reflexivity|].
  apply list_elem_of_further, list_elem_of_here.
Qed.

(** C1, on the code.  [Create] of [trident_vol1] (1 GiB) on an appliance that
    refuses the quota rule: the qtree is created, the rule for
    [/vol/F/trident_vol1] with the limit [1048576] KiB is sent and refused,
    [Create] returns nil, and the Flexvol [F] is not in the Quota Resize
    Set. *)
Theorem Create_success_leaves_Flexvol_unmarked :
  exists s' r err,
    Create (Scripted.client Scripted.quotaRejecting) Scripted.ext
           (Scripted.driver "trident_") 0 "trident_vol1" 1073741824 ∅ (Scripted.start [])
      = Ret None s' /\
    last (trace s') =
      Some (api.EvQuotaSetEntry "" Scripted.pool1
              ("/vol/" +:+ Scripted.pool1 +:+ "/trident_vol1") "tree"
              (Strconv.FormatUint (1073741824 / 1024)) r err) /\
    api.GetError r err = Some "quota rule refused" /\
    quotaResizeMap s' !! Scripted.pool1 = None.
Proof.
  eexists. eexists. eexists.
  split; [vm_compute; reflexivity|]. split; [vm_compute; reflexivity|].
  split; reflexivity.
Qed.

(** C2, on the code.  In the same run, [addQuotaForQtree] is entered right
    after the qtree has been created and returns an error, and [Create]
    returns nil, not ["volume creation failed"]. *)
Theorem Create_returns_nil_when_quota_step_fails :
  match Create (Scripted.client Scripted.quotaRejecting) Scripted.ext
               (Scripted.driver "trident_") 0 "trident_vol1" 1073741824 ∅
               (Scripted.start []) with
  | Ret result s' =>
      let s1 := {| world := world s'; quotaResizeMap := quotaResizeMap s';
                   trace := removelast (trace s') |} in
      last (trace s1) =
        Some (api.EvQtreeCreate "trident_vol1" Scripted.pool1 "---rwxrwxrwx" "default" "unix"
                (Scripted.ok tt).1 None) /\
      addQuotaForQtree (Scripted.client Scripted.quotaRejecting) "trident_vol1"
                       Scripted.pool1 1073741824 s1
        = Ret (Some "error adding qtree quota: quota rule refused") s' /\
      result = None /\
      result <> createError
  | _ => False
  end.
Proof. vm_compute. repeat split. discriminate. Qed.

(** C3, on the code.  A new Flexvol is created on an appliance whose quota
    status is ["corrupt"], first at the initial read of [disableQuotas], then
    in its polling loop: [disableQuotas] fails with an error that names the
    Flexvol, and [createFlexvolForQtree] returns the Flexvol and nil, without
    destroying it. *)
Theorem createFlexvolForQtree_ignores_corrupt_quotas :
  let API := Scripted.client Scripted.emptyPool in
  let d := Scripted.driver "trident_" in
  let F := "trident_qtree_pool_trident_xxxxxxxxxx" in
  (* corrupt at the initial read *)
  (exists s1,
     disableQuotas API 3 F true (Scripted.start ["corrupt"; "corrupt"])
       = Ret (Some ("error disabling quotas: quotas are corrupt on Flexvol " +:+ F)) s1) /\
  (exists s',
     createFlexvolForQtree API d 3 "aggr1" "none" "none" false None
                           (Scripted.start ["corrupt"; "corrupt"])
       = Ret (F, None) s' /\
     forall force r err, api.EvVolumeDestroy F force r err ∉ trace s') /\
  (* corrupt while polling for "off" *)
  (exists s1,
     disableQuotas API 3 F true (Scripted.start ["on"; "corrupt"; "corrupt"])
       = Ret (Some ("error disabling quotas: quotas are corrupt on flexvol " +:+ F)) s1 /\
     api.EvSleep 1 ∈ trace s1) /\
  (exists s',
     createFlexvolForQtree API d 3 "aggr1" "none" "none" false None
                           (Scripted.start ["on"; "corrupt"; "corrupt"])
       = Ret (F, None) s' /\
     forall force r err, api.EvVolumeDestroy F force r err ∉ trace s').
Proof.
  assert (Hno : forall (tr : list api.Event) F,
            forallb (fun ev => match ev with api.EvVolumeDestroy _ _ _ _ => false
                               | _ => true end) tr = true ->
            forall force r err, api.EvVolumeDestroy F force r err ∉ tr).
  { intros tr F Hall force r err Hin. rewrite forallb_forall in Hall.
    apply list_elem_of_In in Hin. by specialize (Hall _ Hin). }
  split; [eexists; vm_compute; reflexivity|].
  split; [eexists; split; [vm_compute; reflexivity|by apply Hno]|].
  split; [eexists; split; [vm_compute; reflexivity|]|].
  { apply list_elem_of_further, list_elem_of_further, list_elem_of_here. }
  eexists; split; [vm_compute; reflexivity|by apply Hno].
Qed.

(** ** Further properties *)

Import azgo api.

(** *** Decimal numerals *)

Lemma uint_value_ge (d : Decimal.uint) (acc : Z) : 0 <= acc -> acc <= uint_value d acc.
Proof.
  revert acc. induction d; intros acc Hacc; simpl; try lia;
    match goal with |- _ <= uint_value _ ?a => specialize (IHd a ltac:(lia)); lia end.
Qed.

Lemma parseUint_loop_step (c : ascii) (rest : string) (n k : Z) :
  Z.of_nat (nat_of_ascii c) = 48 + k -> 0 <= k <= 9 ->
  0 <= n -> n * 10 + k <= Strconv.maxUint64 ->
  Strconv.parseUint_loop (String c rest) n = Strconv.parseUint_loop rest (n * 10 + k).
Proof.
  intros Hc Hk Hn Hmax. simpl. rewrite Hc.
  unfold Strconv.maxUint64, Strconv.wrap_uint64, Strconv.uint64_modulus in *.
  change (2 ^ 64 - 1) with 18446744073709551615 in *.
  change (2 ^ 64) with 18446744073709551616 in *.
  change (18446744073709551615 / 10 + 1) with 1844674407370955162.
  destruct (Z.leb_spec 48 (48 + k)); [|lia].
  destruct (Z.leb_spec (48 + k) 57); [|lia]. simpl.
  destruct (Z.leb_spec 1844674407370955162 n); [lia|].
  replace (48 + k - 48) with k by lia.
  rewrite (Z.mod_small (n * 10)) by lia.
  rewrite (Z.mod_small (n * 10 + k)) by lia.
  destruct (Z.ltb_spec (n * 10 + k) (n * 10)); [lia|].
  destruct (Z.ltb_spec 18446744073709551615 (n * 10 + k)); [lia|].
  reflexivity.
Qed.

Lemma parseUint_loop_digits (d : Decimal.uint) (acc : Z) :
  0 <= acc -> uint_value d acc <= Strconv.maxUint64 ->
  Strconv.parseUint_loop (NilEmpty.string_of_uint d) acc = (uint_value d acc, None).
Proof.
  revert acc. induction d; intros acc Hacc Hmax; [reflexivity|..];
    simpl in Hmax;
    match type of Hmax with uint_value d (acc * 10) <= _ =>
      replace (acc * 10) with (acc * 10 + 0) in * by lia | _ => idtac end;
    match type of Hmax with uint_value d (acc * 10 + ?k) <= _ =>
      pose proof (uint_value_ge d (acc * 10 + k) ltac:(lia)) as Hge;
      change (NilEmpty.string_of_uint (_ d)) with
        (String (ascii_of_nat (48 + Z.to_nat k)) (NilEmpty.string_of_uint d));
      rewrite (parseUint_loop_step _ _ acc k) by (try reflexivity; lia);
      rewrite IHd by lia; simpl; repeat f_equal; lia
    end.
Qed.

Lemma uint_value_acc (d : Decimal.uint) (acc : positive) :
  Z.pos (Pos.of_uint_acc d acc) = uint_value d (Z.pos acc).
Proof.
  revert acc. induction d; intros acc; simpl; [reflexivity|..];
    rewrite IHd; f_equal; lia.
Qed.

Lemma uint_value_of_uint (d : Decimal.uint) :
  Z.of_N (N.of_uint d) = uint_value d 0.
Proof.
  unfold N.of_uint. induction d; simpl; try reflexivity; try exact IHd;
    apply uint_value_acc.
Qed.

Lemma to_uint_nonnil (n : N) : N.to_uint n <> Decimal.Nil.
Proof.
  destruct n; simpl; [discriminate|]. apply DecimalPos.Unsigned.to_uint_nonnil.
Qed.

Lemma NilZero_string_of_uint_nonnil (d : Decimal.uint) :
  d <> Decimal.Nil ->
  NilZero.string_of_uint d = NilEmpty.string_of_uint d /\
  NilEmpty.string_of_uint d <> EmptyString.
Proof. destruct d; intros H; try done; split; done. Qed.

(** [strconv.ParseUint] reads back what [strconv.FormatUint] wrote. *)
Lemma ParseUint_FormatUint (n : Z) :
  0 <= n <= Strconv.maxUint64 ->
  Strconv.ParseUint (Strconv.FormatUint n) = (n, None).
Proof.
  intros Hn. unfold Strconv.FormatUint, Strconv.ParseUint.
  destruct (NilZero_string_of_uint_nonnil _ (to_uint_nonnil (Z.to_N n))) as [-> Hne].
  pose proof (uint_value_of_uint (N.to_uint (Z.to_N n))) as Hval.
  rewrite DecimalN.Unsigned.of_to, Z2N.id in Hval by lia.
  destruct (NilEmpty.string_of_uint _) eqn:Hs; [done|]. rewrite <- Hs.
  rewrite parseUint_loop_digits by lia. by rewrite <- Hval.
Qed.

Lemma Z_to_int_nonneg (n : Z) :
  0 <= n -> Z.to_int n = Decimal.Pos (N.to_uint (Z.to_N n)).
Proof. destruct n; intros Hn; try reflexivity. lia. Qed.

Lemma FormatInt_nonneg (n : Z) : 0 <= n -> Strconv.FormatInt n = Strconv.FormatUint n.
Proof. intros Hn. unfold Strconv.FormatInt, Strconv.FormatUint. by rewrite Z_to_int_nonneg. Qed.

(** A numeral is written with digits only. *)
Lemma string_of_uint_all_digits (d : Decimal.uint) :
  all_digits (NilEmpty.string_of_uint d) = true.
Proof. induction d; simpl; try reflexivity; exact IHd. Qed.

Lemma FormatUint_all_digits (n : Z) :
  all_digits (Strconv.FormatUint n) = true /\ Strconv.FormatUint n <> EmptyString.
Proof.
  unfold Strconv.FormatUint.
  destruct (NilZero_string_of_uint_nonnil _ (to_uint_nonnil (Z.to_N n))) as [-> Hne].
  split; [apply string_of_uint_all_digits|exact Hne].
Qed.

(** [strconv.ParseUint] accepts digits only. *)
Lemma parseUint_loop_all_digits (s : string) (n v : Z) :
  Strconv.parseUint_loop s n = (v, None) -> all_digits s = true.
Proof.
  revert n. induction s as [|c s IH]; intros n; simpl; [reflexivity|].
  destruct ((48 <=? Z.of_nat (nat_of_ascii c)) && (Z.of_nat (nat_of_ascii c) <=? 57));
    [|discriminate].
  destruct (_ <=? n); [discriminate|].
  destruct (_ || _); [discriminate|]. simpl. apply IH.
Qed.

Lemma ParseUint_all_digits (s : string) (v : Z) :
  Strconv.ParseUint s = (v, None) -> all_digits s = true /\ s <> EmptyString.
Proof.
  destruct s as [|c s]; [discriminate|]. unfold Strconv.ParseUint.
  intros H. split; [by eapply parseUint_loop_all_digits|discriminate].
Qed.

(** A string of digits does not begin with a sign. *)
Lemma all_digits_no_sign (c : ascii) (s : string) :
  all_digits (String c s) = true -> Ascii.eqb c "+" = false /\ Ascii.eqb c "-" = false.
Proof.
  simpl. intros H. apply andb_true_iff in H as [H _].
  split.
  - destruct (Ascii.eqb_spec c "+") as [->|]; [discriminate|reflexivity].
  - destruct (Ascii.eqb_spec c "-") as [->|]; [discriminate|reflexivity].
Qed.

(** [strconv.ParseInt] reads back what [strconv.FormatUint] wrote, up to
    the largest [int64]. *)
Lemma ParseInt_FormatUint (n : Z) :
  0 <= n <= Strconv.maxInt64 ->
  Strconv.ParseInt (Strconv.FormatUint n) = (n, None).
Proof.
  intros Hn.
  assert (Hmax : 0 <= n <= Strconv.maxUint64).
  { unfold Strconv.maxInt64, Strconv.maxUint64 in *. lia. }
  pose proof (ParseUint_FormatUint n Hmax) as Hparse.
  destruct (FormatUint_all_digits n) as [Hdigits Hne].
  destruct (Strconv.FormatUint n) as [|c s] eqn:Hs; [done|].
  destruct (all_digits_no_sign c s Hdigits) as [Hplus Hminus].
  unfold Strconv.ParseInt. rewrite Hplus, Hminus, Hparse. simpl.
  unfold Strconv.maxInt64 in Hn.
  destruct (Z.leb_spec (2 ^ 63) n); [lia|reflexivity].
Qed.

(** *** Housekeeping periods *)

Lemma housekeepingPeriodSecs_FormatUint (n defaultSecs : Z) :
  0 <= n <= Strconv.maxUint64 ->
  housekeepingPeriodSecs (Strconv.FormatUint n) defaultSecs = n.
Proof.
  intros Hn. unfold housekeepingPeriodSecs.
  destruct (FormatUint_all_digits n) as [_ Hne].
  destruct (String.eqb_spec (Strconv.FormatUint n) ""); [done|].
  by rewrite ParseUint_FormatUint.
Qed.

Lemma NewTicker_seconds (n : Z) :
  1 <= n <= 9223372036 -> NewTicker (tickerDuration n) = Some (n * 1000000000).
Proof.
  intros Hsecs. unfold tickerDuration, NewTicker.
  rewrite (wrap_int64_small n) by (unfold Strconv.minInt64, Strconv.maxInt64; lia).
  rewrite wrap_int64_small by (unfold Strconv.minInt64, Strconv.maxInt64; lia).
  destruct (Z.ltb_spec 0 (n * 1000000000)); [reflexivity|lia].
Qed.

(** X1.  The period of a housekeeping task is the number its option
    spells: for every [n] below 2^64, the option [FormatUint n] gives the
    period [n].  An empty option, or one with a byte that is no digit,
    gives the default.  A period between 1 and 9223372036 seconds makes a
    ticker of exactly that many seconds; the period 0, which the option
    ["0"] gives, makes [time.NewTicker] panic. *)
Theorem housekeepingPeriodSecs_reads_option (n defaultSecs : Z) (configured : string) :
  0 <= n <= Strconv.maxUint64 ->
  housekeepingPeriodSecs (Strconv.FormatUint n) defaultSecs = n /\
  (configured = "" \/ all_digits configured = false ->
   housekeepingPeriodSecs configured defaultSecs = defaultSecs) /\
  (1 <= n <= 9223372036 -> NewTicker (tickerDuration n) = Some (n * 1000000000)) /\
  NewTicker (tickerDuration (housekeepingPeriodSecs "0" defaultSecs)) = None.
Proof.
  intros Hn. split; [|split; [|split]].
  - by apply housekeepingPeriodSecs_FormatUint.
  - unfold housekeepingPeriodSecs. intros [->|Hbad]; [reflexivity|].
    destruct (String.eqb configured ""); [reflexivity|].
    destruct (Strconv.ParseUint configured) as [v [e|]] eqn:Hparse; [reflexivity|].
    apply ParseUint_all_digits in Hparse as [Hdigits _]. congruence.
  - apply NewTicker_seconds.
  - reflexivity.
Qed.

Lemma housekeepingPeriodSecs_reads_option_witness :
  housekeepingPeriodSecs (Strconv.FormatUint 600) 60 = 600 /\
  ("10m" = "" \/ all_digits "10m" = false ->
   housekeepingPeriodSecs "10m" 60 = 60) /\
  (1 <= 600 <= 9223372036 -> NewTicker (tickerDuration 600) = Some (600 * 1000000000)) /\
  NewTicker (tickerDuration (housekeepingPeriodSecs "0" 60)) = None.
Proof.
  apply (housekeepingPeriodSecs_reads_option 600 60 "10m").
  vm_compute. split; discriminate.
Defined.

(** *** Names derived by [Initialize] *)

Lemma collapse_underscores_plain (p t : string) :
  contains_underscore p = false ->
  collapse_underscores (p +:+ t) = p +:+ collapse_underscores t.
Proof.
  induction p as [|c p IH]; intros Hp; [reflexivity|].
  simpl in Hp. apply orb_false_iff in Hp as [Hc Hp].
  change (String c p +:+ t) with (String c (p +:+ t)).
  change (String c p +:+ collapse_underscores t)
    with (String c (p +:+ collapse_underscores t)).
  rewrite <- (IH Hp).
  destruct (p +:+ t) as [|c' rest] eqn:Hrest.
  - reflexivity.
  - simpl. rewrite Hc. reflexivity.
Qed.

Lemma collapse_underscores_single (c : ascii) (t : string) :
  Ascii.eqb c "_" = false ->
  collapse_underscores (String "_" (String c t)) =
    String "_" (collapse_underscores (String c t)).
Proof.
  intros Hc. cbn [collapse_underscores]. rewrite Hc. reflexivity.
Qed.

Lemma collapse_underscores_segment (segment t : string) :
  segment <> "" -> contains_underscore segment = false ->
  collapse_underscores ("_" +:+ segment +:+ t) =
    "_" +:+ segment +:+ collapse_underscores t.
Proof.
  intros Hne Hplain. destruct segment as [|c segment]; [done|].
  change ("_" +:+ String c segment +:+ t) with (String "_" (String c (segment +:+ t))).
  rewrite collapse_underscores_single.
  - change (String c (segment +:+ t)) with (String c segment +:+ t).
    by rewrite collapse_underscores_plain.
  - simpl in Hplain. by apply orb_false_iff in Hplain as [Hc _].
Qed.

Lemma contains_underscore_head (c : ascii) (p : string) :
  contains_underscore (String c p) = false -> Ascii.eqb c "_" = false.
Proof. simpl. by intros [Hc _]%orb_false_iff. Qed.

(** X2.  For a storage prefix [p] that is not empty and holds no underscore,
    [Initialize] names the Flexvols of the pool
    [<artifactPrefix>_qtree_pool_<p>_], and it gives the very same name
    prefix for the storage prefix [p_]: the two storage prefixes share one
    pool of Flexvols. *)
Theorem Initialize_flexvolNamePrefix_trailing_underscore
    (context : DriverContext) (p : string) :
  p <> "" -> contains_underscore p = false ->
  Initialize_flexvolNamePrefix context p =
    artifactPrefix context +:+ "_qtree_pool_" +:+ p +:+ "_" /\
  Initialize_flexvolNamePrefix context (p +:+ "_") =
    artifactPrefix context +:+ "_qtree_pool_" +:+ p +:+ "_".
Proof.
  intros Hne Hp. destruct p as [|c p]; [done|].
  pose proof (contains_underscore_head c p Hp) as Hc.
  assert (Hpool : forall t,
            collapse_underscores ("_qtree_pool_" +:+ String c p +:+ t) =
              "_qtree_pool_" +:+ String c p +:+ collapse_underscores t).
  { intros t.
    change ("_qtree_pool_" +:+ String c p +:+ t)
      with ("_" +:+ "qtree" +:+ "_" +:+ "pool" +:+ "_" +:+ String c p +:+ t).
    rewrite !collapse_underscores_segment by done.
    reflexivity. }
  assert (Hall : forall t,
            collapse_underscores (artifactPrefix context +:+ "_qtree_pool_" +:+
                                  String c p +:+ t) =
              artifactPrefix context +:+ "_qtree_pool_" +:+ String c p +:+
              collapse_underscores t).
  { intros t. destruct context.
    - rewrite (collapse_underscores_plain artifactPrefixDocker) by reflexivity.
      by rewrite Hpool.
    - rewrite (collapse_underscores_plain artifactPrefixKubernetes) by reflexivity.
      by rewrite Hpool.
    - apply Hpool. }
  unfold Initialize_flexvolNamePrefix. split.
  - apply Hall.
  - replace ((String c p +:+ "_") +:+ "_") with (String c p +:+ "__").
    + apply Hall.
    + clear. induction (String c p) as [|c' s IH]; [reflexivity|].
      change (String c' s +:+ "__") with (String c' (s +:+ "__")).
      rewrite IH. reflexivity.
Qed.

Lemma Initialize_flexvolNamePrefix_trailing_underscore_witness :
  Initialize_flexvolNamePrefix ContextKubernetes "trident" =
    artifactPrefix ContextKubernetes +:+ "_qtree_pool_" +:+ "trident" +:+ "_" /\
  Initialize_flexvolNamePrefix ContextKubernetes ("trident" +:+ "_") =
    artifactPrefix ContextKubernetes +:+ "_qtree_pool_" +:+ "trident" +:+ "_".
Proof.
  apply (Initialize_flexvolNamePrefix_trailing_underscore ContextKubernetes "trident").
  - discriminate.
  - reflexivity.
Defined.

(** *** Runs that return *)

Section Returns.
Context {W : Type}.

Lemma bind_Ret {A B} (m : @M W A) (k : A -> @M W B) (s s' : State) (b : B) :
  bind m k s = Ret b s' -> exists a s1, m s = Ret a s1 /\ k a s1 = Ret b s'.
Proof.
  unfold bind. destruct (m s) as [a s1| |s1]; [|discriminate..]. eauto.
Qed.

Lemma rpc_Ret {A} (f : W -> A * W) (ev : A -> Event) (s s' : State) (a : A) :
  rpc f ev s = Ret a s' ->
  trace s' = trace s ++ [ev a] /\ quotaResizeMap s' = quotaResizeMap s /\
  (f (world s)).1 = a.
Proof.
  unfold rpc. destruct (f (world s)) as [a' w]. by intros [= <- <-].
Qed.

Lemma ret_Ret {A} (a b : A) (s s' : @State W) : ret a s = Ret b s' -> a = b /\ s = s'.
Proof. by intros [= <- <-]. Qed.

Lemma keeps_Ret {A} (m : @M W A) (s s' : State) (a : A) :
  keeps_resize_set m -> m s = Ret a s' ->
  quotaResizeMap s' = quotaResizeMap s /\ exists tr, trace s' = trace s ++ tr.
Proof. intros Hm Hrun. specialize (Hm s). by rewrite Hrun in Hm. Qed.

End Returns.

(** *** Genuine traces *)

Create HintDb faithful.

Section Genuine.
Context {W : Type}.
Variable API : Client W.
Variable ext : Externals.
Variable d : NASQtreeStorageDriver.

Lemma genuine_app (w w1 w2 : W) (tr1 tr2 : list Event) :
  genuine API w tr1 w1 -> genuine API w1 tr2 w2 -> genuine API w (tr1 ++ tr2) w2.
Proof.
  revert w. induction tr1 as [|ev tr1 IH]; intros w; simpl.
  - by intros ->.
  - intros (w' & Hev & Hrest) H2. exists w'. split; [exact Hev|]. by apply IH.
Qed.

Lemma faithful_ret {A} (a : A) : faithful API (@ret W A a).
Proof. intros s. simpl. exists []. by rewrite app_nil_r. Qed.

Lemma faithful_panic {A} : faithful API (@panic W A).
Proof. by intros s. Qed.

Lemma faithful_stall {A} : faithful API (@stall W A).
Proof. intros s. simpl. exists []. by rewrite app_nil_r. Qed.

Lemma faithful_rpc {A} (f : W -> A * W) (ev : A -> Event) :
  (forall w a w', f w = (a, w') -> answers API (ev a) w w') -> faithful API (rpc f ev).
Proof.
  intros Hev s. unfold rpc. specialize (Hev (world s)).
  destruct (f (world s)) as [a w]. simpl in *.
  exists [ev a]. split; [reflexivity|]. simpl. exists w. split; [by apply Hev|done].
Qed.

Lemma faithful_rpc_ (f : W -> W) (ev : Event) :
  (forall w, answers API ev w (f w)) -> faithful API (rpc_ f ev).
Proof.
  intros Hev. unfold rpc_. apply faithful_rpc. intros w a w' [= _ <-]. apply Hev.
Qed.

Lemma faithful_markForResize (flexvol : string) : faithful API (@markForResize W flexvol).
Proof. intros s. simpl. exists []. by rewrite app_nil_r. Qed.

Lemma faithful_unmarkForResize (flexvol : string) :
  faithful API (@unmarkForResize W flexvol).
Proof. intros s. simpl. exists []. by rewrite app_nil_r. Qed.

Lemma faithful_bind {A B} (m : @M W A) (k : A -> @M W B) :
  faithful API m -> (forall a, faithful API (k a)) -> faithful API (bind m k).
Proof.
  intros Hm Hk s. unfold bind. specialize (Hm s).
  destruct (m s) as [a s1| |s1]; [|done|exact Hm].
  destruct Hm as (tr & Htr & Hgen). specialize (Hk a s1).
  destruct (k a s1) as [b s2| |s2]; [|done|];
    destruct Hk as (tr' & Htr' & Hgen'); exists (tr ++ tr');
    (split; [by rewrite Htr', Htr, app_assoc|]); by eapply genuine_app.
Qed.

Lemma faithful_Ret {A} (m : @M W A) (s s' : State) (a : A) :
  faithful API m -> m s = Ret a s' ->
  genuine API (world s) (events_since s s') (world s').
Proof.
  intros Hm Hrun. specialize (Hm s). rewrite Hrun in Hm.
  destruct Hm as (tr & Htr & Hgen). by rewrite (events_since_app _ _ _ Htr).
Qed.

Lemma faithful_run {A} (m : @M W A) (s : State) :
  faithful API m ->
  match m s with
  | Ret _ s' | Stall s' => genuine API (world s) (events_since s s') (world s')
  | Panic => True
  end.
Proof.
  intros Hm. specialize (Hm s). destruct (m s) as [a s'| |s']; [|done|];
    destruct Hm as (tr & Htr & Hgen); by rewrite (events_since_app _ _ _ Htr).
Qed.

End Genuine.

(** The call of a wrapper is answered as its event says. *)
Ltac answered :=
  let w := fresh "w" in
  let a := fresh "a" in
  let w' := fresh "w" in
  let H := fresh "H" in
  intros w a w' H; cbv beta;
  repeat match goal with
         | |- context [let (_, _) := ?x in _] => destruct x
         end;
  simpl; exact H.

(** One step of a proof that the trace of a method is genuine. *)
Ltac faithful_step :=
  first
    [ apply faithful_ret
    | apply faithful_panic
    | apply faithful_stall
    | apply faithful_markForResize
    | apply faithful_unmarkForResize
    | apply faithful_rpc_; intros ?; reflexivity
    | apply faithful_rpc; answered
    | solve [auto with faithful]
    | apply faithful_bind; [|intros ?]
    | match goal with
      | |- faithful _ (match ?x with _ => _ end) => destruct x
      | |- faithful _ (let (_, _) := ?x in _) => destruct x
      | |- faithful _ (if ?x then _ else _) => destruct x
      end ].

Ltac genuinely :=
  unfold API_QtreeExists, API_VolumeListByAttrs, API_QtreeCount, API_VolumeCreate,
    API_VolumeDisableSnapshotDirectoryAccess, API_VolumeMount, API_VolumeDestroy,
    API_VolumeGet, API_SetVolumeSize, API_QtreeCreate, API_QtreeRename,
    API_QtreeDestroyAsync, API_QtreeList, API_QuotaSetEntry, API_QuotaStatus,
    API_QuotaOn, API_QuotaOff, API_QuotaResize, API_QuotaEntryList,
    call_ValidateEncryptionAttribute, call_UpdateLoadSharingMirrors, call_MountVolume,
    call_UnmountVolume, time_Sleep, utils_RandomString, rand_Intn;
  repeat faithful_step.

Section GenuineRuns.
Context {W : Type}.
Variable API : Client W.
Variable ext : Externals.
Variable d : NASQtreeStorageDriver.

Lemma faithful_getQuotaStatus (flexvol : string) :
  faithful API (getQuotaStatus API flexvol).
Proof. unfold getQuotaStatus. genuinely. Qed.
Hint Resolve faithful_getQuotaStatus : faithful.

Lemma faithful_disableQuotas_wait (fuel : nat) (flexvol status : string) :
  faithful API (disableQuotas_wait API fuel flexvol status).
Proof. revert status. induction fuel as [|fuel IH]; intros status; simpl; genuinely. Qed.
Hint Resolve faithful_disableQuotas_wait : faithful.

Lemma faithful_enableQuotas_wait (fuel : nat) (flexvol status : string) :
  faithful API (enableQuotas_wait API fuel flexvol status).
Proof. revert status. induction fuel as [|fuel IH]; intros status; simpl; genuinely. Qed.
Hint Resolve faithful_enableQuotas_wait : faithful.

Lemma faithful_disableQuotas (fuel : nat) (flexvol : string) (wait : bool) :
  faithful API (disableQuotas API fuel flexvol wait).
Proof. unfold disableQuotas. genuinely. Qed.
Hint Resolve faithful_disableQuotas : faithful.

Lemma faithful_enableQuotas (fuel : nat) (flexvol : string) (wait : bool) :
  faithful API (enableQuotas API fuel flexvol wait).
Proof. unfold enableQuotas. genuinely. Qed.
Hint Resolve faithful_enableQuotas : faithful.

Lemma faithful_addDefaultQuotaForFlexvol (fuel : nat) (flexvol : string) :
  faithful API (addDefaultQuotaForFlexvol API fuel flexvol).
Proof. unfold addDefaultQuotaForFlexvol. genuinely. Qed.
Hint Resolve faithful_addDefaultQuotaForFlexvol : faithful.

Lemma faithful_addQuotaForQtree (qtree flexvol : string) (sizeBytes : Z) :
  faithful API (addQuotaForQtree API qtree flexvol sizeBytes).
Proof. unfold addQuotaForQtree. genuinely. Qed.
Hint Resolve faithful_addQuotaForQtree : faithful.

Lemma faithful_getTotalHardDiskLimitQuota (flexvol : string) :
  faithful API (getTotalHardDiskLimitQuota API flexvol).
Proof. unfold getTotalHardDiskLimitQuota. genuinely. Qed.
Hint Resolve faithful_getTotalHardDiskLimitQuota : faithful.

Lemma faithful_getOptimalSizeForFlexvol (flexvol : string) (size : Z) :
  faithful API (getOptimalSizeForFlexvol API ext flexvol size).
Proof. unfold getOptimalSizeForFlexvol. genuinely. Qed.
Hint Resolve faithful_getOptimalSizeForFlexvol : faithful.

Lemma faithful_getFlexvolForQtree_filter (attrs : list VolumeAttributesType)
    (volumes : list string) :
  faithful API (getFlexvolForQtree_filter API attrs volumes).
Proof.
  revert volumes. induction attrs as [|volAttrs rest IH]; intros volumes; simpl; genuinely.
Qed.
Hint Resolve faithful_getFlexvolForQtree_filter : faithful.

Lemma faithful_getFlexvolForQtree (aggregate spaceReserve snapshotPolicy : string)
    (enableSnapshotDir : bool) (encrypt : option bool) :
  faithful API (getFlexvolForQtree API d aggregate spaceReserve snapshotPolicy
                  enableSnapshotDir encrypt).
Proof. unfold getFlexvolForQtree. genuinely. Qed.
Hint Resolve faithful_getFlexvolForQtree : faithful.

Lemma faithful_createFlexvolForQtree (fuel : nat)
    (aggregate spaceReserve snapshotPolicy : string) (enableSnapshotDir : bool)
    (encrypt : option bool) :
  faithful API (createFlexvolForQtree API d fuel aggregate spaceReserve snapshotPolicy
                  enableSnapshotDir encrypt).
Proof. unfold createFlexvolForQtree. genuinely. Qed.
Hint Resolve faithful_createFlexvolForQtree : faithful.

Lemma faithful_ensureFlexvolForQtree (fuel : nat)
    (aggregate spaceReserve snapshotPolicy : string) (enableSnapshotDir : bool)
    (encrypt : option bool) :
  faithful API (ensureFlexvolForQtree API d fuel aggregate spaceReserve snapshotPolicy
                  enableSnapshotDir encrypt).
Proof. unfold ensureFlexvolForQtree. genuinely. Qed.
Hint Resolve faithful_ensureFlexvolForQtree : faithful.

Lemma faithful_deletedQtreeName (name : string) :
  faithful API (deletedQtreeName API name).
Proof. unfold deletedQtreeName. genuinely. Qed.
Hint Resolve faithful_deletedQtreeName : faithful.

Lemma faithful_Create (fuel : nat) (name : string) (sizeBytes : Z)
    (opts : gmap string string) :
  faithful API (Create API ext d fuel name sizeBytes opts).
Proof. unfold Create. genuinely. Qed.

Lemma faithful_Destroy (name : string) : faithful API (Destroy API d name).
Proof. unfold Destroy. genuinely. Qed.

End GenuineRuns.

(** *** The pool selector, against the answers of the appliance *)

Section Selector.
Context {W : Type}.
Variable API : Client W.
Variable d : NASQtreeStorageDriver.

(** The filter counts the qtrees of the listed Flexvols one after the other,
    in the order of the list, and stops at the first count that fails. *)
Lemma getFlexvolForQtree_filter_run (attrs : list VolumeAttributesType) :
  forall (volumes : list string) (s : @State W),
  exists res e s' tr,
    getFlexvolForQtree_filter API attrs volumes s = Ret (res, e) s' /\
    trace s' = trace s ++ tr /\
    quotaResizeMap s' = quotaResizeMap s /\
    forallb count_call tr = true /\
    countedFlexvols tr = take (length tr) (map Name attrs) /\
    match e with
    | None =>
        res = volumes ++ candidates tr /\ enumeration_ok tr = true /\
        countedFlexvols tr = map Name attrs
    | Some msg =>
        res = [] /\
        exists pre volume count e0,
          tr = pre ++ [EvQtreeCount volume count (Some e0)] /\
          enumeration_ok pre = true /\
          msg = "error enumerating qtrees: " +:+ e0
    end.
Proof.
  induction attrs as [|volAttrs rest IH]; intros volumes s; simpl.
  { exists volumes, None, s, []. by rewrite !app_nil_r. }
  unfold bind, API_QtreeCount, rpc.
  destruct (QtreeCount _ API (Name volAttrs) (world s)) as [[count err] w1]; simpl.
  destruct err as [e|].
  { eexists _, _, _, [_]. split; [reflexivity|]. split; [reflexivity|].
    split; [reflexivity|]. split; [reflexivity|]. split; [reflexivity|].
    split; [reflexivity|]. by exists [], (Name volAttrs), count, e. }
  match goal with |- context [getFlexvolForQtree_filter API rest ?v ?s1] =>
    destruct (IH v s1) as (res & e & s' & tr & -> & Htr & Hmap & Hcalls & Hcounted & Hres) end.
  simpl in Htr, Hmap.
  exists res, e, s', (EvQtreeCount (Name volAttrs) count None :: tr).
  split; [reflexivity|]. split; [by rewrite Htr, <- app_assoc|].
  split; [exact Hmap|]. split; [exact Hcalls|].
  split; [simpl; by rewrite Hcounted|].
  destruct e as [e|]; simpl.
  - destruct Hres as (-> & pre & volume & c & e0 & -> & Hpre & ->).
    split; [reflexivity|].
    by exists (EvQtreeCount (Name volAttrs) count None :: pre), volume, c, e0.
  - destruct Hres as (-> & Hok & Hall). split; [|split; [exact Hok|by rewrite Hall]].
    destruct (count <? maxQtreesPerFlexvol); [by rewrite <- app_assoc|reflexivity].
Qed.

(** C4.  [getFlexvolForQtree] lists the Flexvols of the pool with the
    requested attributes and counts the qtrees of the listed Flexvols, in
    the order of the list; every call recorded is answered by the appliance
    as recorded.  It never returns a Flexvol whose qtree count is
    [maxQtreesPerFlexvol] (200) or more: a Flexvol it returns was counted,
    and its count was below the cap.  It returns no error exactly when the
    listing and every count succeeded; then every listed Flexvol was
    counted, and if no Flexvol under the cap remains it returns the empty
    string, if exactly one remains it returns that one, and with several
    the one at the index [rand.Intn] drew.  A failed listing or count ends
    the run at once, with the empty string and the error.  It panics only
    if [rand.Intn] leaves its range, and never stalls. *)
Theorem getFlexvolForQtree_selects (aggregate spaceReserve snapshotPolicy : string)
    (enableSnapshotDir : bool) (encrypt : option bool) (s : State) :
  match getFlexvolForQtree API d aggregate spaceReserve snapshotPolicy
          enableSnapshotDir encrypt s with
  | Ret (flexvol, err) s' =>
      let tr := events_since s s' in
      ((err = None ->
          (flexvol <> "" ->
           exists count, EvQtreeCount flexvol count None ∈ tr /\
                         count < maxQtreesPerFlexvol) /\
          (candidates tr = [] -> flexvol = "") /\
          (forall v, candidates tr = [v] -> flexvol = v) /\
          (candidates tr <> [] -> flexvol ∈ candidates tr)) /\
       (err = None <-> enumeration_ok tr = true)) /\
      genuine API (world s) tr (world s') /\
      quotaResizeMap s' = quotaResizeMap s /\
      exists r listErr counts pick,
        tr = EvVolumeListByAttrs (FlexvolNamePrefix d) aggregate spaceReserve snapshotPolicy
               enableSnapshotDir encrypt r listErr :: counts ++ pick /\
        forallb count_call counts = true /\
        countedFlexvols counts = take (length counts) (map Name (Attributes r)) /\
        match err with
        | None =>
            GetError r listErr = None /\
            enumeration_ok counts = true /\
            countedFlexvols counts = map Name (Attributes r) /\
            candidates tr = candidates counts /\
            match candidates counts with
            | [] => pick = [] /\ flexvol = ""
            | [volume] => pick = [] /\ flexvol = volume
            | volumes =>
                exists k, pick = [EvRandIntn (Z.of_nat (length volumes)) k] /\
                          0 <= k /\ volumes !! Z.to_nat k = Some flexvol
            end
        | Some msg =>
            flexvol = "" /\ pick = [] /\
            match GetError r listErr with
            | Some e => counts = [] /\ msg = "error enumerating Flexvols: " +:+ e
            | None =>
                exists pre volume count e,
                  counts = pre ++ [EvQtreeCount volume count (Some e)] /\
                  enumeration_ok pre = true /\
                  msg = "error enumerating qtrees: " +:+ e
            end
        end
  | Panic => ~ RandIntn_contract API
  | Stall _ => False
  end.
Proof.
  pose proof (getFlexvolForQtree_candidates API d aggregate spaceReserve snapshotPolicy
                enableSnapshotDir encrypt s) as Hold.
  pose proof (faithful_run API _ s
                (faithful_getFlexvolForQtree API d aggregate spaceReserve snapshotPolicy
                   enableSnapshotDir encrypt)) as Hgen.
  destruct (getFlexvolForQtree API d aggregate spaceReserve snapshotPolicy
              enableSnapshotDir encrypt s) as [[flexvol err] s'| |s'] eqn:Hrun;
    [|exact Hold|exact Hold].
  cbv zeta. split; [exact Hold|]. split; [exact Hgen|]. clear Hold Hgen.
  unfold getFlexvolForQtree in Hrun.
  apply bind_Ret in Hrun as ([r listErr] & s1 & Hlist & Hrun).
  unfold API_VolumeListByAttrs in Hlist. apply rpc_Ret in Hlist as (Htr1 & Hmap1 & _).
  destruct (GetError r listErr) as [e|] eqn:Hlisted.
  { apply ret_Ret in Hrun as [[= <- <-] <-]. split; [exact Hmap1|].
    exists r, listErr, [], []. rewrite (events_since_app _ _ _ Htr1), Hlisted. done. }
  apply bind_Ret in Hrun as ([volumes ferr] & s2 & Hfilter & Hrun).
  destruct (getFlexvolForQtree_filter_run (Attributes r) [] s1)
    as (res & e & s2' & counts & Hf & Htr2 & Hmap2 & Hcalls & Hcounted & Hres).
  rewrite Hf in Hfilter. injection Hfilter as <- <- <-.
  destruct e as [e|].
  { apply ret_Ret in Hrun as [[= <- <-] <-]. split; [by rewrite Hmap2|].
    exists r, listErr, counts, []. rewrite app_nil_r.
    split; [apply events_since_app; by rewrite Htr2, Htr1, <- app_assoc|].
    rewrite Hlisted. destruct Hres as (_ & Hres). done. }
  destruct Hres as (Hres & Hok & Hall). simpl in Hres. subst res.
  destruct (candidates counts) as [|v1 [|v2 rest]] eqn:Hcands.
  - apply ret_Ret in Hrun as [[= <- <-] <-]. split; [by rewrite Hmap2|].
    exists r, listErr, counts, []. rewrite app_nil_r.
    split; [apply events_since_app; by rewrite Htr2, Htr1, <- app_assoc|].
    rewrite (events_since_app _ _ (EvVolumeListByAttrs (FlexvolNamePrefix d) aggregate
               spaceReserve snapshotPolicy enableSnapshotDir encrypt r listErr :: counts))
      by (by rewrite Htr2, Htr1, <- app_assoc).
    rewrite Hcands. simpl. by rewrite Hcands.
  - apply ret_Ret in Hrun as [[= <- <-] <-]. split; [by rewrite Hmap2|].
    exists r, listErr, counts, []. rewrite app_nil_r.
    split; [apply events_since_app; by rewrite Htr2, Htr1, <- app_assoc|].
    rewrite (events_since_app _ _ (EvVolumeListByAttrs (FlexvolNamePrefix d) aggregate
               spaceReserve snapshotPolicy enableSnapshotDir encrypt r listErr :: counts))
      by (by rewrite Htr2, Htr1, <- app_assoc).
    rewrite Hcands. simpl. by rewrite Hcands.
  - apply bind_Ret in Hrun as (k & s3 & Hk & Hrun).
    unfold rand_Intn in Hk. apply rpc_Ret in Hk as (Htr3 & Hmap3 & _).
    destruct (k <? 0) eqn:Hneg; [discriminate|].
    destruct ((v1 :: v2 :: rest) !! Z.to_nat k) as [volume|] eqn:Hpick; [|discriminate].
    apply ret_Ret in Hrun as [[= <- <-] <-]. split; [by rewrite Hmap3, Hmap2|].
    exists r, listErr, counts, [EvRandIntn (Z.of_nat (length (v1 :: v2 :: rest))) k].
    assert (Hev : events_since s s3 =
              EvVolumeListByAttrs (FlexvolNamePrefix d) aggregate spaceReserve snapshotPolicy
                enableSnapshotDir encrypt r listErr
              :: counts ++ [EvRandIntn (Z.of_nat (length (v1 :: v2 :: rest))) k]).
    { apply events_since_app. by rewrite Htr3, Htr2, Htr1, <- !app_assoc. }
    rewrite Hev. split; [reflexivity|]. split; [exact Hcalls|]. split; [exact Hcounted|].
    split; [exact Hlisted|]. split; [exact Hok|]. split; [exact Hall|].
    split; [simpl; rewrite candidates_app; simpl; by rewrite app_nil_r|].
    rewrite Hcands.
    exists k. split; [reflexivity|]. split; [|exact Hpick].
    apply Z.ltb_ge in Hneg. exact Hneg.
Qed.

End Selector.

Lemma getFlexvolForQtree_selects_witness :
  match getFlexvolForQtree (Scripted.client Scripted.fanout) (Scripted.driver "trident_")
          "aggr1" "none" "none" false None (Scripted.start []) with
  | Ret (flexvol, err) s' =>
      let tr := events_since (Scripted.start []) s' in
      ((err = None ->
          (flexvol <> "" ->
           exists count, EvQtreeCount flexvol count None ∈ tr /\
                         count < maxQtreesPerFlexvol) /\
          (candidates tr = [] -> flexvol = "") /\
          (forall v, candidates tr = [v] -> flexvol = v) /\
          (candidates tr <> [] -> flexvol ∈ candidates tr)) /\
       (err = None <-> enumeration_ok tr = true)) /\
      genuine (Scripted.client Scripted.fanout) (world (Scripted.start [])) tr (world s') /\
      quotaResizeMap s' = quotaResizeMap (Scripted.start []) /\
      exists r listErr counts pick,
        tr = EvVolumeListByAttrs (FlexvolNamePrefix (Scripted.driver "trident_"))
               "aggr1" "none" "none" false None r listErr :: counts ++ pick /\
        forallb count_call counts = true /\
        countedFlexvols counts = take (length counts) (map Name (Attributes r)) /\
        match err with
        | None =>
            GetError r listErr = None /\
            enumeration_ok counts = true /\
            countedFlexvols counts = map Name (Attributes r) /\
            candidates tr = candidates counts /\
            match candidates counts with
            | [] => pick = [] /\ flexvol = ""
            | [volume] => pick = [] /\ flexvol = volume
            | volumes =>
                exists k, pick = [EvRandIntn (Z.of_nat (length volumes)) k] /\
                          0 <= k /\ volumes !! Z.to_nat k = Some flexvol
            end
        | Some msg =>
            flexvol = "" /\ pick = [] /\
            match GetError r listErr with
            | Some e => counts = [] /\ msg = "error enumerating Flexvols: " +:+ e
            | None =>
                exists pre volume count e,
                  counts = pre ++ [EvQtreeCount volume count (Some e)] /\
                  enumeration_ok pre = true /\
                  msg = "error enumerating qtrees: " +:+ e
            end
        end
  | Panic => ~ RandIntn_contract (Scripted.client Scripted.fanout)
  | Stall _ => False
  end.
Proof.
  exact (getFlexvolForQtree_selects (Scripted.client Scripted.fanout)
           (Scripted.driver "trident_") "aggr1" "none" "none" false None
           (Scripted.start [])).
Defined.

(** *** The quota switch, against the answers of the appliance *)

Section Switch.
Context {W : Type}.
Variable API : Client W.

(** After the first status read and a toggle call that passed (or none), a
    run either returns at once or is its polling loop. *)
Ltac after_toggle wait_fn wait_spec fuel flexvol toggles :=
  match goal with |- context [wait_fn API fuel flexvol ?st ?s1] =>
    let Hwait := fresh "Hwait" in
    pose proof (wait_spec W API fuel flexvol st s1) as Hwait;
    destruct (wait_fn API fuel flexvol st s1) as [e s'| |s'];
    [ destruct Hwait as (tr & o & Htr & Hpoll & Hres); simpl in Htr;
      exists toggles, tr; split; [eauto|];
      split; [apply events_since_app; by rewrite Htr, <- !app_assoc|];
      right; split; [done|]; split; [done|];
      split; [intros ? ? Heq; first [discriminate Heq | by injection Heq as <- <-]|];
      exists o; split; [exact Hpoll|];
      destruct o;
      [ by apply Hres
      | intros He; by apply Hres in He
      | intros He; by apply Hres in He ]
    | done
    | destruct Hwait as (tr & Htr & Hpoll & Hsleeps); simpl in Htr;
      exists toggles, tr; split; [eauto|];
      split; [apply events_since_app; by rewrite Htr, <- !app_assoc|];
      split; [done|]; split; [done|]; split; [done|];
      split; [intros ? ? Heq; first [discriminate Heq | by injection Heq as <- <-]|];
      done ]
  end.

Lemma enableQuotas_run (fuel : nat) (flexvol : string) (wait : bool) (s : @State W) :
  let '(r0, err0, _) := QuotaStatus _ API flexvol (world s) in
  exists toggles tr,
    (if bool_decide (GetError r0 err0 = None) && String.eqb (Attributes r0) "off"
     then exists r err, toggles = [EvQuotaOn flexvol r err]
     else toggles = []) /\
    match enableQuotas API fuel flexvol wait s with
    | Ret e s' =>
        events_since s s' = EvQuotaStatus flexvol r0 err0 :: toggles ++ tr /\
        (((GetError r0 err0 <> None \/ Attributes r0 = "corrupt" \/
           exists r err, toggles = [EvQuotaOn flexvol r err] /\ GetError r err <> None) /\
          tr = [] /\ e <> None) \/
         (GetError r0 err0 = None /\ Attributes r0 <> "corrupt" /\
          (forall r err, toggles = [EvQuotaOn flexvol r err] -> GetError r err = None) /\
          if wait
          then exists o, Polling "on" flexvol (Attributes r0) tr (Some o) /\
                         match o with
                         | Reached => e = None
                         | Corrupt | ReadFailed => e <> None
                         end
          else tr = [] /\ e = None))
    | Stall s' =>
        events_since s s' = EvQuotaStatus flexvol r0 err0 :: toggles ++ tr /\
        wait = true /\
        GetError r0 err0 = None /\ Attributes r0 <> "corrupt" /\
        (forall r err, toggles = [EvQuotaOn flexvol r err] -> GetError r err = None) /\
        Polling "on" flexvol (Attributes r0) tr None /\ sleeps tr = fuel
    | Panic => False
    end.
Proof.
  unfold enableQuotas, bind, getQuotaStatus, API_QuotaStatus, API_QuotaOn, rpc, bind.
  destruct (QuotaStatus _ API flexvol (world s)) as [[r0 err0] w1]; simpl.
  destruct (GetError r0 err0) as [e|] eqn:Herr; simpl.
  { exists [], []. split; [done|]. split; [by apply events_since_app|].
    left. split; [by left|done]. }
  destruct (String.eqb_spec (Attributes r0) "corrupt") as [Hc|Hnc]; simpl.
  { exists [], []. rewrite Hc. simpl. split; [done|].
    split; [by apply events_since_app|]. left. split; [right; by left|done]. }
  destruct (String.eqb_spec (Attributes r0) "off") as [Hoff|Hnoff]; simpl.
  - destruct (QuotaOn _ API flexvol w1) as [[r err] w2]; simpl.
    destruct (GetError r err) as [e|] eqn:Hon; simpl.
    { exists [EvQuotaOn flexvol r err], []. split; [eauto|].
      split; [apply events_since_app; simpl; by rewrite <- app_assoc|].
      left. split; [|done]. right; right. exists r, err. by rewrite Hon. }
    destruct wait.
    2:{ exists [EvQuotaOn flexvol r err], []. split; [eauto|].
        split; [apply events_since_app; simpl; by rewrite <- app_assoc|].
        right. split; [done|]. split; [done|]. split; [|done].
        by intros ? ? [= <- <-]. }
    after_toggle (@enableQuotas_wait W) (@enableQuotas_wait_spec) fuel flexvol
                 [EvQuotaOn flexvol r err].
  - destruct wait.
    2:{ exists [], []. split; [done|]. split; [by apply events_since_app|].
        right. split; [done|]. split; [done|]. split; [|done]. by intros ? ? [=]. }
    after_toggle (@enableQuotas_wait W) (@enableQuotas_wait_spec) fuel flexvol
                 (@nil Event).
Qed.

Lemma disableQuotas_run (fuel : nat) (flexvol : string) (wait : bool) (s : @State W) :
  let '(r0, err0, _) := QuotaStatus _ API flexvol (world s) in
  exists toggles tr,
    (if bool_decide (GetError r0 err0 = None) &&
        negb (String.eqb (Attributes r0) "corrupt") &&
        negb (String.eqb (Attributes r0) "off")
     then exists r err, toggles = [EvQuotaOff flexvol r err]
     else toggles = []) /\
    match disableQuotas API fuel flexvol wait s with
    | Ret e s' =>
        events_since s s' = EvQuotaStatus flexvol r0 err0 :: toggles ++ tr /\
        (((GetError r0 err0 <> None \/ Attributes r0 = "corrupt" \/
           exists r err, toggles = [EvQuotaOff flexvol r err] /\ GetError r err <> None) /\
          tr = [] /\ e <> None) \/
         (GetError r0 err0 = None /\ Attributes r0 <> "corrupt" /\
          (forall r err, toggles = [EvQuotaOff flexvol r err] -> GetError r err = None) /\
          if wait
          then exists o, Polling "off" flexvol (Attributes r0) tr (Some o) /\
                         match o with
                         | Reached => e = None
                         | Corrupt | ReadFailed => e <> None
                         end
          else tr = [] /\ e = None))
    | Stall s' =>
        events_since s s' = EvQuotaStatus flexvol r0 err0 :: toggles ++ tr /\
        wait = true /\
        GetError r0 err0 = None /\ Attributes r0 <> "corrupt" /\
        (forall r err, toggles = [EvQuotaOff flexvol r err] -> GetError r err = None) /\
        Polling "off" flexvol (Attributes r0) tr None /\ sleeps tr = fuel
    | Panic => False
    end.
Proof.
  unfold disableQuotas, bind, getQuotaStatus, API_QuotaStatus, API_QuotaOff, rpc, bind.
  destruct (QuotaStatus _ API flexvol (world s)) as [[r0 err0] w1]; simpl.
  destruct (GetError r0 err0) as [e|] eqn:Herr; simpl.
  { exists [], []. split; [done|]. split; [by apply events_since_app|].
    left. split; [by left|done]. }
  destruct (String.eqb_spec (Attributes r0) "corrupt") as [Hc|Hnc]; simpl.
  { exists [], []. split; [done|].
    split; [by apply events_since_app|]. left. split; [right; by left|done]. }
  destruct (String.eqb_spec (Attributes r0) "off") as [Hoff|Hnoff]; simpl.
  - destruct wait.
    2:{ exists [], []. split; [done|]. split; [by apply events_since_app|].
        right. split; [done|]. split; [done|]. split; [|done]. by intros ? ? [=]. }
    after_toggle (@disableQuotas_wait W) (@disableQuotas_wait_spec) fuel flexvol
                 (@nil Event).
  - destruct (QuotaOff _ API flexvol w1) as [[r err] w2]; simpl.
    destruct (GetError r err) as [e|] eqn:Hon; simpl.
    { exists [EvQuotaOff flexvol r err], []. split; [eauto|].
      split; [apply events_since_app; simpl; by rewrite <- app_assoc|].
      left. split; [|done]. right; right. exists r, err. by rewrite Hon. }
    destruct wait.
    2:{ exists [EvQuotaOff flexvol r err], []. split; [eauto|].
        split; [apply events_since_app; simpl; by rewrite <- app_assoc|].
        right. split; [done|]. split; [done|]. split; [|done].
        by intros ? ? [= <- <-]. }
    after_toggle (@disableQuotas_wait W) (@disableQuotas_wait_spec) fuel flexvol
                 [EvQuotaOff flexvol r err].
Qed.

(** C8, as amended.  [enableQuotas] first reads the quota status, and
    issues [QuotaOn] exactly when that read succeeded with the status
    ["off"]; for any other status it issues nothing.  [disableQuotas]
    issues [QuotaOff] exactly when the status read is neither ["off"] nor
    ["corrupt"].  Every call recorded is answered by the appliance as
    recorded.  A run returns at once, with an error, exactly when the first
    read failed, the status read was ["corrupt"], or the toggle call
    failed.  Otherwise, when no wait is requested nothing follows and the
    run returns nil; when a wait is requested the rest of the run is a
    polling of the status, a one-second sleep before every read, that ends
    with nil when the status is the target (["on"], respectively ["off"])
    and with an error when it is ["corrupt"] or cannot be read.  The model
    stalls only in such a polling, after as many polls as it has fuel, none
    of which ended the loop. *)
Theorem enableQuotas_polls_after_QuotaOn_when_off :
  (forall (fuel : nat) (flexvol : string) (wait : bool) (s : State),
     let '(r0, err0, _) := QuotaStatus _ API flexvol (world s) in
     exists toggles tr,
       (if bool_decide (GetError r0 err0 = None) && String.eqb (Attributes r0) "off"
        then exists r err, toggles = [EvQuotaOn flexvol r err]
        else toggles = []) /\
       match enableQuotas API fuel flexvol wait s with
       | Ret e s' =>
           events_since s s' = EvQuotaStatus flexvol r0 err0 :: toggles ++ tr /\
           genuine API (world s) (events_since s s') (world s') /\
           (((GetError r0 err0 <> None \/ Attributes r0 = "corrupt" \/
              exists r err, toggles = [EvQuotaOn flexvol r err] /\ GetError r err <> None) /\
             tr = [] /\ e <> None) \/
            (GetError r0 err0 = None /\ Attributes r0 <> "corrupt" /\
             (forall r err, toggles = [EvQuotaOn flexvol r err] -> GetError r err = None) /\
             if wait
             then exists o, Polling "on" flexvol (Attributes r0) tr (Some o) /\
                            match o with
                            | Reached => e = None
                            | Corrupt | ReadFailed => e <> None
                            end
             else tr = [] /\ e = None))
       | Stall s' =>
           events_since s s' = EvQuotaStatus flexvol r0 err0 :: toggles ++ tr /\
           genuine API (world s) (events_since s s') (world s') /\
           wait = true /\
           GetError r0 err0 = None /\ Attributes r0 <> "corrupt" /\
           (forall r err, toggles = [EvQuotaOn flexvol r err] -> GetError r err = None) /\
           Polling "on" flexvol (Attributes r0) tr None /\ sleeps tr = fuel
       | Panic => False
       end) /\
  (forall (fuel : nat) (flexvol : string) (wait : bool) (s : State),
     let '(r0, err0, _) := QuotaStatus _ API flexvol (world s) in
     exists toggles tr,
       (if bool_decide (GetError r0 err0 = None) &&
           negb (String.eqb (Attributes r0) "corrupt") &&
           negb (String.eqb (Attributes r0) "off")
        then exists r err, toggles = [EvQuotaOff flexvol r err]
        else toggles = []) /\
       match disableQuotas API fuel flexvol wait s with
       | Ret e s' =>
           events_since s s' = EvQuotaStatus flexvol r0 err0 :: toggles ++ tr /\
           genuine API (world s) (events_since s s') (world s') /\
           (((GetError r0 err0 <> None \/ Attributes r0 = "corrupt" \/
              exists r err, toggles = [EvQuotaOff flexvol r err] /\ GetError r err <> None) /\
             tr = [] /\ e <> None) \/
            (GetError r0 err0 = None /\ Attributes r0 <> "corrupt" /\
             (forall r err, toggles = [EvQuotaOff flexvol r err] -> GetError r err = None) /\
             if wait
             then exists o, Polling "off" flexvol (Attributes r0) tr (Some o) /\
                            match o with
                            | Reached => e = None
                            | Corrupt | ReadFailed => e <> None
                            end
             else tr = [] /\ e = None))
       | Stall s' =>
           events_since s s' = EvQuotaStatus flexvol r0 err0 :: toggles ++ tr /\
           genuine API (world s) (events_since s s') (world s') /\
           wait = true /\
           GetError r0 err0 = None /\ Attributes r0 <> "corrupt" /\
           (forall r err, toggles = [EvQuotaOff flexvol r err] -> GetError r err = None) /\
           Polling "off" flexvol (Attributes r0) tr None /\ sleeps tr = fuel
       | Panic => False
       end).
Proof.
  split; intros fuel flexvol wait s.
  - pose proof (enableQuotas_run fuel flexvol wait s) as Hrun.
    pose proof (faithful_run API _ s (faithful_enableQuotas API fuel flexvol wait)) as Hgen.
    destruct (QuotaStatus _ API flexvol (world s)) as [[r0 err0] w1].
    destruct Hrun as (toggles & tr & Htoggles & Hrun). exists toggles, tr.
    split; [exact Htoggles|].
    destruct (enableQuotas API fuel flexvol wait s) as [e s'| |s']; [|done|].
    + destruct Hrun as [Hev Hrest]. done.
    + destruct Hrun as [Hev Hrest]. done.
  - pose proof (disableQuotas_run fuel flexvol wait s) as Hrun.
    pose proof (faithful_run API _ s (faithful_disableQuotas API fuel flexvol wait)) as Hgen.
    destruct (QuotaStatus _ API flexvol (world s)) as [[r0 err0] w1].
    destruct Hrun as (toggles & tr & Htoggles & Hrun). exists toggles, tr.
    split; [exact Htoggles|].
    destruct (disableQuotas API fuel flexvol wait s) as [e s'| |s']; [|done|].
    + destruct Hrun as [Hev Hrest]. done.
    + destruct Hrun as [Hev Hrest]. done.
Qed.

End Switch.

(** *** What a run leaves alone *)

Create HintDb frame.

Section Frames.
Context {W : Type}.
Variable API : Client W.
Variable HK : housekeeping.Client W.
Variable ext : Externals.
Variable d : NASQtreeStorageDriver.

Lemma keeps_resize_set_ret {A} (a : A) : keeps_resize_set (@ret W A a).
Proof. intros s. simpl. split; [reflexivity|]. exists []. by rewrite app_nil_r. Qed.

Lemma keeps_resize_set_panic {A} : keeps_resize_set (@panic W A).
Proof. by intros s. Qed.

Lemma keeps_resize_set_stall {A} : keeps_resize_set (@stall W A).
Proof. intros s. simpl. split; [reflexivity|]. exists []. by rewrite app_nil_r. Qed.

Lemma keeps_resize_set_rpc {A} (f : W -> A * W) (ev : A -> Event) :
  keeps_resize_set (rpc f ev).
Proof.
  intros s. unfold rpc. destruct (f (world s)) as [a w]. simpl.
  split; [reflexivity|]. by eexists.
Qed.

Lemma keeps_resize_set_untraced {A} (f : W -> A * W) : keeps_resize_set (untraced f).
Proof.
  intros s. unfold untraced. destruct (f (world s)) as [a w]. simpl.
  split; [reflexivity|]. exists []. by rewrite app_nil_r.
Qed.

Lemma keeps_resize_set_bind {A B} (m : @M W A) (k : A -> @M W B) :
  keeps_resize_set m -> (forall a, keeps_resize_set (k a)) -> keeps_resize_set (bind m k).
Proof.
  intros Hm Hk s. unfold bind. specialize (Hm s).
  destruct (m s) as [a s1| |s1]; [|done|exact Hm].
  destruct Hm as [Hmap [tr Htr]]. specialize (Hk a s1).
  destruct (k a s1) as [b s2| |s2]; [|done|].
  - destruct Hk as [Hmap' [tr' Htr']]. split; [congruence|].
    exists (tr ++ tr'). by rewrite Htr', Htr, app_assoc.
  - destruct Hk as [Hmap' [tr' Htr']]. split; [congruence|].
    exists (tr ++ tr'). by rewrite Htr', Htr, app_assoc.
Qed.

Lemma grows_resize_set_keeps {A} (m : @M W A) : keeps_resize_set m -> grows_resize_set m.
Proof.
  intros Hm s. specialize (Hm s).
  destruct (m s) as [a s1| |s1]; [|done|]; destruct Hm as [-> Htr]; done.
Qed.

Lemma grows_resize_set_bind {A B} (m : @M W A) (k : A -> @M W B) :
  grows_resize_set m -> (forall a, grows_resize_set (k a)) -> grows_resize_set (bind m k).
Proof.
  intros Hm Hk s. unfold bind. specialize (Hm s).
  destruct (m s) as [a s1| |s1]; [|done|exact Hm].
  destruct Hm as [Hmap [tr Htr]]. specialize (Hk a s1).
  destruct (k a s1) as [b s2| |s2]; [|done|].
  - destruct Hk as [Hmap' [tr' Htr']]. split; [by auto|].
    exists (tr ++ tr'). by rewrite Htr', Htr, app_assoc.
  - destruct Hk as [Hmap' [tr' Htr']]. split; [by auto|].
    exists (tr ++ tr'). by rewrite Htr', Htr, app_assoc.
Qed.

Lemma grows_resize_set_markForResize (flexvol : string) :
  grows_resize_set (@markForResize W flexvol).
Proof.
  intros s. simpl. split; [|exists []; by rewrite app_nil_r].
  intros F HF. destruct (decide (flexvol = F)) as [->|Hne].
  - apply lookup_insert_eq.
  - by rewrite lookup_insert_ne.
Qed.

(** One step of a proof that a method keeps the Quota Resize Set: through
    a bind, a call, a return, or a case distinction of the method. *)
Ltac frame_step :=
  first
    [ apply keeps_resize_set_ret
    | apply keeps_resize_set_panic
    | apply keeps_resize_set_stall
    | apply keeps_resize_set_rpc
    | apply keeps_resize_set_untraced
    | solve [auto with frame]
    | apply keeps_resize_set_bind; [|intros ?]
    | match goal with
      | |- keeps_resize_set (match ?x with _ => _ end) => destruct x
      | |- keeps_resize_set (let (_, _) := ?x in _) => destruct x
      | |- keeps_resize_set (if ?x then _ else _) => destruct x
      end ].

Ltac frame :=
  unfold API_QtreeExists, API_VolumeListByAttrs, API_QtreeCount, API_VolumeCreate,
    API_VolumeDisableSnapshotDirectoryAccess, API_VolumeMount, API_VolumeDestroy,
    API_VolumeGet, API_SetVolumeSize, API_QtreeCreate, API_QtreeRename,
    API_QtreeDestroyAsync, API_QtreeList, API_QuotaSetEntry, API_QuotaStatus,
    API_QuotaOn, API_QuotaOff, API_QuotaResize, API_QuotaEntryList,
    call_ValidateEncryptionAttribute, call_UpdateLoadSharingMirrors, call_MountVolume,
    call_UnmountVolume, time_Sleep, utils_RandomString, rand_Intn, rpc_, API_VolumeList;
  repeat frame_step.

Lemma keeps_getQuotaStatus (flexvol : string) :
  keeps_resize_set (getQuotaStatus API flexvol).
Proof. unfold getQuotaStatus. frame. Qed.
Hint Resolve keeps_getQuotaStatus : frame.

Lemma keeps_disableQuotas_wait (fuel : nat) (flexvol status : string) :
  keeps_resize_set (disableQuotas_wait API fuel flexvol status).
Proof.
  revert status. induction fuel as [|fuel IH]; intros status; simpl; frame.
Qed.
Hint Resolve keeps_disableQuotas_wait : frame.

Lemma keeps_enableQuotas_wait (fuel : nat) (flexvol status : string) :
  keeps_resize_set (enableQuotas_wait API fuel flexvol status).
Proof.
  revert status. induction fuel as [|fuel IH]; intros status; simpl; frame.
Qed.
Hint Resolve keeps_enableQuotas_wait : frame.

Lemma keeps_disableQuotas (fuel : nat) (flexvol : string) (wait : bool) :
  keeps_resize_set (disableQuotas API fuel flexvol wait).
Proof. unfold disableQuotas. frame. Qed.
Hint Resolve keeps_disableQuotas : frame.

Lemma keeps_enableQuotas (fuel : nat) (flexvol : string) (wait : bool) :
  keeps_resize_set (enableQuotas API fuel flexvol wait).
Proof. unfold enableQuotas. frame. Qed.
Hint Resolve keeps_enableQuotas : frame.

Lemma keeps_addDefaultQuotaForFlexvol (fuel : nat) (flexvol : string) :
  keeps_resize_set (addDefaultQuotaForFlexvol API fuel flexvol).
Proof. unfold addDefaultQuotaForFlexvol. frame. Qed.
Hint Resolve keeps_addDefaultQuotaForFlexvol : frame.

Lemma keeps_getTotalHardDiskLimitQuota (flexvol : string) :
  keeps_resize_set (getTotalHardDiskLimitQuota API flexvol).
Proof. unfold getTotalHardDiskLimitQuota. frame. Qed.
Hint Resolve keeps_getTotalHardDiskLimitQuota : frame.

Lemma keeps_getOptimalSizeForFlexvol (flexvol : string) (size : Z) :
  keeps_resize_set (getOptimalSizeForFlexvol API ext flexvol size).
Proof. unfold getOptimalSizeForFlexvol. frame. Qed.
Hint Resolve keeps_getOptimalSizeForFlexvol : frame.

Lemma keeps_getFlexvolForQtree_filter (attrs : list VolumeAttributesType)
    (volumes : list string) :
  keeps_resize_set (getFlexvolForQtree_filter API attrs volumes).
Proof.
  revert volumes. induction attrs as [|volAttrs rest IH]; intros volumes; simpl; frame.
Qed.
Hint Resolve keeps_getFlexvolForQtree_filter : frame.

Lemma keeps_getFlexvolForQtree (aggregate spaceReserve snapshotPolicy : string)
    (enableSnapshotDir : bool) (encrypt : option bool) :
  keeps_resize_set (getFlexvolForQtree API d aggregate spaceReserve snapshotPolicy
                      enableSnapshotDir encrypt).
Proof. unfold getFlexvolForQtree. frame. Qed.
Hint Resolve keeps_getFlexvolForQtree : frame.

Lemma keeps_createFlexvolForQtree (fuel : nat) (aggregate spaceReserve snapshotPolicy : string)
    (enableSnapshotDir : bool) (encrypt : option bool) :
  keeps_resize_set (createFlexvolForQtree API d fuel aggregate spaceReserve snapshotPolicy
                      enableSnapshotDir encrypt).
Proof. unfold createFlexvolForQtree. frame. Qed.
Hint Resolve keeps_createFlexvolForQtree : frame.

Lemma keeps_ensureFlexvolForQtree (fuel : nat) (aggregate spaceReserve snapshotPolicy : string)
    (enableSnapshotDir : bool) (encrypt : option bool) :
  keeps_resize_set (ensureFlexvolForQtree API d fuel aggregate spaceReserve snapshotPolicy
                      enableSnapshotDir encrypt).
Proof. unfold ensureFlexvolForQtree. frame. Qed.
Hint Resolve keeps_ensureFlexvolForQtree : frame.

Lemma keeps_deletedQtreeName (name : string) :
  keeps_resize_set (deletedQtreeName API name).
Proof. unfold deletedQtreeName. frame. Qed.
Hint Resolve keeps_deletedQtreeName : frame.

Lemma keeps_Destroy (name : string) : keeps_resize_set (Destroy API d name).
Proof. unfold Destroy. frame. Qed.

Lemma keeps_Attach (name mountpoint : string) (opts : gmap string string) :
  keeps_resize_set (Attach API d name mountpoint opts).
Proof. unfold Attach. frame. Qed.

Lemma keeps_Detach (name mountpoint : string) :
  keeps_resize_set (Detach API d name mountpoint).
Proof. unfold Detach. frame. Qed.

Lemma keeps_List : keeps_resize_set (List API d).
Proof. unfold List. frame. Qed.

Lemma keeps_Get (name : string) : keeps_resize_set (Get API d name).
Proof. unfold Get. frame. Qed.

Lemma keeps_CreateFollowup (volConfig : storage.VolumeConfig) :
  keeps_resize_set (CreateFollowup API d volConfig).
Proof. unfold CreateFollowup. frame. Qed.

Lemma keeps_pruneUnusedFlexvols_range (flexvols : list string) :
  keeps_resize_set (pruneUnusedFlexvols_range API flexvols).
Proof. induction flexvols as [|flexvol rest IH]; simpl; frame. Qed.
Hint Resolve keeps_pruneUnusedFlexvols_range : frame.

Lemma keeps_pruneUnusedFlexvols : keeps_resize_set (pruneUnusedFlexvols API HK d).
Proof. unfold pruneUnusedFlexvols. frame. Qed.

Lemma keeps_reapDeletedQtrees_range (qtrees : list QtreeInfoType) :
  keeps_resize_set (reapDeletedQtrees_range API qtrees).
Proof. induction qtrees as [|qtree rest IH]; simpl; frame. Qed.
Hint Resolve keeps_reapDeletedQtrees_range : frame.

Lemma keeps_reapDeletedQtrees : keeps_resize_set (reapDeletedQtrees API d).
Proof. unfold reapDeletedQtrees. frame. Qed.

Lemma grows_addQuotaForQtree (qtree flexvol : string) (sizeBytes : Z) :
  grows_resize_set (addQuotaForQtree API qtree flexvol sizeBytes).
Proof.
  unfold addQuotaForQtree.
  apply grows_resize_set_bind; [apply grows_resize_set_keeps; frame|].
  intros [response err]. destruct (GetError response err).
  - apply grows_resize_set_keeps; frame.
  - apply grows_resize_set_bind; [apply grows_resize_set_markForResize|].
    intros _. apply grows_resize_set_keeps; frame.
Qed.

(** One step of a proof that a method takes no flag out of the set. *)
Ltac grow_step :=
  first
    [ apply grows_addQuotaForQtree
    | apply grows_resize_set_markForResize
    | solve [apply grows_resize_set_keeps; frame]
    | apply grows_resize_set_bind; [|intros ?]
    | match goal with
      | |- grows_resize_set (match ?x with _ => _ end) => destruct x
      | |- grows_resize_set (let (_, _) := ?x in _) => destruct x
      | |- grows_resize_set (if ?x then _ else _) => destruct x
      end ].

Lemma grows_Create (fuel : nat) (name : string) (sizeBytes : Z) (opts : gmap string string) :
  grows_resize_set (Create API ext d fuel name sizeBytes opts).
Proof. unfold Create. repeat grow_step. Qed.

Lemma grows_queueAllFlexvolsForQuotaResize_range (attrs : list VolumeAttributesType) :
  grows_resize_set (@queueAllFlexvolsForQuotaResize_range W attrs).
Proof. induction attrs as [|volAttrs rest IH]; simpl; repeat grow_step. exact IH. Qed.

Lemma grows_queueAllFlexvolsForQuotaResize :
  grows_resize_set (queueAllFlexvolsForQuotaResize HK d).
Proof.
  unfold queueAllFlexvolsForQuotaResize.
  apply grows_resize_set_bind; [apply grows_resize_set_keeps; frame|].
  intros [r err]. apply grows_queueAllFlexvolsForQuotaResize_range.
Qed.

(** The resize sweep puts nothing into the set, and calls nothing but
    [QuotaResize]. *)
Lemma resizeQuotas_range_shrinks (entries : list (string * bool)) (s : @State W) :
  exists s' tr,
    resizeQuotas_range API ext entries s = Ret tt s' /\
    trace s' = trace s ++ tr /\
    quotaResizeMap s' ⊆ quotaResizeMap s /\
    resizedFlexvols tr = (filter (fun e => e.2 = true) entries).*1 /\
    Forall (fun ev => exists flexvol r err, ev = EvQuotaResize flexvol r err) tr.
Proof.
  revert s. induction entries as [|[flexvol resize] rest IH]; intros s.
  { exists s, []. simpl. by rewrite app_nil_r. }
  simpl. unfold bind.
  destruct (resizeQuotas_entry_spec API ext flexvol resize s) as (s1 & -> & Hentry).
  destruct (IH s1) as (s' & tr & -> & Htr & Hsub & Hres & Hall).
  destruct resize.
  - destruct Hentry as (r & err & Htr1 & Hmap1).
    exists s', (EvQuotaResize flexvol r err :: tr).
    split; [reflexivity|]. split; [by rewrite Htr, Htr1, <- app_assoc|].
    split; [|split].
    + etransitivity; [exact Hsub|]. rewrite Hmap1.
      destruct (resize_settled ext r err); [apply delete_subseteq|reflexivity].
    + rewrite filter_cons_True by done. simpl. by rewrite Hres.
    + constructor; [eauto|exact Hall].
  - subst s1. exists s', tr. split; [reflexivity|]. split; [exact Htr|].
    split; [exact Hsub|]. split; [|exact Hall].
    rewrite filter_cons_False by (simpl; discriminate). exact Hres.
Qed.

End Frames.

Section Provisioning.
Context {W : Type}.
Variable API : Client W.
Variable HK : housekeeping.Client W.
Variable ext : Externals.
Variable d : NASQtreeStorageDriver.

(** X3.  [Destroy], [List], [Get], [Attach], [Detach], [CreateFollowup], the
    pruner and the reaper leave the Quota Resize Set exactly as they found
    it, and only append to the trace. *)
Theorem reads_and_deletes_keep_resize_set (name mountpoint : string)
    (opts : gmap string string) (volConfig : storage.VolumeConfig) :
  keeps_resize_set (Destroy API d name) /\
  keeps_resize_set (List API d) /\
  keeps_resize_set (Get API d name) /\
  keeps_resize_set (Attach API d name mountpoint opts) /\
  keeps_resize_set (Detach API d name mountpoint) /\
  keeps_resize_set (CreateFollowup API d volConfig) /\
  keeps_resize_set (pruneUnusedFlexvols API HK d) /\
  keeps_resize_set (reapDeletedQtrees API d).
Proof.
  repeat split.
  - apply keeps_Destroy.
  - apply keeps_List.
  - apply keeps_Get.
  - apply keeps_Attach.
  - apply keeps_Detach.
  - apply keeps_CreateFollowup.
  - apply keeps_pruneUnusedFlexvols.
  - apply keeps_reapDeletedQtrees.
Qed.

(** X4.  [Create] and the requeue at start-up take no flag out of the
    Quota Resize Set, whatever they return. *)
Theorem Create_and_requeue_only_flag (fuel : nat) (name : string) (sizeBytes : Z)
    (opts : gmap string string) :
  grows_resize_set (Create API ext d fuel name sizeBytes opts) /\
  grows_resize_set (queueAllFlexvolsForQuotaResize HK d).
Proof. split; [apply grows_Create|apply grows_queueAllFlexvolsForQuotaResize]. Qed.

(** X5.  An error of [Create] other than the generic ["volume creation
    failed"] is returned before anything was changed: the calls made up to
    there are lookups, and the Quota Resize Set is as it was. *)
Theorem Create_specific_errors_change_nothing (fuel : nat) (name : string)
    (sizeBytes : Z) (opts : gmap string string) (s s' : State) (msg : string) :
  Create API ext d fuel name sizeBytes opts s = Ret (Some msg) s' ->
  msg = "volume creation failed" \/
  (Forall (fun ev => mutating ev = false) (events_since s s') /\
   quotaResizeMap s' = quotaResizeMap s).
Proof.
  unfold Create, bind, API_QtreeExists, call_ValidateEncryptionAttribute, rpc.
  intros H.
  destruct (QtreeExists _ API name (FlexvolNamePrefix d) (world s))
    as [[[found existsInFlexvol] lookupErr] w1]. simpl in H.
  assert (Hearly : forall e w,
            Ret e {| world := w; quotaResizeMap := quotaResizeMap s;
                     trace := trace s ++
                       [EvQtreeExists name (FlexvolNamePrefix d) found existsInFlexvol
                          lookupErr] |} = Ret (Some msg) s' ->
            Forall (fun ev => mutating ev = false) (events_since s s') /\
            quotaResizeMap s' = quotaResizeMap s).
  { intros e w [= _ <-]. rewrite events_since_mk. split; [|reflexivity].
    by repeat constructor. }
  destruct lookupErr as [e|]; [left; by injection H as <-|].
  destruct found; [right; eapply Hearly, H|].
  destruct (sizeBytes <? MinimumVolumeSizeBytes ext); [right; eapply Hearly, H|].
  destruct (maxQtreeNameLength <? len name); [right; eapply Hearly, H|].
  destruct (Strconv.ParseBool _) as [enableSnapshotDir [e|]]; [right; eapply Hearly, H|].
  destruct (ValidateEncryptionAttribute _ API _ _) as [[encrypt verr] w2]. simpl in H.
  destruct verr as [e|].
  { right. injection H as _ <-. erewrite events_since_app by (simpl; by rewrite <- app_assoc).
    split; [|reflexivity]. by repeat constructor. }
  left.
  destruct (ensureFlexvolForQtree API d fuel _ _ _ _ _ _)
    as [[flexvol [e|]] s3| |]; try discriminate; [by injection H as <-|].
  destruct (getOptimalSizeForFlexvol API ext flexvol sizeBytes s3)
    as [[flexvolSizeBytes sizeErr] s4| |]; try discriminate.
  destruct sizeErr as [e|]; unfold bind in H;
    (destruct (API_SetVolumeSize API flexvol _ s4) as [[resizeResponse err] s5| |];
       try discriminate;
     unfold ret in H at 1; destruct (GetError resizeResponse err);
       [by injection H as <-|];
     destruct (API_QtreeCreate API name flexvol _ _ _ s5)
       as [[qtreeResponse qerr] s6| |]; try discriminate;
     destruct (GetError qtreeResponse qerr); [by injection H as <-|];
     destruct (addQuotaForQtree API name flexvol sizeBytes s6) as [e' s7| |];
       discriminate).
Qed.

End Provisioning.

(** A request for less than the minimum size is refused with its own
    message, and nothing was changed. *)
Lemma Create_specific_errors_change_nothing_witness :
  exists msg s',
    Create (Scripted.client Scripted.healthy) Scripted.ext (Scripted.driver "trident_")
           0 "trident_vol1" 1024 ∅ (Scripted.start []) = Ret (Some msg) s' /\
    (msg = "volume creation failed" \/
     (Forall (fun ev => mutating ev = false) (events_since (Scripted.start []) s') /\
      quotaResizeMap s' = quotaResizeMap (Scripted.start []))).
Proof.
  eexists. eexists. split; [vm_compute; reflexivity|].
  apply (Create_specific_errors_change_nothing (Scripted.client Scripted.healthy)
           Scripted.ext (Scripted.driver "trident_") 0 "trident_vol1" 1024 ∅).
  vm_compute. reflexivity.
Defined.

Section Creating.
Context {W : Type}.
Variable API : Client W.
Variable ext : Externals.
Variable d : NASQtreeStorageDriver.

(** X6.  What a successful [Create] has done.  When [Create] returns nil,
    the lookup answered that the name is not taken, the size was at least
    the minimum and the name at most 64 bytes long, the snapshot directory
    option parsed and the encryption option was accepted.  The Flexvol it
    then works on is the one [ensureFlexvolForQtree] returned for the
    attributes of the request, and the size it asks for is the one
    [getOptimalSizeForFlexvol] computed for that Flexvol (the size of the
    request as an increment when that failed).  Its last three calls are the
    resize of that Flexvol, which passed, the creation of the qtree [name]
    in it with the permissions, export policy and security style of the
    request (or the defaults of the driver), which passed, and the tree
    quota rule for [/vol/<Flexvol>/<name>] with the size in whole KiB.
    Every call recorded is answered by the appliance as recorded.  The
    Flexvol is flagged for a quota resize exactly when that rule was
    accepted; otherwise the Quota Resize Set is as it was. *)
Theorem Create_success_means (fuel : nat) (name : string) (sizeBytes : Z)
    (opts : gmap string string) (s s' : State) :
  Create API ext d fuel name sizeBytes opts s = Ret None s' ->
  MinimumVolumeSizeBytes ext <= sizeBytes /\
  len name <= maxQtreeNameLength /\
  genuine API (world s) (events_since s s') (world s') /\
  exists existsInFlexvol enableSnapshotDir encrypt s1 s2 flexvol s3
         flexvolSizeBytes sizeErr s4 r1 e1 r2 e2 r3 e3,
    API_QtreeExists API name (FlexvolNamePrefix d) s
      = Ret (false, existsInFlexvol, None) s1 /\
    Strconv.ParseBool (GetV opts "snapshotDir" (drivers.SnapshotDir (Config d)))
      = (enableSnapshotDir, None) /\
    call_ValidateEncryptionAttribute API
      (GetV opts "encryption" (drivers.Encryption (Config d))) s1
      = Ret (encrypt, None) s2 /\
    ensureFlexvolForQtree API d fuel
      (GetV opts "aggregate" (drivers.Aggregate (Config d)))
      (GetV opts "spaceReserve" (drivers.SpaceReserve (Config d)))
      (GetV opts "snapshotPolicy" (drivers.SnapshotPolicy (Config d)))
      enableSnapshotDir encrypt s2 = Ret (flexvol, None) s3 /\
    getOptimalSizeForFlexvol API ext flexvol sizeBytes s3
      = Ret (flexvolSizeBytes, sizeErr) s4 /\
    events_since s s' =
      EvQtreeExists name (FlexvolNamePrefix d) false existsInFlexvol None ::
      EvValidateEncryptionAttribute
        (GetV opts "encryption" (drivers.Encryption (Config d))) encrypt None ::
      events_since s2 s3 ++ events_since s3 s4 ++
      [EvSetVolumeSize flexvol
         match sizeErr with
         | Some _ => "+" +:+ Strconv.FormatUint sizeBytes
         | None => Strconv.FormatUint flexvolSizeBytes
         end r1 e1;
       EvQtreeCreate name flexvol
         (GetV opts "unixPermissions" (drivers.UnixPermissions (Config d)))
         (GetV opts "exportPolicy" (drivers.ExportPolicy (Config d)))
         (GetV opts "securityStyle" (drivers.SecurityStyle (Config d))) r2 e2;
       EvQuotaSetEntry "" flexvol ("/vol/" +:+ flexvol +:+ "/" +:+ name) "tree"
         (Strconv.FormatUint (sizeBytes / 1024)) r3 e3] /\
    GetError r1 e1 = None /\
    GetError r2 e2 = None /\
    quotaResizeMap s' = match GetError r3 e3 with
                        | None => <[flexvol := true]> (quotaResizeMap s)
                        | Some _ => quotaResizeMap s
                        end.
Proof.
  intros H.
  pose proof (faithful_Ret API _ _ _ _ (faithful_Create API ext d fuel name sizeBytes opts) H)
    as Hgen.
  unfold Create in H.
  apply bind_Ret in H as ([[found existsInFlexvol] lookupErr] & s1 & Hlookup & H).
  pose proof Hlookup as Hlooked.
  apply rpc_Ret in Hlookup as (Hs1 & Hm1 & _). simpl in Hs1.
  destruct lookupErr as [e|]; [by apply ret_Ret in H as [? _]|].
  destruct found; [by apply ret_Ret in H as [? _]|].
  destruct (Z.ltb_spec sizeBytes (MinimumVolumeSizeBytes ext)) as [|Hsize];
    [by apply ret_Ret in H as [? _]|].
  destruct (Z.ltb_spec maxQtreeNameLength (len name)) as [|Hname];
    [by apply ret_Ret in H as [? _]|].
  split; [exact Hsize|]. split; [exact Hname|]. split; [exact Hgen|]. clear Hgen.
  destruct (Strconv.ParseBool _) as [enableSnapshotDir [e|]] eqn:Hparsed;
    [by apply ret_Ret in H as [? _]|].
  apply bind_Ret in H as ([encrypt verr] & s2 & Hvalidate & H).
  pose proof Hvalidate as Hvalidated.
  apply rpc_Ret in Hvalidate as (Hs2 & Hm2 & _). simpl in Hs2.
  destruct verr as [e|]; [by apply ret_Ret in H as [? _]|].
  apply bind_Ret in H as ([flexvol ferr] & s3 & Hensure & H).
  pose proof Hensure as Hensured.
  apply (keeps_Ret _ _ _ _ (keeps_ensureFlexvolForQtree API d _ _ _ _ _ _)) in Hensure
    as (Hm3 & tr3 & Hs3).
  destruct ferr as [e|]; [by apply ret_Ret in H as [? _]|].
  apply bind_Ret in H as ([flexvolSizeBytes serr] & s4 & Hoptimal & H).
  pose proof Hoptimal as Hsized4.
  apply (keeps_Ret _ _ _ _ (keeps_getOptimalSizeForFlexvol API ext _ _)) in Hoptimal
    as (Hm4 & tr4 & Hs4).
  apply bind_Ret in H as (resizeErr & s5 & Hresize & H).
  assert (Hsized : exists r1 e1,
            trace s5 = trace s4 ++
              [EvSetVolumeSize flexvol
                 match serr with
                 | Some _ => "+" +:+ Strconv.FormatUint sizeBytes
                 | None => Strconv.FormatUint flexvolSizeBytes
                 end r1 e1] /\
            quotaResizeMap s5 = quotaResizeMap s4 /\ resizeErr = GetError r1 e1).
  { destruct serr as [e|];
      apply bind_Ret in Hresize as ([r1 e1] & s4' & Hcall & Hresize);
      apply rpc_Ret in Hcall as (Hs4' & Hm4' & _);
      apply ret_Ret in Hresize as [<- <-]; eauto 10. }
  destruct Hsized as (r1 & e1 & Hs5 & Hm5 & ->). clear Hresize.
  destruct (GetError r1 e1) as [e|] eqn:Hresized; [by apply ret_Ret in H as [? _]|].
  apply bind_Ret in H as ([r2 e2] & s6 & Hqtree & H).
  apply rpc_Ret in Hqtree as (Hs6 & Hm6 & _). simpl in Hs6.
  destruct (GetError r2 e2) as [e|] eqn:Hcreated; [by apply ret_Ret in H as [? _]|].
  apply bind_Ret in H as (quotaErr & s7 & Hquota & H).
  apply ret_Ret in H as [_ <-].
  destruct (addQuotaForQtree_spec API name flexvol sizeBytes s6)
    as (e' & s7' & r3 & e3 & Hrun & Hs7 & _ & Hm7).
  rewrite Hrun in Hquota. injection Hquota as <- <-.
  exists existsInFlexvol, enableSnapshotDir, encrypt, s1, s2, flexvol, s3,
    flexvolSizeBytes, serr, s4, r1, e1, r2, e2, r3, e3.
  split; [exact Hlooked|]. split; [reflexivity|]. split; [exact Hvalidated|].
  split; [exact Hensured|]. split; [exact Hsized4|].
  split.
  { rewrite (events_since_app _ _ _ Hs3), (events_since_app _ _ _ Hs4).
    apply events_since_app.
    rewrite Hs7, Hs6, Hs5, Hs4, Hs3, Hs2, Hs1, <- !app_assoc. simpl.
    by rewrite <- ?app_assoc. }
  split; [exact Hresized|]. split; [exact Hcreated|].
  rewrite Hm7, Hm6, Hm5, Hm4, Hm3, Hm2, Hm1. reflexivity.
Qed.

End Creating.

(** A creation that succeeds on the scripted appliance. *)
Lemma Create_success_means_witness :
  exists s',
    Create (Scripted.client Scripted.healthy) Scripted.ext (Scripted.driver "trident_")
           0 "trident_vol1" 1073741824 ∅ (Scripted.start []) = Ret None s' /\
    MinimumVolumeSizeBytes Scripted.ext <= 1073741824 /\
    len "trident_vol1" <= maxQtreeNameLength /\
    genuine (Scripted.client Scripted.healthy) (world (Scripted.start []))
      (events_since (Scripted.start []) s') (world s') /\
    exists existsInFlexvol enableSnapshotDir encrypt s1 s2 flexvol s3
           flexvolSizeBytes sizeErr s4 r1 e1 r2 e2 r3 e3,
      API_QtreeExists (Scripted.client Scripted.healthy) "trident_vol1"
        (FlexvolNamePrefix (Scripted.driver "trident_")) (Scripted.start [])
        = Ret (false, existsInFlexvol, None) s1 /\
      Strconv.ParseBool
        (GetV ∅ "snapshotDir" (drivers.SnapshotDir (Config (Scripted.driver "trident_"))))
        = (enableSnapshotDir, None) /\
      call_ValidateEncryptionAttribute (Scripted.client Scripted.healthy)
        (GetV ∅ "encryption" (drivers.Encryption (Config (Scripted.driver "trident_")))) s1
        = Ret (encrypt, None) s2 /\
      ensureFlexvolForQtree (Scripted.client Scripted.healthy) (Scripted.driver "trident_") 0
        (GetV ∅ "aggregate" (drivers.Aggregate (Config (Scripted.driver "trident_"))))
        (GetV ∅ "spaceReserve" (drivers.SpaceReserve (Config (Scripted.driver "trident_"))))
        (GetV ∅ "snapshotPolicy"
           (drivers.SnapshotPolicy (Config (Scripted.driver "trident_"))))
        enableSnapshotDir encrypt s2 = Ret (flexvol, None) s3 /\
      getOptimalSizeForFlexvol (Scripted.client Scripted.healthy) Scripted.ext flexvol
        1073741824 s3 = Ret (flexvolSizeBytes, sizeErr) s4 /\
      events_since (Scripted.start []) s' =
        EvQtreeExists "trident_vol1" (FlexvolNamePrefix (Scripted.driver "trident_")) false
          existsInFlexvol None ::
        EvValidateEncryptionAttribute
          (GetV ∅ "encryption" (drivers.Encryption (Config (Scripted.driver "trident_"))))
          encrypt None ::
        events_since s2 s3 ++ events_since s3 s4 ++
        [EvSetVolumeSize flexvol
           match sizeErr with
           | Some _ => "+" +:+ Strconv.FormatUint 1073741824
           | None => Strconv.FormatUint flexvolSizeBytes
           end r1 e1;
         EvQtreeCreate "trident_vol1" flexvol
           (GetV ∅ "unixPermissions"
              (drivers.UnixPermissions (Config (Scripted.driver "trident_"))))
           (GetV ∅ "exportPolicy"
              (drivers.ExportPolicy (Config (Scripted.driver "trident_"))))
           (GetV ∅ "securityStyle"
              (drivers.SecurityStyle (Config (Scripted.driver "trident_")))) r2 e2;
         EvQuotaSetEntry "" flexvol ("/vol/" +:+ flexvol +:+ "/" +:+ "trident_vol1") "tree"
           (Strconv.FormatUint (1073741824 / 1024)) r3 e3] /\
      GetError r1 e1 = None /\
      GetError r2 e2 = None /\
      quotaResizeMap s' = match GetError r3 e3 with
                          | None => <[flexvol := true]> (quotaResizeMap (Scripted.start []))
                          | Some _ => quotaResizeMap (Scripted.start [])
                          end.
Proof.
  eexists. split; [vm_compute; reflexivity|].
  apply (Create_success_means (Scripted.client Scripted.healthy) Scripted.ext
           (Scripted.driver "trident_") 0 "trident_vol1" 1073741824 ∅ (Scripted.start [])).
  vm_compute. reflexivity.
Defined.

Section Deleting.
Context {W : Type}.
Variable API : Client W.
Variable HK : housekeeping.Client W.
Variable ext : Externals.
Variable d : NASQtreeStorageDriver.

Lemma filter_mutating_draws (tr : list Event) :
  Forall (fun ev => exists n str, ev = EvRandomString n str) tr ->
  List.filter mutating tr = [].
Proof.
  induction 1 as [|ev tr (n & str & ->) _ IH]; [reflexivity|]. exact IH.
Qed.

(** With five-byte suffixes [deletedQtreeName] cannot panic: a name that
    makes the first attempt too long has more than 18 bytes.  It only draws
    random strings, and the name it returns begins with ["deleted_"]. *)
Lemma deletedQtreeName_returns (name : string) (s : @State W) :
  RandomString_contract API ->
  exists deletedName s' tr,
    deletedQtreeName API name s = Ret deletedName s' /\
    trace s' = trace s ++ tr /\
    quotaResizeMap s' = quotaResizeMap s /\
    Forall (fun ev => exists n str, ev = EvRandomString n str) tr /\
    HasPrefix deletedName deletedQtreeNamePrefix = true.
Proof.
  intros Hrand.
  unfold deletedQtreeName, bind, utils_RandomString, rpc.
  destruct (RandomString _ API 5 (world s)) as [suffix1 w1] eqn:H1; simpl.
  pose proof (Hrand 5 (world s) ltac:(lia)) as [Hlen1 _]. rewrite H1 in Hlen1.
  simpl in Hlen1.
  destruct (maxQtreeNameLength <? _) eqn:Hlong.
  - apply Z.ltb_lt in Hlong. rewrite !len_app, Hlen1 in Hlong.
    change (len deletedQtreeNamePrefix) with 8 in Hlong.
    change (len "_") with 1 in Hlong. unfold maxQtreeNameLength in Hlong.
    destruct (slice_from name _) as [trimmed|] eqn:Hs.
    + simpl. destruct (RandomString _ API 5 w1) as [suffix2 w2]. simpl.
      eexists _, _, [_; _]. split; [reflexivity|]. simpl.
      split; [by rewrite <- app_assoc|]. split; [reflexivity|].
      split; [repeat constructor; by eexists _, _|]. apply prefix_app.
    + exfalso. unfold slice_from in Hs.
      destruct (_ <=? _)%nat eqn:Hle in Hs; [discriminate|].
      apply Nat.leb_gt in Hle. unfold len in Hlong. simpl in Hle. lia.
  - eexists _, _, [_]. split; [reflexivity|]. simpl.
    split; [reflexivity|]. split; [reflexivity|].
    split; [repeat constructor; by eexists _, _|]. apply prefix_app.
Qed.

(** The calls of [Destroy], by what the lookup answered. *)
Lemma Destroy_run (name : string) (s : @State W) :
  RandomString_contract API ->
  let '(found, flexvol, lookupErr, _) :=
    QtreeExists _ API name (FlexvolNamePrefix d) (world s) in
  exists result s',
    Destroy API d name s = Ret result s' /\
    quotaResizeMap s' = quotaResizeMap s /\
    exists draws calls,
      events_since s s' =
        EvQtreeExists name (FlexvolNamePrefix d) found flexvol lookupErr :: draws ++ calls /\
      Forall (fun ev => exists n str, ev = EvRandomString n str) draws /\
      List.filter mutating (events_since s s') = calls /\
      match lookupErr, found with
      | Some _, _ => draws = [] /\ calls = [] /\ result = deleteError
      | None, false => draws = [] /\ calls = [] /\ result = None
      | None, true =>
          exists deletedName r1 e1,
            let path := "/vol/" +:+ flexvol +:+ "/" +:+ name in
            let deletedPath := "/vol/" +:+ flexvol +:+ "/" +:+ deletedName in
            HasPrefix deletedName deletedQtreeNamePrefix = true /\
            ((calls = [EvQtreeRename path deletedPath r1 e1] /\
              is_Some (GetError r1 e1) /\ result = deleteError) \/
             (exists r2 e2,
                calls = [EvQtreeRename path deletedPath r1 e1;
                         EvQtreeDestroyAsync deletedPath true r2 e2] /\
                GetError r1 e1 = None /\ GetError r2 e2 = None /\ result = None) \/
             (exists r2 e2 r3 e3,
                calls = [EvQtreeRename path deletedPath r1 e1;
                         EvQtreeDestroyAsync deletedPath true r2 e2;
                         EvQtreeRename deletedPath path r3 e3] /\
                GetError r1 e1 = None /\ is_Some (GetError r2 e2) /\
                result = deleteError))
      end.
Proof.
  intros Hrand.
  unfold Destroy, bind, API_QtreeExists, rpc.
  destruct (QtreeExists _ API name (FlexvolNamePrefix d) (world s))
    as [[[found flexvol] lookupErr] w1] eqn:Hlookup. simpl.
  destruct lookupErr as [e|].
  { eexists _, _. split; [reflexivity|]. split; [reflexivity|].
    exists [], []. rewrite events_since_mk. done. }
  destruct found; simpl.
  2:{ eexists _, _. split; [reflexivity|]. split; [reflexivity|].
      exists [], []. rewrite events_since_mk. done. }
  match goal with |- context [deletedQtreeName API name ?s1] =>
    destruct (deletedQtreeName_returns name s1 Hrand)
      as (deletedName & s2 & tr & -> & Htr & Hmap & Hdraws & Hmarked) end.
  simpl in Htr, Hmap. pose proof (filter_mutating_draws _ Hdraws) as Hquiet.
  unfold API_QtreeRename, API_QtreeDestroyAsync, rpc.
  destruct (QtreeRename _ API _ _ (world s2)) as [[r1 e1] w3]. simpl.
  destruct (GetError r1 e1) as [e|] eqn:Hrename.
  { eexists _, _. split; [reflexivity|]. split; [exact Hmap|].
    exists tr, [EvQtreeRename ("/vol/" +:+ flexvol +:+ "/" +:+ name)
                  ("/vol/" +:+ flexvol +:+ "/" +:+ deletedName) r1 e1].
    erewrite events_since_app
      by (simpl; rewrite Htr, <- !app_assoc; reflexivity).
    split; [reflexivity|]. split; [exact Hdraws|].
    split; [simpl; by rewrite List.filter_app, Hquiet|].
    exists deletedName, r1, e1. split; [exact Hmarked|]. left.
    split; [reflexivity|]. rewrite Hrename. by split; [eexists|]. }
  destruct (QtreeDestroyAsync _ API _ true _) as [[r2 e2] w4]. simpl.
  destruct (GetError r2 e2) as [e|] eqn:Hdestroy.
  - destruct (QtreeRename _ API _ _ _) as [[r3 e3] w5]. simpl.
    eexists _, _. split; [reflexivity|]. split; [exact Hmap|].
    exists tr, [EvQtreeRename ("/vol/" +:+ flexvol +:+ "/" +:+ name)
                  ("/vol/" +:+ flexvol +:+ "/" +:+ deletedName) r1 e1;
                EvQtreeDestroyAsync ("/vol/" +:+ flexvol +:+ "/" +:+ deletedName) true r2 e2;
                EvQtreeRename ("/vol/" +:+ flexvol +:+ "/" +:+ deletedName)
                  ("/vol/" +:+ flexvol +:+ "/" +:+ name) r3 e3].
    erewrite events_since_app
      by (simpl; rewrite Htr, <- !app_assoc; reflexivity).
    split; [reflexivity|]. split; [exact Hdraws|].
    split; [simpl; by rewrite List.filter_app, Hquiet|].
    exists deletedName, r1, e1. split; [exact Hmarked|]. right. right.
    exists r2, e2, r3, e3.
    split; [reflexivity|]. rewrite Hrename, Hdestroy. by split; [|split; [eexists|]].
  - eexists _, _. split; [reflexivity|]. split; [exact Hmap|].
    exists tr, [EvQtreeRename ("/vol/" +:+ flexvol +:+ "/" +:+ name)
                  ("/vol/" +:+ flexvol +:+ "/" +:+ deletedName) r1 e1;
                EvQtreeDestroyAsync ("/vol/" +:+ flexvol +:+ "/" +:+ deletedName) true r2 e2].
    erewrite events_since_app
      by (simpl; rewrite Htr, <- !app_assoc; reflexivity).
    split; [reflexivity|]. split; [exact Hdraws|].
    split; [simpl; by rewrite List.filter_app, Hquiet|].
    exists deletedName, r1, e1. split; [exact Hmarked|]. right. left.
    exists r2, e2. by rewrite Hrename, Hdestroy.
Qed.

(** X7.  What [Destroy] does to the appliance, and what it answers.  It
    always returns, with nil or with the generic deletion error.  Its first
    call is the lookup of the qtree, and every call recorded is answered by
    the appliance as recorded.  When the lookup failed it changes nothing
    and returns the error; when the lookup found no qtree it changes nothing
    and returns nil.  When the lookup found the qtree, in the Flexvol the
    lookup named, it draws the deleted name, which begins with
    ["deleted_"], and its changing calls are, in order: the rename of the
    qtree to the deleted name; when that passed, the destroy of the renamed
    qtree, with force; and when the destroy failed, the rename back to the
    original path.  It then answers nil exactly when the destroy was
    accepted.  The Quota Resize Set is as it was. *)
Theorem Destroy_protocol (name : string) (s : State) :
  RandomString_contract API ->
  let '(found, flexvol, lookupErr, _) :=
    QtreeExists _ API name (FlexvolNamePrefix d) (world s) in
  exists result s',
    Destroy API d name s = Ret result s' /\
    genuine API (world s) (events_since s s') (world s') /\
    quotaResizeMap s' = quotaResizeMap s /\
    exists draws calls,
      events_since s s' =
        EvQtreeExists name (FlexvolNamePrefix d) found flexvol lookupErr :: draws ++ calls /\
      Forall (fun ev => exists n str, ev = EvRandomString n str) draws /\
      List.filter mutating (events_since s s') = calls /\
      match lookupErr, found with
      | Some _, _ => draws = [] /\ calls = [] /\ result = deleteError
      | None, false => draws = [] /\ calls = [] /\ result = None
      | None, true =>
          exists deletedName r1 e1,
            let path := "/vol/" +:+ flexvol +:+ "/" +:+ name in
            let deletedPath := "/vol/" +:+ flexvol +:+ "/" +:+ deletedName in
            HasPrefix deletedName deletedQtreeNamePrefix = true /\
            ((calls = [EvQtreeRename path deletedPath r1 e1] /\
              is_Some (GetError r1 e1) /\ result = deleteError) \/
             (exists r2 e2,
                calls = [EvQtreeRename path deletedPath r1 e1;
                         EvQtreeDestroyAsync deletedPath true r2 e2] /\
                GetError r1 e1 = None /\ GetError r2 e2 = None /\ result = None) \/
             (exists r2 e2 r3 e3,
                calls = [EvQtreeRename path deletedPath r1 e1;
                         EvQtreeDestroyAsync deletedPath true r2 e2;
                         EvQtreeRename deletedPath path r3 e3] /\
                GetError r1 e1 = None /\ is_Some (GetError r2 e2) /\
                result = deleteError))
      end.
Proof.
  intros Hrand. pose proof (Destroy_run name s Hrand) as Hrun.
  destruct (QtreeExists _ API name (FlexvolNamePrefix d) (world s))
    as [[[found flexvol] lookupErr] w1].
  destruct Hrun as (result & s' & Hrun & Hmap & Hrest).
  exists result, s'. split; [exact Hrun|].
  split; [exact (faithful_Ret API _ _ _ _ (faithful_Destroy API d name) Hrun)|].
  split; [exact Hmap|exact Hrest].
Qed.

Lemma prefix_app_both (a p t : string) :
  HasPrefix t p = true -> HasPrefix (a +:+ t) (a +:+ p) = true.
Proof.
  intros H. unfold HasPrefix in *. induction a as [|c a IH]; [exact H|].
  simpl. by destruct (ascii_dec c c).
Qed.

Lemma append_assoc (a b c : string) : (a +:+ b) +:+ c = a +:+ b +:+ c.
Proof.
  induction a as [|x a IH]; [reflexivity|].
  change (String x ((a +:+ b) +:+ c) = String x (a +:+ b +:+ c)). by rewrite IH.
Qed.

Lemma prefix_app_r (s p t : string) :
  HasPrefix s p = true -> HasPrefix (s +:+ t) p = true.
Proof.
  intros H. rewrite (prefix_split _ _ H).
  rewrite append_assoc. apply prefix_app.
Qed.

(** X8.  What [Destroy] leaves for the reaper.  For a qtree whose name
    begins with the storage prefix and has at most 50 bytes, the name
    [Destroy] renames it to begins with ["deleted_"] followed by the storage
    prefix, which is the prefix [reapDeletedQtrees] lists by: a qtree that
    stays behind under its deleted name is found by the next reaping. *)
Theorem Destroy_marks_for_the_reaper (name flexvol : string) (s : State) (w1 : W) :
  RandomString_contract API ->
  HasPrefix name (StoragePrefix d) = true ->
  len name <= 50 ->
  QtreeExists _ API name (FlexvolNamePrefix d) (world s) = (true, flexvol, None, w1) ->
  exists result s' deletedName r err,
    Destroy API d name s = Ret result s' /\
    EvQtreeRename ("/vol/" +:+ flexvol +:+ "/" +:+ name)
                  ("/vol/" +:+ flexvol +:+ "/" +:+ deletedName) r err
      ∈ events_since s s' /\
    HasPrefix deletedName (deletedQtreeNamePrefix +:+ StoragePrefix d) = true.
Proof.
  intros Hrand Hprefix Hlen Hexists.
  assert (Hmark : forall suffix,
            HasPrefix (deletedQtreeNamePrefix +:+ name +:+ "_" +:+ suffix)
                      (deletedQtreeNamePrefix +:+ StoragePrefix d) = true).
  { intros suffix. apply prefix_app_both. by apply prefix_app_r. }
  unfold Destroy, bind, API_QtreeExists, rpc. rewrite Hexists. simpl.
  match goal with |- context [deletedQtreeName API name ?s1] =>
    destruct (deletedQtreeName_spec API name s1 Hrand ltac:(unfold maxQtreeNameLength; lia))
      as (suffix & s2 & tr & Hname & Htr & _) end.
  assert (Hshort : (maxQtreeNameLength <? len (deletedQtreeNamePrefix +:+ name +:+ "_") + 5)
                   = false).
  { apply Z.ltb_ge. rewrite !len_app.
    change (len deletedQtreeNamePrefix) with 8. change (len "_") with 1.
    unfold maxQtreeNameLength. lia. }
  rewrite Hshort in Hname. rewrite Hname. simpl in Htr.
  unfold API_QtreeRename, API_QtreeDestroyAsync, rpc.
  destruct (QtreeRename _ API _ _ (world s2)) as [[r1 e1] w3]. simpl.
  assert (Hin : forall post,
            EvQtreeRename ("/vol/" +:+ flexvol +:+ "/" +:+ name)
              ("/vol/" +:+ flexvol +:+ "/" +:+ deletedQtreeNamePrefix +:+ name +:+ "_" +:+ suffix)
              r1 e1
            ∈ (EvQtreeExists name (FlexvolNamePrefix d) true flexvol None :: tr) ++
              EvQtreeRename ("/vol/" +:+ flexvol +:+ "/" +:+ name)
                ("/vol/" +:+ flexvol +:+ "/" +:+ deletedQtreeNamePrefix +:+ name +:+ "_" +:+ suffix)
                r1 e1 :: post).
  { intros post. apply elem_of_app. right. apply list_elem_of_here. }
  destruct (GetError r1 e1) as [e|].
  { eexists _, _, _, r1, e1. split; [reflexivity|]. split; [|apply Hmark].
    erewrite events_since_app
      by (simpl; rewrite Htr, <- !app_assoc; reflexivity).
    apply (Hin []). }
  destruct (QtreeDestroyAsync _ API _ true _) as [[r2 e2] w4]. simpl.
  destruct (GetError r2 e2) as [e|].
  - destruct (QtreeRename _ API _ _ _) as [[r3 e3] w5]. simpl.
    eexists _, _, _, r1, e1. split; [reflexivity|]. split; [|apply Hmark].
    erewrite events_since_app
      by (simpl; rewrite Htr, <- !app_assoc; reflexivity).
    apply (Hin [_; _]).
  - eexists _, _, _, r1, e1. split; [reflexivity|]. split; [|apply Hmark].
    erewrite events_since_app
      by (simpl; rewrite Htr, <- !app_assoc; reflexivity).
    apply (Hin [_]).
Qed.

End Deleting.

Section Housekeeping.
Context {W : Type}.
Variable API : Client W.
Variable HK : housekeeping.Client W.
Variable ext : Externals.
Variable d : NASQtreeStorageDriver.

Lemma emptyFlexvols_app (tr1 tr2 : list Event) :
  emptyFlexvols (tr1 ++ tr2) = emptyFlexvols tr1 ++ emptyFlexvols tr2.
Proof.
  induction tr1 as [|ev tr1 IH]; [reflexivity|].
  destruct ev; simpl; try exact IH.
  destruct err; [exact IH|]. destruct (count =? 0); simpl; by rewrite IH.
Qed.

Lemma destroyedFlexvols_app (tr1 tr2 : list Event) :
  destroyedFlexvols (tr1 ++ tr2) = destroyedFlexvols tr1 ++ destroyedFlexvols tr2.
Proof.
  induction tr1 as [|ev tr1 IH]; [reflexivity|].
  destruct ev; simpl; by rewrite ?IH.
Qed.

Lemma resizedFlexvols_app (tr1 tr2 : list Event) :
  resizedFlexvols (tr1 ++ tr2) = resizedFlexvols tr1 ++ resizedFlexvols tr2.
Proof.
  induction tr1 as [|ev tr1 IH]; [reflexivity|].
  destruct ev; simpl; by rewrite ?IH.
Qed.

Lemma pruneUnusedFlexvols_range_spec (flexvols : list string) (s : @State W) :
  exists s' tr,
    pruneUnusedFlexvols_range API flexvols s = Ret tt s' /\
    trace s' = trace s ++ tr /\
    countedFlexvols tr = flexvols /\
    destroyedFlexvols tr = map (fun flexvol => (flexvol, true)) (emptyFlexvols tr) /\
    Forall (fun ev => (exists volume count err, ev = EvQtreeCount volume count err) \/
                      (exists name r err, ev = EvVolumeDestroy name true r err)) tr.
Proof.
  revert s. induction flexvols as [|flexvol rest IH]; intros s.
  { exists s, []. simpl. by rewrite app_nil_r. }
  simpl. unfold bind, API_QtreeCount, API_VolumeDestroy, rpc, ret.
  destruct (QtreeCount _ API flexvol (world s)) as [[count err] w1]. simpl.
  destruct err as [e|].
  { edestruct IH as (s' & tr & Hrun & Htr & Hcounted & Hdestroyed & Hshape).
    eexists s', (_ :: tr).
    split; [exact Hrun|]. simpl in Htr. split; [by rewrite Htr, <- app_assoc|].
    simpl. rewrite Hcounted. split; [reflexivity|]. split; [exact Hdestroyed|].
    constructor; [left; by eexists _, _, _|exact Hshape]. }
  destruct (count =? 0) eqn:Hzero.
  - simpl. destruct (VolumeDestroy _ API flexvol true w1) as [[r derr] w2]. simpl.
    edestruct IH as (s' & tr & Hrun & Htr & Hcounted & Hdestroyed & Hshape).
    eexists s', (_ :: _ :: tr).
    split; [exact Hrun|]. simpl in Htr. split; [by rewrite Htr, <- !app_assoc|].
    simpl. rewrite Hcounted, Hzero, Hdestroyed. simpl.
    split; [reflexivity|]. split; [reflexivity|].
    constructor; [left; by eexists _, _, _|].
    constructor; [right; by eexists _, _, _|exact Hshape].
  - edestruct IH as (s' & tr & Hrun & Htr & Hcounted & Hdestroyed & Hshape).
    eexists s', (_ :: tr).
    split; [exact Hrun|]. simpl in Htr. split; [by rewrite Htr, <- app_assoc|].
    simpl. rewrite Hcounted, Hzero. split; [reflexivity|]. split; [exact Hdestroyed|].
    constructor; [left; by eexists _, _, _|exact Hshape].
Qed.

Lemma pruneUnusedFlexvols_spec (s : @State W) :
  exists s' tr,
    pruneUnusedFlexvols API HK d s = Ret tt s' /\
    trace s' = trace s ++ tr /\
    countedFlexvols tr =
      map azgo.Name
        (Attributes (housekeeping.VolumeList _ HK (FlexvolNamePrefix d) (world s)).1.1) /\
    destroyedFlexvols tr = map (fun flexvol => (flexvol, true)) (emptyFlexvols tr) /\
    Forall (fun ev => (exists volume count err, ev = EvQtreeCount volume count err) \/
                      (exists name r err, ev = EvVolumeDestroy name true r err)) tr.
Proof.
  unfold pruneUnusedFlexvols, bind, API_VolumeList, untraced.
  destruct (housekeeping.VolumeList _ HK (FlexvolNamePrefix d) (world s))
    as [[volumeListResponse err] w1]. simpl.
  match goal with |- context [pruneUnusedFlexvols_range API ?l ?s1] =>
    destruct (pruneUnusedFlexvols_range_spec l s1) as (s' & tr & Hrun & Htr & Hrest) end.
  exists s', tr. split; [exact Hrun|]. split; [exact Htr|]. exact Hrest.
Qed.

(** X9.  One run of the pruner.  It always returns.  After the listing it
    asks for the qtree count of every Flexvol that [VolumeList] named, in
    that order; its other calls destroy Flexvols, each with force, and the
    Flexvols destroyed are those whose count was answered as zero without an
    error.  A Flexvol whose count could not be read is left alone. *)
Theorem pruneUnusedFlexvols_destroys_only_empty (s : State) :
  exists s' tr,
    pruneUnusedFlexvols API HK d s = Ret tt s' /\
    trace s' = trace s ++ tr /\
    countedFlexvols tr =
      map azgo.Name
        (Attributes (housekeeping.VolumeList _ HK (FlexvolNamePrefix d) (world s)).1.1) /\
    destroyedFlexvols tr = map (fun flexvol => (flexvol, true)) (emptyFlexvols tr) /\
    Forall (fun ev => (exists volume count err, ev = EvQtreeCount volume count err) \/
                      (exists name r err, ev = EvVolumeDestroy name true r err)) tr.
Proof. apply pruneUnusedFlexvols_spec. Qed.

Lemma reapDeletedQtrees_range_spec (qtrees : list QtreeInfoType) (s : @State W) :
  exists s' tr,
    reapDeletedQtrees_range API qtrees s = Ret tt s' /\
    trace s' = trace s ++ tr /\
    destroyedQtrees tr =
      map (fun q => ("/vol/" +:+ Volume q +:+ "/" +:+ Qtree q, true)) qtrees /\
    Forall (fun ev => exists path r err, ev = EvQtreeDestroyAsync path true r err) tr.
Proof.
  revert s. induction qtrees as [|qtree rest IH]; intros s.
  { exists s, []. simpl. by rewrite app_nil_r. }
  simpl. unfold bind, API_QtreeDestroyAsync, rpc.
  destruct (QtreeDestroyAsync _ API _ true (world s)) as [[r err] w1]. simpl.
  edestruct IH as (s' & tr & Hrun & Htr & Hdestroyed & Hshape).
  eexists s', (_ :: tr).
    split; [exact Hrun|]. simpl in Htr. split; [by rewrite Htr, <- app_assoc|].
  simpl. rewrite Hdestroyed. split; [reflexivity|].
  constructor; [by eexists _, _, _|exact Hshape].
Qed.

Lemma reapDeletedQtrees_returns (s : @State W) :
  exists s' r err tr,
    reapDeletedQtrees API d s = Ret tt s' /\
    (QtreeList _ API (deletedQtreeNamePrefix +:+ StoragePrefix d) (FlexvolNamePrefix d)
       (world s)).1 = (r, err) /\
    trace s' = trace s ++
      EvQtreeList (deletedQtreeNamePrefix +:+ StoragePrefix d) (FlexvolNamePrefix d) r err
      :: tr /\
    destroyedQtrees tr =
      map (fun q => ("/vol/" +:+ Volume q +:+ "/" +:+ Qtree q, true)) (Attributes r) /\
    Forall (fun ev => exists path r' err', ev = EvQtreeDestroyAsync path true r' err') tr.
Proof.
  unfold reapDeletedQtrees, bind, API_QtreeList, rpc.
  destruct (QtreeList _ API _ _ (world s)) as [[r err] w1]. simpl.
  match goal with |- context [reapDeletedQtrees_range API ?l ?s1] =>
    destruct (reapDeletedQtrees_range_spec l s1) as (s' & tr & Hrun & Htr & Hdestroyed & Hshape)
  end.
  simpl in Htr. exists s', r, err, tr.
  split; [exact Hrun|]. split; [reflexivity|]. split; [by rewrite Htr, <- app_assoc|].
  split; [exact Hdestroyed|exact Hshape].
Qed.

Lemma reapDeletedQtrees_spec (s : State) :
  QtreeList_contract API ->
  exists s' r err tr,
    let prefix := deletedQtreeNamePrefix +:+ StoragePrefix d in
    reapDeletedQtrees API d s = Ret tt s' /\
    trace s' = trace s ++ EvQtreeList prefix (FlexvolNamePrefix d) r err :: tr /\
    destroyedQtrees tr =
      map (fun q => ("/vol/" +:+ Volume q +:+ "/" +:+ Qtree q, true)) (Attributes r) /\
    Forall (fun ev => exists path r' err', ev = EvQtreeDestroyAsync path true r' err') tr /\
    (GetError r err = None ->
     Forall (fun q => HasPrefix (Qtree q) prefix = true) (Attributes r)).
Proof.
  intros Hlist.
  destruct (reapDeletedQtrees_returns s) as (s' & r & err & tr & Hrun & Hanswer & Hrest).
  exists s', r, err, tr. split; [exact Hrun|].
  destruct Hrest as (Htr & Hdestroyed & Hshape).
  split; [exact Htr|]. split; [exact Hdestroyed|]. split; [exact Hshape|].
  specialize (Hlist (deletedQtreeNamePrefix +:+ StoragePrefix d) (FlexvolNamePrefix d)
                (world s)).
  destruct (QtreeList _ API _ _ (world s)) as [[r' err'] w1].
  simpl in Hanswer. by injection Hanswer as -> ->.
Qed.

(** X10.  One run of the reaper.  It always returns; it lists the qtrees by
    the prefix ["deleted_"] followed by the storage prefix, and then asks,
    with force, for the destruction of [/vol/<Volume>/<Qtree>] for every
    qtree of the answer, in order, and calls nothing else.  When the listing
    passed and answers as [QtreeList] is expected to, every qtree reaped has
    a name that begins with that prefix. *)
Theorem reapDeletedQtrees_destroys_listed (s : State) :
  QtreeList_contract API ->
  exists s' r err tr,
    let prefix := deletedQtreeNamePrefix +:+ StoragePrefix d in
    reapDeletedQtrees API d s = Ret tt s' /\
    trace s' = trace s ++ EvQtreeList prefix (FlexvolNamePrefix d) r err :: tr /\
    destroyedQtrees tr =
      map (fun q => ("/vol/" +:+ Volume q +:+ "/" +:+ Qtree q, true)) (Attributes r) /\
    Forall (fun ev => exists path r' err', ev = EvQtreeDestroyAsync path true r' err') tr /\
    (GetError r err = None ->
     Forall (fun q => HasPrefix (Qtree q) prefix = true) (Attributes r)).
Proof. apply reapDeletedQtrees_spec. Qed.

Lemma queueAllFlexvolsForQuotaResize_range_spec (attrs : list VolumeAttributesType)
    (s : @State W) :
  exists s',
    queueAllFlexvolsForQuotaResize_range attrs s = Ret tt s' /\
    trace s' = trace s /\
    (forall flexvol, flexvol ∈ map azgo.Name attrs ->
                     quotaResizeMap s' !! flexvol = Some true) /\
    (forall flexvol, flexvol ∉ map azgo.Name attrs ->
                     quotaResizeMap s' !! flexvol = quotaResizeMap s !! flexvol).
Proof.
  revert s. induction attrs as [|volAttrs rest IH]; intros s.
  { exists s. simpl. split; [reflexivity|]. split; [reflexivity|].
    split; [|reflexivity]. intros flexvol H. by apply elem_of_nil in H. }
  simpl. unfold bind, markForResize.
  edestruct IH as (s' & Hrun & Htr & Hin & Hout).
  exists s'. split; [exact Hrun|]. simpl in *. split; [exact Htr|]. split.
  - intros flexvol H.
    destruct (decide (flexvol ∈ map azgo.Name rest)) as [Hrest|Hrest]; [by apply Hin|].
    rewrite (Hout _ Hrest). apply elem_of_cons in H as [->|H]; [|done].
    apply lookup_insert_eq.
  - intros flexvol H. apply not_elem_of_cons in H as [Hne Hrest].
    rewrite (Hout _ Hrest). by apply lookup_insert_ne.
Qed.

Lemma queueAllFlexvolsForQuotaResize_spec (s : State) :
  exists s',
    let listed :=
      map azgo.Name
        (Attributes (housekeeping.VolumeList _ HK (FlexvolNamePrefix d) (world s)).1.1) in
    queueAllFlexvolsForQuotaResize HK d s = Ret tt s' /\
    trace s' = trace s /\
    (forall flexvol, flexvol ∈ listed -> quotaResizeMap s' !! flexvol = Some true) /\
    (forall flexvol, flexvol ∉ listed ->
                     quotaResizeMap s' !! flexvol = quotaResizeMap s !! flexvol).
Proof.
  unfold queueAllFlexvolsForQuotaResize, bind, API_VolumeList, untraced.
  destruct (housekeeping.VolumeList _ HK (FlexvolNamePrefix d) (world s))
    as [[volumeListResponse err] w1]. simpl.
  match goal with |- context [queueAllFlexvolsForQuotaResize_range ?l ?s1] =>
    destruct (queueAllFlexvolsForQuotaResize_range_spec l s1) as (s' & Hrun & Hrest) end.
  exists s'. split; [exact Hrun|]. exact Hrest.
Qed.

(** X11.  The requeue at start-up.  It always returns and calls nothing that
    the trace records; afterwards every Flexvol that [VolumeList] named is
    flagged in the Quota Resize Set, and every other entry of the set is as
    it was. *)
Theorem queueAllFlexvolsForQuotaResize_flags_listed (s : State) :
  exists s',
    let listed :=
      map azgo.Name
        (Attributes (housekeeping.VolumeList _ HK (FlexvolNamePrefix d) (world s)).1.1) in
    queueAllFlexvolsForQuotaResize HK d s = Ret tt s' /\
    trace s' = trace s /\
    (forall flexvol, flexvol ∈ listed -> quotaResizeMap s' !! flexvol = Some true) /\
    (forall flexvol, flexvol ∉ listed ->
                     quotaResizeMap s' !! flexvol = quotaResizeMap s !! flexvol).
Proof. apply queueAllFlexvolsForQuotaResize_spec. Qed.

Lemma resizeQuotas_calls (s : @State W) :
  exists s' tr,
    resizeQuotas API ext s = Ret tt s' /\
    trace s' = trace s ++ tr /\
    quotaResizeMap s' ⊆ quotaResizeMap s /\
    (forall flexvol, flexvol ∈ resizedFlexvols tr <-> quotaResizeMap s !! flexvol = Some true) /\
    NoDup (resizedFlexvols tr) /\
    Forall (fun ev => exists flexvol r err, ev = EvQuotaResize flexvol r err) tr.
Proof.
  unfold resizeQuotas.
  destruct (resizeQuotas_range_shrinks API ext (map_to_list (quotaResizeMap s)) s)
    as (s' & tr & Hrun & Htr & Hsub & Hres & Hshape).
  exists s', tr. split; [exact Hrun|]. split; [exact Htr|]. split; [exact Hsub|].
  split; [|split; [|exact Hshape]].
  - intros flexvol. rewrite Hres. rewrite list_elem_of_fmap. split.
    + intros ([f b] & -> & Hin). apply list_elem_of_filter in Hin as [Hb Hin].
      simpl in Hb. subst b. by apply elem_of_map_to_list in Hin.
    + intros Hflag. exists (flexvol, true). split; [reflexivity|].
      apply list_elem_of_filter. split; [reflexivity|]. by apply elem_of_map_to_list.
  - rewrite Hres. eapply sublist_NoDup; [apply (NoDup_fst_map_to_list (quotaResizeMap s))|].
    apply fmap_sublist, sublist_filter.
Qed.

(** X12.  One sweep of [resizeQuotas] calls [QuotaResize] and nothing else,
    once for each Flexvol that is flagged and for no other Flexvol, and puts
    nothing into the Quota Resize Set. *)
Theorem resizeQuotas_calls_only_flagged (s : State) :
  exists s' tr,
    resizeQuotas API ext s = Ret tt s' /\
    trace s' = trace s ++ tr /\
    quotaResizeMap s' ⊆ quotaResizeMap s /\
    (forall flexvol, flexvol ∈ resizedFlexvols tr <-> quotaResizeMap s !! flexvol = Some true) /\
    NoDup (resizedFlexvols tr) /\
    Forall (fun ev => exists flexvol r err, ev = EvQuotaResize flexvol r err) tr.
Proof. apply resizeQuotas_calls. Qed.

Lemma resizedFlexvols_none (tr : list Event) :
  Forall (fun ev => forall flexvol r err, ev <> EvQuotaResize flexvol r err) tr ->
  resizedFlexvols tr = [].
Proof.
  induction 1 as [|ev tr Hev _ IH]; [reflexivity|].
  destruct ev; simpl; try exact IH. by destruct (Hev flexvol r err).
Qed.

(** X13.  The housekeeping that [Initialize] runs before it returns.  With
    both periods between 1 and 9223372036 seconds it returns, and its
    [QuotaResize] calls are for the Flexvols that [VolumeList] named at the
    requeue together with those already flagged, and for no other.  With
    the pruning period ["0"] it panics. *)
Theorem Initialize_housekeeping_resizes_listed (p q : Z) (s : State) :
  1 <= p <= 9223372036 ->
  1 <= q <= 9223372036 ->
  (exists s',
     let listed :=
       map azgo.Name
         (Attributes (housekeeping.VolumeList _ HK (FlexvolNamePrefix d) (world s)).1.1) in
     Initialize_housekeeping API HK ext d (Strconv.FormatUint p) (Strconv.FormatUint q) s
       = Ret tt s' /\
     forall flexvol,
       flexvol ∈ resizedFlexvols (events_since s s') <->
       flexvol ∈ listed \/ quotaResizeMap s !! flexvol = Some true) /\
  Initialize_housekeeping API HK ext d "0" (Strconv.FormatUint q) s = Panic.
Proof.
  intros Hp Hq.
  unfold Initialize_housekeeping, startHousekeepingTasks, bind.
  destruct (queueAllFlexvolsForQuotaResize_spec s) as (s1 & -> & Htr1 & Hin & Hout).
  destruct (pruneUnusedFlexvols_spec s1) as (s2 & tr2 & Hrun2 & Htr2 & _ & _ & Hshape2).
  pose proof (keeps_pruneUnusedFlexvols API HK d s1) as Hkeep2.
  rewrite Hrun2 in *. destruct Hkeep2 as [Hmap2 _].
  pose proof (keeps_reapDeletedQtrees API d s2) as Hkeep3.
  destruct (reapDeletedQtrees_returns s2)
    as (s3 & r3 & err3 & tr3 & Hrun3 & _ & Htr3 & _ & Hshape3).
  rewrite Hrun3 in *. destruct Hkeep3 as [Hmap3 _].
  split; [|reflexivity].
  rewrite !housekeepingPeriodSecs_FormatUint
    by (unfold Strconv.maxUint64; lia).
  rewrite !NewTicker_seconds by assumption.
  destruct (resizeQuotas_calls s3) as (s4 & tr4 & -> & Htr4 & _ & Hcalls & _ & _).
  exists s4. split; [reflexivity|]. intros flexvol.
  assert (Hquiet3 : resizedFlexvols tr3 = []).
  { apply resizedFlexvols_none. eapply Forall_impl; [exact Hshape3|].
    intros ev (path & r' & err' & ->). discriminate. }
  assert (Hquiet2 : resizedFlexvols tr2 = []).
  { apply resizedFlexvols_none. eapply Forall_impl; [exact Hshape2|].
    intros ev [(? & ? & ? & ->)|(? & ? & ? & ->)]; discriminate. }
  erewrite events_since_app
    by (rewrite Htr4, Htr3, Htr2, Htr1, <- !app_assoc; reflexivity).
  rewrite !resizedFlexvols_app, Hquiet2. simpl. rewrite Hquiet3. simpl.
  rewrite Hcalls, Hmap3, Hmap2.
  destruct (decide (flexvol ∈ map azgo.Name
              (Attributes (housekeeping.VolumeList _ HK (FlexvolNamePrefix d) (world s)).1.1)))
    as [Hlisted|Hlisted].
  - split; [by left|]. intros _. by apply Hin.
  - rewrite (Hout _ Hlisted). split; [by right|]. by intros [?|?].
Qed.

End Housekeeping.

(** *** The calls a method makes *)

Create HintDb emits.

Section Calls.
Context {W : Type}.
Variable API : Client W.
Variable ext : Externals.
Variable d : NASQtreeStorageDriver.
Variable P : Event -> bool.

Lemma emits_ret {A} (a : A) : emits P (@ret W A a).
Proof. intros s. simpl. exists []. by rewrite app_nil_r. Qed.

Lemma emits_panic {A} : emits P (@panic W A).
Proof. by intros s. Qed.

Lemma emits_stall {A} : emits P (@stall W A).
Proof. intros s. simpl. exists []. by rewrite app_nil_r. Qed.

Lemma emits_rpc {A} (f : W -> A * W) (ev : A -> Event) :
  (forall a, P (ev a) = true) -> emits P (rpc f ev).
Proof.
  intros Hev s. unfold rpc. destruct (f (world s)) as [a w]. simpl.
  exists [ev a]. split; [reflexivity|]. simpl. by rewrite Hev.
Qed.

Lemma emits_bind {A B} (m : @M W A) (k : A -> @M W B) :
  emits P m -> (forall a, emits P (k a)) -> emits P (bind m k).
Proof.
  intros Hm Hk s. unfold bind. specialize (Hm s).
  destruct (m s) as [a s1| |s1]; [|done|exact Hm].
  destruct Hm as (tr & Htr & Hall). specialize (Hk a s1).
  destruct (k a s1) as [b s2| |s2]; [|done|];
    destruct Hk as (tr' & Htr' & Hall'); exists (tr ++ tr');
    (split; [by rewrite Htr', Htr, app_assoc|]);
    rewrite forallb_app; by rewrite Hall, Hall'.
Qed.

End Calls.

Lemma emits_weaken {W A} (P Q : Event -> bool) (m : @M W A) :
  (forall ev, P ev = true -> Q ev = true) -> emits P m -> emits Q m.
Proof.
  intros HPQ Hm s. specialize (Hm s).
  assert (Hall : forall tr, forallb P tr = true -> forallb Q tr = true).
  { induction tr as [|ev tr IH]; [done|]. simpl.
    intros [Hev Htr]%andb_true_iff. by rewrite (HPQ _ Hev), IH. }
  destruct (m s) as [a s1| |s1]; [|done|];
    destruct Hm as (tr & Htr & HP); exists tr; auto.
Qed.

(** One step of a proof that the calls of a method all satisfy a
    predicate. *)
Ltac emit_step :=
  first
    [ apply emits_ret
    | apply emits_panic
    | apply emits_stall
    | apply emits_rpc; first [reflexivity | intros [? ?]; reflexivity
                             | intros [[? ?] ?]; reflexivity]
    | solve [auto with emits]
    | apply emits_bind; [|intros ?]
    | match goal with
      | |- emits _ (match ?x with _ => _ end) => destruct x
      | |- emits _ (let (_, _) := ?x in _) => destruct x
      | |- emits _ (if ?x then _ else _) => destruct x
      end ].

Ltac emit :=
  unfold API_QtreeExists, API_VolumeListByAttrs, API_QtreeCount, API_VolumeCreate,
    API_VolumeDisableSnapshotDirectoryAccess, API_VolumeMount, API_VolumeDestroy,
    API_VolumeGet, API_SetVolumeSize, API_QtreeCreate, API_QtreeRename,
    API_QtreeDestroyAsync, API_QtreeList, API_QuotaSetEntry, API_QuotaStatus,
    API_QuotaOn, API_QuotaOff, API_QuotaResize, API_QuotaEntryList,
    call_ValidateEncryptionAttribute, call_UpdateLoadSharingMirrors, call_MountVolume,
    call_UnmountVolume, time_Sleep, utils_RandomString, rand_Intn, rpc_;
  repeat emit_step.

Section Factory.
Context {W : Type}.
Variable API : Client W.
Variable ext : Externals.
Variable d : NASQtreeStorageDriver.

Lemma emits_getQuotaStatus (flexvol : string) :
  emits quota_call (getQuotaStatus API flexvol).
Proof. unfold getQuotaStatus. emit. Qed.
Hint Resolve emits_getQuotaStatus : emits.

Lemma emits_disableQuotas_wait (fuel : nat) (flexvol status : string) :
  emits quota_call (disableQuotas_wait API fuel flexvol status).
Proof. revert status. induction fuel as [|fuel IH]; intros status; simpl; emit. Qed.
Hint Resolve emits_disableQuotas_wait : emits.

Lemma emits_enableQuotas_wait (fuel : nat) (flexvol status : string) :
  emits quota_call (enableQuotas_wait API fuel flexvol status).
Proof. revert status. induction fuel as [|fuel IH]; intros status; simpl; emit. Qed.
Hint Resolve emits_enableQuotas_wait : emits.

Lemma emits_disableQuotas (fuel : nat) (flexvol : string) (wait : bool) :
  emits quota_call (disableQuotas API fuel flexvol wait).
Proof. unfold disableQuotas. emit. Qed.
Hint Resolve emits_disableQuotas : emits.

Lemma emits_enableQuotas (fuel : nat) (flexvol : string) (wait : bool) :
  emits quota_call (enableQuotas API fuel flexvol wait).
Proof. unfold enableQuotas. emit. Qed.
Hint Resolve emits_enableQuotas : emits.

Lemma emits_addDefaultQuotaForFlexvol (fuel : nat) (flexvol : string) :
  emits quota_call (addDefaultQuotaForFlexvol API fuel flexvol).
Proof. unfold addDefaultQuotaForFlexvol. emit. Qed.

Lemma quota_calls_destroy_nothing (tr : list Event) :
  forallb quota_call tr = true -> destroyedFlexvols tr = [].
Proof.
  induction tr as [|ev tr IH]; [reflexivity|]. simpl.
  intros [Hev Htr]%andb_true_iff. destruct ev; try discriminate; simpl; auto.
Qed.

(** The default quota rule is the first call of [addDefaultQuotaForFlexvol],
    the calls after it are quota operations and sleeps, and the result is
    nil exactly when the rule was accepted. *)
Lemma addDefaultQuotaForFlexvol_trace (fuel : nat) (flexvol : string) (s s' : @State W)
    (e : error) :
  addDefaultQuotaForFlexvol API fuel flexvol s = Ret e s' ->
  exists r err tr,
    trace s' = trace s ++ EvQuotaSetEntry "" flexvol "" "tree" "-" r err :: tr /\
    forallb quota_call tr = true /\
    (e = None <-> GetError r err = None).
Proof.
  unfold addDefaultQuotaForFlexvol, bind, API_QuotaSetEntry, rpc.
  destruct (QuotaSetEntry _ API "" flexvol "" "tree" "-" (world s)) as [[r err] w1]. simpl.
  destruct (GetError r err) as [e'|] eqn:Herr.
  { intros [= <- <-]. exists r, err, []. simpl. rewrite Herr. by split; [|split]. }
  match goal with |- context [disableQuotas API fuel flexvol true ?s1] =>
    pose proof (emits_disableQuotas fuel flexvol true s1) as Hd;
    destruct (disableQuotas API fuel flexvol true s1) as [e1 s2| |s2]; [|discriminate..] end.
  destruct Hd as (tr1 & Htr1 & Hall1). simpl in Htr1.
  pose proof (emits_enableQuotas fuel flexvol true s2) as He.
  destruct (enableQuotas API fuel flexvol true s2) as [e2 s3| |s3]; [|discriminate..].
  destruct He as (tr2 & Htr2 & Hall2).
  intros [= <- <-]. exists r, err, (tr1 ++ tr2).
  split; [by rewrite Htr2, Htr1, <- !app_assoc|].
  rewrite forallb_app, Hall1, Hall2, Herr. done.
Qed.

Lemma createFlexvolForQtree_trace (fuel : nat)
    (aggregate spaceReserve snapshotPolicy : string) (enableSnapshotDir : bool)
    (encrypt : option bool) (s s' : State) (flexvol : string) (err : error) :
  createFlexvolForQtree API d fuel aggregate spaceReserve snapshotPolicy
    enableSnapshotDir encrypt s = Ret (flexvol, err) s' ->
  exists suffix r e post,
    let name := FlexvolNamePrefix d +:+ suffix in
    events_since s s' =
      EvRandomString 10 suffix ::
      EvVolumeCreate name aggregate "1g" spaceReserve snapshotPolicy "0700"
        (flexvolExportPolicy d) "unix" encrypt r e :: post /\
    match err with
    | Some _ =>
        flexvol = "" /\
        ((is_Some (GetError r e) /\ post = []) \/
         (GetError r e = None /\
          destroyedFlexvols post = [(name, true)] /\
          exists r' e', last post = Some (EvVolumeDestroy name true r' e')))
    | None =>
        flexvol = name /\
        GetError r e = None /\
        destroyedFlexvols post = [] /\
        (exists r' e', EvVolumeMount name ("/" +:+ name) r' e' ∈ post /\
                       GetError r' e' = None) /\
        (exists r' e', EvQuotaSetEntry "" name "" "tree" "-" r' e' ∈ post /\
                       GetError r' e' = None)
    end.
Proof.
  unfold createFlexvolForQtree. intros H.
  apply bind_Ret in H as (suffix & s1 & Hsuffix & H).
  apply rpc_Ret in Hsuffix as (Hs1 & _ & _).
  apply bind_Ret in H as ([r e] & s2 & Hcreated & H).
  apply rpc_Ret in Hcreated as (Hs2 & _ & _). simpl in Hs2.
  set (name := FlexvolNamePrefix d +:+ suffix) in *.
  exists suffix, r, e. fold name.
  destruct (GetError r e) as [e0|] eqn:Hcreate.
  { apply ret_Ret in H as [[= <- <-] <-]. exists [].
    split; [apply events_since_app; by rewrite Hs2, Hs1, <- app_assoc|].
    split; [reflexivity|]. left. by split; [eexists|]. }
  apply bind_Ret in H as (snapDirErr & s3 & Hsnap & H).
  assert (Hpre : exists pre, trace s3 = trace s2 ++ pre /\ destroyedFlexvols pre = []).
  { destruct enableSnapshotDir; simpl in Hsnap.
    - apply ret_Ret in Hsnap as [_ <-]. exists []. by rewrite app_nil_r.
    - apply bind_Ret in Hsnap as ([rs es] & s2' & Hcall & Hsnap).
      apply rpc_Ret in Hcall as [Hs2' _]. apply ret_Ret in Hsnap as [_ <-].
      eexists. split; [exact Hs2'|reflexivity]. }
  destruct Hpre as (pre & Hs3 & Hpre). clear Hsnap.
  assert (Hdestroy : forall (s4 s5 : State) (mid : list Event) (a : Response unit * error),
            trace s4 = trace s3 ++ mid -> destroyedFlexvols mid = [] ->
            API_VolumeDestroy API name true s4 = Ret a s5 ->
            exists post,
              events_since s s5 =
                EvRandomString 10 suffix ::
                EvVolumeCreate name aggregate "1g" spaceReserve snapshotPolicy "0700"
                  (flexvolExportPolicy d) "unix" encrypt r e :: post /\
              destroyedFlexvols post = [(name, true)] /\
              exists r' e', last post = Some (EvVolumeDestroy name true r' e')).
  { intros s4 s5 mid [rd ed] Hs4 Hmid Hcall. apply rpc_Ret in Hcall as (Hs5 & _ & _).
    exists ((pre ++ mid) ++ [EvVolumeDestroy name true rd ed]). split.
    { apply events_since_app. rewrite Hs5, Hs4, Hs3, Hs2, Hs1, <- !app_assoc. reflexivity. }
    rewrite !destroyedFlexvols_app, Hpre, Hmid. split; [reflexivity|].
    exists rd, ed. by rewrite last_app. }
  destruct snapDirErr as [e1|].
  { apply bind_Ret in H as (a & s4 & Hcall & H). apply ret_Ret in H as [[= <- <-] <-].
    destruct (Hdestroy s3 s4 [] a) as (post & Hev & Hd & Hl);
      [by rewrite app_nil_r|reflexivity|exact Hcall|].
    exists post. split; [exact Hev|]. split; [reflexivity|]. by right. }
  apply bind_Ret in H as ([rm em] & s4 & Hmount & H).
  apply rpc_Ret in Hmount as (Hs4 & _ & _). simpl in Hs4.
  destruct (GetError rm em) as [e1|] eqn:Hmounted.
  { apply bind_Ret in H as (a & s5 & Hcall & H). apply ret_Ret in H as [[= <- <-] <-].
    destruct (Hdestroy s4 s5 [EvVolumeMount name ("/" +:+ name) rm em] a)
      as (post & Hev & Hd & Hl); [exact Hs4|reflexivity|exact Hcall|].
    exists post. split; [exact Hev|]. split; [reflexivity|]. by right. }
  apply bind_Ret in H as ([] & s5 & Hlsm & H).
  unfold call_UpdateLoadSharingMirrors, rpc_ in Hlsm.
  apply rpc_Ret in Hlsm as (Hs5 & _ & _). simpl in Hs5.
  apply bind_Ret in H as (quotaErr & s6 & Hquota & H).
  apply addDefaultQuotaForFlexvol_trace in Hquota as (rq & eq & trq & Hs6 & Hallq & Hres).
  apply quota_calls_destroy_nothing in Hallq.
  destruct quotaErr as [e2|].
  - apply bind_Ret in H as (a & s7 & Hcall & H). apply ret_Ret in H as [[= <- <-] <-].
    destruct (Hdestroy s6 s7
                ([EvVolumeMount name ("/" +:+ name) rm em; EvUpdateLoadSharingMirrors] ++
                 EvQuotaSetEntry "" name "" "tree" "-" rq eq :: trq) a)
      as (post & Hev & Hd & Hl); [|exact Hallq|exact Hcall|].
    { rewrite Hs6, Hs5, Hs4, <- !app_assoc. reflexivity. }
    exists post. split; [exact Hev|]. split; [reflexivity|]. by right.
  - apply ret_Ret in H as [[= <- <-] <-].
    exists (pre ++ [EvVolumeMount name ("/" +:+ name) rm em; EvUpdateLoadSharingMirrors] ++
            EvQuotaSetEntry "" name "" "tree" "-" rq eq :: trq).
    split.
    { apply events_since_app. rewrite Hs6, Hs5, Hs4, Hs3, Hs2, Hs1, <- !app_assoc.
      reflexivity. }
    split; [reflexivity|]. split; [reflexivity|].
    rewrite destroyedFlexvols_app, Hpre. split; [exact Hallq|]. split.
    + exists rm, em. split; [|exact Hmounted].
      apply elem_of_app. right. apply list_elem_of_here.
    + exists rq, eq. split; [|by apply Hres].
      apply elem_of_app. right. do 2 apply list_elem_of_further. apply list_elem_of_here.
Qed.

(** X14.  The Flexvol factory cleans up after itself.  A run of
    [createFlexvolForQtree] that returns has drawn a suffix of ten bytes and
    asked for the volume [prefix + suffix] with the size ["1g"], the
    permissions ["0700"], the pool's export policy and the security style
    ["unix"].  When it returns an error it returns no name, and either the
    creation itself was refused and nothing else was called, or the last
    call destroys, with force, the volume just created.  When it returns no
    error the name is that of the volume, which was mounted at
    [/prefix+suffix] and given the default tree quota rule, and nothing was
    destroyed. *)
Theorem createFlexvolForQtree_destroys_on_failure (fuel : nat)
    (aggregate spaceReserve snapshotPolicy : string) (enableSnapshotDir : bool)
    (encrypt : option bool) (s s' : State) (flexvol : string) (err : error) :
  createFlexvolForQtree API d fuel aggregate spaceReserve snapshotPolicy
    enableSnapshotDir encrypt s = Ret (flexvol, err) s' ->
  exists suffix r e post,
    let name := FlexvolNamePrefix d +:+ suffix in
    events_since s s' =
      EvRandomString 10 suffix ::
      EvVolumeCreate name aggregate "1g" spaceReserve snapshotPolicy "0700"
        (flexvolExportPolicy d) "unix" encrypt r e :: post /\
    match err with
    | Some _ =>
        flexvol = "" /\
        ((is_Some (GetError r e) /\ post = []) \/
         (GetError r e = None /\
          destroyedFlexvols post = [(name, true)] /\
          exists r' e', last post = Some (EvVolumeDestroy name true r' e')))
    | None =>
        flexvol = name /\
        GetError r e = None /\
        destroyedFlexvols post = [] /\
        (exists r' e', EvVolumeMount name ("/" +:+ name) r' e' ∈ post /\
                       GetError r' e' = None) /\
        (exists r' e', EvQuotaSetEntry "" name "" "tree" "-" r' e' ∈ post /\
                       GetError r' e' = None)
    end.
Proof. apply createFlexvolForQtree_trace. Qed.

Lemma emits_factory_addDefaultQuotaForFlexvol (fuel : nat) (flexvol : string) :
  emits factory_call (addDefaultQuotaForFlexvol API fuel flexvol).
Proof.
  eapply emits_weaken; [|apply emits_addDefaultQuotaForFlexvol].
  intros ev Hev. by destruct ev.
Qed.
Hint Resolve emits_factory_addDefaultQuotaForFlexvol : emits.


Lemma emits_getFlexvolForQtree_filter (attrs : list VolumeAttributesType)
    (volumes : list string) :
  emits selection_call (getFlexvolForQtree_filter API attrs volumes).
Proof. revert volumes. induction attrs as [|volAttrs rest IH]; intros volumes; simpl; emit. Qed.
Hint Resolve emits_getFlexvolForQtree_filter : emits.




End Factory.

(** *** Sizes written and read back *)

Section Sizes.
Context {W : Type}.
Variable API : Client W.
Variable ext : Externals.
Variable d : NASQtreeStorageDriver.

Lemma wrap_uint64_add (a b : Z) :
  Strconv.wrap_uint64 (Strconv.wrap_uint64 a + b) = Strconv.wrap_uint64 (a + b).
Proof. unfold Strconv.wrap_uint64. apply Z.add_mod_idemp_l. by vm_compute. Qed.

Lemma sumDiskLimits_written (rules : list QuotaEntryType) (written : list (option Z)) :
  Forall2 (fun rule limit =>
             DiskLimit rule = match limit with
                              | None => "-"
                              | Some sizeBytes => Strconv.FormatUint (sizeBytes / 1024)
                              end) rules written ->
  Forall (fun limit => match limit with
                       | None => True
                       | Some sizeBytes => 0 <= sizeBytes <= Strconv.maxUint64
                       end) written ->
  forall total,
    sumDiskLimits rules (Strconv.wrap_uint64 total) =
      Strconv.wrap_uint64
        (total + foldr (fun limit acc => from_option (fun sizeBytes => sizeBytes / 1024) 0 limit
                                         + acc) 0 written).
Proof.
  induction 1 as [|rule limit rules written Hrule _ IH]; intros Hrange total.
  { simpl. by rewrite Z.add_0_r. }
  apply Forall_cons in Hrange as [Hlimit Hrange]. simpl. rewrite Hrule.
  destruct limit as [sizeBytes|]; simpl.
  - assert (Hkb : 0 <= sizeBytes / 1024 <= Strconv.maxUint64).
    { unfold Strconv.maxUint64 in *. split; [apply Z.div_pos; lia|].
      apply Z.div_le_upper_bound; lia. }
    rewrite (ParseUint_FormatUint _ Hkb). rewrite wrap_uint64_add.
    rewrite (IH Hrange). f_equal. lia.
  - rewrite (IH Hrange). f_equal.
Qed.

(** X16.  The sum of the quota rules reads back what the driver wrote.  On
    a Flexvol whose rules are the default rule (limit ["-"]) and rules with
    the limits that [addQuotaForQtree] writes for volumes of [sizeBytes]
    bytes, [getTotalHardDiskLimitQuota] answers 1024 times the sum of the
    sizes in whole KiB, in [uint64] arithmetic; the default rule adds
    nothing. *)
Theorem getTotalHardDiskLimitQuota_sums_written_limits (flexvol : string) (s : State)
    (r : Response (list QuotaEntryType)) (w1 : W) (written : list (option Z)) :
  QuotaEntryList _ API flexvol (world s) = (r, None, w1) ->
  Forall2 (fun rule limit =>
             DiskLimit rule = match limit with
                              | None => "-"
                              | Some sizeBytes => Strconv.FormatUint (sizeBytes / 1024)
                              end) (Attributes r) written ->
  Forall (fun limit => match limit with
                       | None => True
                       | Some sizeBytes => 0 <= sizeBytes <= Strconv.maxUint64
                       end) written ->
  exists s',
    getTotalHardDiskLimitQuota API flexvol s =
      Ret (Strconv.wrap_uint64
             (1024 * foldr (fun limit acc =>
                              from_option (fun sizeBytes => sizeBytes / 1024) 0 limit + acc)
                       0 written), None) s' /\
    events_since s s' = [EvQuotaEntryList flexvol r None].
Proof.
  intros Hlist Hrules Hrange.
  unfold getTotalHardDiskLimitQuota, bind, API_QuotaEntryList, rpc. rewrite Hlist. simpl.
  eexists. split; [|apply events_since_mk]. unfold ret. do 2 f_equal.
  change 0 with (Strconv.wrap_uint64 0) at 1.
  rewrite (sumDiskLimits_written _ _ Hrules Hrange 0). simpl.
  unfold Strconv.wrap_uint64. rewrite Z.mul_mod_idemp_l by (by vm_compute).
  f_equal. lia.
Qed.

(** X17.  A volume's size as it comes back.  For a volume created with
    [sizeBytes] below 2^63, whose quota rule carries the limit that
    [addQuotaForQtree] writes, [getVolumeExternal] reports as Size the
    decimal text of [sizeBytes] rounded down to a multiple of 1024, and that
    text parses back to this number. *)
Theorem getVolumeExternal_reports_written_size (qtreeAttrs : QtreeInfoType)
    (volumeAttrs : VolumeAttributesType) (quotaAttrs : QuotaEntryType) (sizeBytes : Z) :
  0 <= sizeBytes <= Strconv.maxInt64 ->
  (String.length (StoragePrefix d) <= String.length (Qtree qtreeAttrs))%nat ->
  DiskLimit quotaAttrs = Strconv.FormatUint (sizeBytes / 1024) ->
  exists external,
    getVolumeExternal ext d qtreeAttrs volumeAttrs quotaAttrs = Some external /\
    let reported := sizeBytes / 1024 * 1024 in
    storage.Size (storage.Config external) = Strconv.FormatUint reported /\
    Strconv.ParseUint (storage.Size (storage.Config external)) = (reported, None) /\
    sizeBytes - 1024 < reported <= sizeBytes.
Proof.
  intros Hsize Hlen Hlimit. unfold getVolumeExternal.
  rewrite (slice_from_Some _ _ Hlen). eexists. split; [reflexivity|]. simpl.
  assert (Hkb : 0 <= sizeBytes / 1024 <= Strconv.maxInt64).
  { unfold Strconv.maxInt64 in *. split; [apply Z.div_pos; lia|].
    apply Z.div_le_upper_bound; lia. }
  assert (Hround : sizeBytes - 1024 < sizeBytes / 1024 * 1024 <= sizeBytes).
  { pose proof (Z.mod_pos_bound sizeBytes 1024 ltac:(lia)).
    pose proof (Z.div_mod sizeBytes 1024 ltac:(lia)). lia. }
  rewrite Hlimit, (ParseInt_FormatUint _ Hkb).
  rewrite wrap_int64_small
    by (unfold Strconv.minInt64, Strconv.maxInt64 in *; lia).
  rewrite FormatInt_nonneg by lia.
  split; [reflexivity|]. split; [|exact Hround].
  apply ParseUint_FormatUint. unfold Strconv.maxInt64, Strconv.maxUint64 in *. lia.
Qed.

(** X18.  The names of an external volume.  [getVolumeExternal] panics
    exactly when the qtree name is shorter than the storage prefix.  When
    it returns, the internal name is the qtree name, and the name is the
    qtree name without its first [len(prefix)] bytes; for a qtree name that
    begins with the storage prefix, the internal name is the prefix
    followed by the name. *)
Theorem getVolumeExternal_names (qtreeAttrs : QtreeInfoType)
    (volumeAttrs : VolumeAttributesType) (quotaAttrs : QuotaEntryType) :
  (getVolumeExternal ext d qtreeAttrs volumeAttrs quotaAttrs = None <->
   (String.length (Qtree qtreeAttrs) < String.length (StoragePrefix d))%nat) /\
  (forall external,
     getVolumeExternal ext d qtreeAttrs volumeAttrs quotaAttrs = Some external ->
     storage.InternalName (storage.Config external) = Qtree qtreeAttrs /\
     storage.Name (storage.Config external) =
       string_drop (String.length (StoragePrefix d)) (Qtree qtreeAttrs) /\
     len (storage.Name (storage.Config external)) =
       len (Qtree qtreeAttrs) - len (StoragePrefix d) /\
     (HasPrefix (Qtree qtreeAttrs) (StoragePrefix d) = true ->
      storage.InternalName (storage.Config external) =
        StoragePrefix d +:+ storage.Name (storage.Config external))).
Proof.
  unfold getVolumeExternal, slice_from.
  destruct (Nat.leb_spec (String.length (StoragePrefix d)) (String.length (Qtree qtreeAttrs)))
    as [Hle|Hlt].
  - split; [split; [discriminate|lia]|].
    intros external [= <-]. simpl. split; [reflexivity|]. split; [reflexivity|].
    split; [unfold len; rewrite string_drop_length by exact Hle; lia|].
    intros Hprefix. by apply prefix_split.
  - split; [done|]. discriminate.
Qed.

(** X19.  [CreateFollowup] and [Attach] agree on the export.  When
    [CreateFollowup] succeeds it has changed nothing of the configuration
    but the access information, which names the data LIF and the path
    [/<flexvol>/<internal name>]; and [Attach], run on the same appliance
    for the same internal name, mounts [<server>:<path>] of that access
    information.  When [CreateFollowup] fails the configuration is as it
    was. *)
Theorem CreateFollowup_export_is_what_Attach_mounts (volConfig volConfig' : storage.VolumeConfig)
    (err : error) (mountpoint : string) (opts : gmap string string) (s s1 : State) :
  CreateFollowup API d volConfig s = Ret (volConfig', err) s1 ->
  match err with
  | Some _ => volConfig' = volConfig
  | None =>
      exists flexvol,
        storage.AccessInfo volConfig' =
          {| storage.NfsServerIP := drivers.DataLIF (Config d);
             storage.NfsPath := "/" +:+ flexvol +:+ "/" +:+ storage.InternalName volConfig |} /\
        (let without (c : storage.VolumeConfig) :=
           (storage.Version c, storage.Name c, storage.InternalName c, storage.Size c,
            storage.Protocol c, storage.SnapshotPolicy c, storage.ExportPolicy c,
            storage.SnapshotDir c, storage.UnixPermissions c, storage.StorageClass c,
            storage.AccessMode c, storage.BlockSize c, storage.FileSystem c) in
         without volConfig' = without volConfig) /\
        exists mountErr s2,
          Attach API d (storage.InternalName volConfig) mountpoint opts s
            = Ret mountErr s2 /\
          last (trace s2) =
            Some (EvMountVolume
                    (storage.NfsServerIP (storage.AccessInfo volConfig') +:+ ":" +:+
                     storage.NfsPath (storage.AccessInfo volConfig'))
                    mountpoint mountErr)
  end.
Proof.
  unfold CreateFollowup, Attach, bind, API_QtreeExists, call_MountVolume, rpc.
  destruct (QtreeExists _ API _ _ (world s)) as [[[found flexvol] lookupErr] w1]. simpl.
  destruct lookupErr as [e|]; [by intros [= <- <- <-]|].
  destruct found; simpl; [|by intros [= <- <- <-]].
  intros [= <- <- <-]. exists flexvol. split; [reflexivity|]. split; [reflexivity|].
  destruct (MountVolume _ API _ mountpoint w1) as [mountErr w2]. simpl.
  eexists _, _. split; [reflexivity|]. simpl. rewrite last_app. reflexivity.
Qed.

End Sizes.

(** *** The command [tridentctl delete storageclass] *)

Section Command.
Context {W : Type}.
Variable env : cli.Env W.

Lemma storageClassDelete_range_spec (baseURL : string) (names : list string) (w : W)
    (calls : list cli.Call) :
  exists done,
    (cli.storageClassDelete_range env baseURL names w calls).2 =
      calls ++ map (fun name => cli.Rest "DELETE" (baseURL +:+ "/storageclass/" +:+ name)) done /\
    done `prefix_of` names /\
    ((cli.storageClassDelete_range env baseURL names w calls).1.1 = None -> done = names) /\
    match list_find (fun answer => cli.refused answer = true)
            (cli.DELETE_answers env baseURL names w) with
    | None =>
        done = names /\ (cli.storageClassDelete_range env baseURL names w calls).1.1 = None
    | Some (k, answer) =>
        done = take (S k) names /\
        exists name,
          names !! k = Some name /\
          (cli.storageClassDelete_range env baseURL names w calls).1.1 =
            Some match answer.2 with
                 | Some e => e
                 | None => "could not delete storage class " +:+ name +:+ ". " +:+ answer.1.2
                 end
    end.
Proof.
  revert w calls. induction names as [|name rest IH]; intros w calls.
  { exists []. simpl. rewrite app_nil_r. by repeat split. }
  simpl.
  destruct (cli.InvokeRESTAPI _ env "DELETE" _ w) as [[response err] w1].
  destruct err as [e|]; simpl.
  { exists [name]. split; [reflexivity|]. split; [by apply prefix_cons, prefix_nil|].
    split; [discriminate|]. split; [by rewrite take_0|]. by exists name. }
  unfold cli.refused. simpl.
  destruct (response.1 =? cli.StatusOK) eqn:Hstatus; simpl.
  2:{ exists [name]. split; [reflexivity|]. split; [by apply prefix_cons, prefix_nil|].
      split; [discriminate|]. split; [by rewrite take_0|]. by exists name. }
  fold (@cli.refused).
  destruct (IH w1 (calls ++ [cli.Rest "DELETE" (baseURL +:+ "/storageclass/" +:+ name)]))
    as (done & Hcalls & Hprefix & Hall & Hfirst).
  exists (name :: done). rewrite Hcalls. split; [by rewrite <- app_assoc|].
  split; [by apply prefix_cons|].
  split; [intros Hnil; by rewrite (Hall Hnil)|].
  destruct (list_find _ (cli.DELETE_answers env baseURL rest w1)) as [[k answer]|]; simpl.
  - destruct Hfirst as (-> & name' & Hname & Hresult). split; [reflexivity|].
    exists name'. by split.
  - destruct Hfirst as [-> Hresult]. by split.
Qed.

Lemma storageClassDelete_spec (AllStorageClasses : bool)
    (names : list string) (w w1 : W) (calls : list cli.Call) (baseURL : string) :
  cli.GetBaseURL _ env w = (baseURL, None, w1) ->
  let result := cli.storageClassDelete env AllStorageClasses names w calls in
  let listing := cli.GetStorageClasses _ env baseURL w1 in
  let target := if AllStorageClasses then listing.1.1 else names in
  let listErr := if AllStorageClasses then listing.1.2 else None in
  let w0 := if AllStorageClasses then listing.2 else w1 in
  exists done,
    result.2 =
      calls ++ map (fun name => cli.Rest "DELETE" (baseURL +:+ "/storageclass/" +:+ name)) done /\
    done `prefix_of` target /\
    (result.1.1 = None -> done = target) /\
    (AllStorageClasses = true -> names <> [] ->
     done = [] /\
     result.1.1 = Some "cannot use --all switch and specify individual storage classes") /\
    (AllStorageClasses = false -> names = [] ->
     done = [] /\ result.1.1 = Some "storage class name not specified") /\
    (AllStorageClasses = true -> names = [] ->
     forall e, listErr = Some e -> done = [] /\ result.1.1 = Some e) /\
    ((if AllStorageClasses then names = [] else names <> []) -> listErr = None ->
     match list_find (fun answer => cli.refused answer = true)
             (cli.DELETE_answers env baseURL target w0) with
     | None => done = target /\ result.1.1 = None
     | Some (k, answer) =>
         done = take (S k) target /\
         exists name,
           target !! k = Some name /\
           result.1.1 =
             Some match answer.2 with
                  | Some e => e
                  | None => "could not delete storage class " +:+ name +:+ ". " +:+ answer.1.2
                  end
     end).
Proof.
  intros Hbase. cbv zeta. unfold cli.storageClassDelete. rewrite Hbase.
  destruct AllStorageClasses.
  - destruct names as [|name rest]; simpl.
    + destruct (cli.GetStorageClasses _ env baseURL w1) as [[classes err] w2]. simpl.
      destruct err as [e|]; simpl.
      * exists []. rewrite app_nil_r. split; [reflexivity|]. split; [apply prefix_nil|].
        split; [discriminate|]. split; [done|]. split; [done|].
        split; [by intros _ _ ? [= <-]|]. by intros _ [=].
      * destruct (storageClassDelete_range_spec baseURL classes w2 calls)
          as (done & Hcalls & Hprefix & Hall & Hfirst).
        exists done. split; [exact Hcalls|]. split; [exact Hprefix|].
        split; [exact Hall|]. split; [done|]. split; [done|].
        split; [by intros _ _ ? [=]|]. intros _ _. exact Hfirst.
    + exists []. rewrite app_nil_r. split; [reflexivity|]. split; [apply prefix_nil|].
      split; [discriminate|]. split; [done|]. split; [done|]. split; [done|]. done.
  - destruct names as [|name rest].
    + exists []. simpl. rewrite app_nil_r. split; [reflexivity|]. split; [done|].
      split; [discriminate|]. split; [done|]. split; [done|]. split; [done|]. done.
    + change (Z.of_nat (length (name :: rest)) =? 0) with false. cbv iota.
      destruct (storageClassDelete_range_spec baseURL (name :: rest) w1 calls)
        as (done & Hcalls & Hprefix & Hall & Hfirst).
      exists done. split; [exact Hcalls|]. split; [exact Hprefix|].
      split; [exact Hall|]. split; [done|]. split; [done|]. split; [done|].
      intros _ _. exact Hfirst.
Qed.

(** X20.  What [tridentctl delete storageclass] asks the server to delete.
    Run directly, it returns the error of a base URL that cannot be had,
    with no call.  Once the base URL is known, its REST calls are
    [DELETE <base>/storageclass/<name>] for the first names of a list, in
    order, and for nothing else: the names given when [--all] is off, the
    names the server lists when [--all] is on.  It goes on as long as the
    server answers 200 without a transport error: when every deletion is so
    answered it deletes the whole list and returns nil; otherwise it stops
    at the first deletion answered otherwise and returns the transport
    error, or the message that the class could not be deleted, with its
    name and the status line the server sent.  Names given together with
    [--all], and no name without [--all], are refused before any call, and
    a listing that fails is returned with no deletion.  Run through the
    tunnel it makes no REST call, hands [delete storageclass], the flag and
    the names to the tunnel, and returns nil. *)
Theorem deleteStorageClassCmd_deletes_listed_in_order (AllStorageClasses : bool)
    (names : list string) (w w1 : W) (calls : list cli.Call) (baseURL : string)
    (baseErr : error) :
  cli.GetBaseURL _ env w = (baseURL, baseErr, w1) ->
  (let result := cli.deleteStorageClassCmd_RunE env AllStorageClasses false names w calls in
   let listing := cli.GetStorageClasses _ env baseURL w1 in
   let target := if AllStorageClasses then listing.1.1 else names in
   let listErr := if AllStorageClasses then listing.1.2 else None in
   let w0 := if AllStorageClasses then listing.2 else w1 in
   match baseErr with
   | Some e => result = (Some e, w1, calls)
   | None =>
   exists done,
     result.2 =
       calls ++ map (fun name => cli.Rest "DELETE" (baseURL +:+ "/storageclass/" +:+ name)) done /\
     done `prefix_of` target /\
     (result.1.1 = None -> done = target) /\
     (AllStorageClasses = true -> names <> [] ->
      done = [] /\
      result.1.1 = Some "cannot use --all switch and specify individual storage classes") /\
     (AllStorageClasses = false -> names = [] ->
      done = [] /\ result.1.1 = Some "storage class name not specified") /\
     (AllStorageClasses = true -> names = [] ->
      forall e, listErr = Some e -> done = [] /\ result.1.1 = Some e) /\
     ((if AllStorageClasses then names = [] else names <> []) -> listErr = None ->
      match list_find (fun answer => cli.refused answer = true)
              (cli.DELETE_answers env baseURL target w0) with
      | None => done = target /\ result.1.1 = None
      | Some (k, answer) =>
          done = take (S k) target /\
          exists name,
            target !! k = Some name /\
            result.1.1 =
              Some match answer.2 with
                   | Some e => e
                   | None => "could not delete storage class " +:+ name +:+ ". " +:+ answer.1.2
                   end
      end)
   end) /\
  (let tunnelled := cli.deleteStorageClassCmd_RunE env AllStorageClasses true names w calls in
   let command :=
     ["delete"; "storageclass"] ++ (if AllStorageClasses then ["--all"] else []) ++ names in
   tunnelled = (None, cli.TunnelCommand _ env command w, calls ++ [cli.Tunnel command])).
Proof.
  intros Hbase. split.
  - destruct baseErr as [e|].
    + cbv zeta. unfold cli.deleteStorageClassCmd_RunE, cli.storageClassDelete.
      by rewrite Hbase.
    + by apply storageClassDelete_spec.
  - unfold cli.deleteStorageClassCmd_RunE. by destruct AllStorageClasses.
Qed.

End Command.

(** *** Discovery *)

Section Discovery.
Context {W : Type}.
Variable API : Client W.
Variable DISC : discovery.Client W.
Variable ext : Externals.
Variable d : NASQtreeStorageDriver.

(** A map filled from a listing holds, under a key, the last entry of the
    listing with that key. *)
Lemma foldl_insert_lookup {A} (key : A -> string) (l : list A) (m : gmap string A)
    (k : string) :
  foldl (fun m a => <[key a := a]> m) m l !! k =
    match last (filter (fun a => key a = k) l) with
    | Some a => Some a
    | None => m !! k
    end.
Proof.
  revert m. induction l as [|a l IH]; intros m; [reflexivity|].
  simpl. rewrite IH. rewrite filter_cons.
  destruct (decide (key a = k)) as [<-|Hne].
  - rewrite lookup_insert_eq.
    destruct (filter (fun a0 => key a0 = key a) l) as [|b l'] eqn:Hl; [reflexivity|].
    change (last (a :: b :: l')) with (last (b :: l')).
    destruct (last (b :: l')) eqn:Hlast; [reflexivity|].
    rewrite last_cons in Hlast. by destruct (last l').
  - by rewrite lookup_insert_ne.
Qed.

Lemma volumeMap_lookup (volumes : list VolumeAttributesType) (k : string) :
  GetVolumeExternalWrappers_volumeMap volumes !! k =
    last (filter (fun a => azgo.Name a = k) volumes).
Proof.
  unfold GetVolumeExternalWrappers_volumeMap. rewrite foldl_insert_lookup.
  by destruct (last _).
Qed.

Lemma quotaMap_lookup (quotas : list QuotaEntryType) (k : string) :
  GetVolumeExternalWrappers_quotaMap quotas !! k =
    last (filter (fun a => QuotaTarget a = k) quotas).
Proof.
  unfold GetVolumeExternalWrappers_quotaMap. rewrite foldl_insert_lookup.
  by destruct (last _).
Qed.

Lemma last_filter_is_Some {A} (P : A -> Prop) `{!forall a, Decision (P a)} (l : list A) (a : A) :
  a ∈ l -> P a -> is_Some (last (filter P l)).
Proof.
  intros Hin HP. assert (Hf : a ∈ filter P l) by (by apply list_elem_of_filter).
  destruct (filter P l) as [|b l'] using rev_ind; [by apply elem_of_nil in Hf|].
  rewrite last_snoc. by eexists.
Qed.

Lemma GetVolumeExternalWrappers_range_spec (volumes : list VolumeAttributesType)
    (quotas : list QuotaEntryType) (qtrees : list QtreeInfoType) :
  let result :=
    GetVolumeExternalWrappers_range ext d (GetVolumeExternalWrappers_volumeMap volumes)
      (GetVolumeExternalWrappers_quotaMap quotas) qtrees in
  Forall (correlated ext d volumes quotas qtrees) result.1 /\
  omap (fun wrapper =>
          storage.InternalName ∘ storage.Config <$> discovery.Volume wrapper) result.1
    `sublist_of` map Qtree qtrees /\
  (result.2 = true ->
   forall qtree volume quota,
     qtree ∈ qtrees -> Qtree qtree <> "" ->
     volume ∈ volumes -> azgo.Name volume = azgo.Volume qtree ->
     quota ∈ quotas ->
     QuotaTarget quota = "/vol/" +:+ azgo.Volume qtree +:+ "/" +:+ Qtree qtree ->
     exists wrapper external,
       wrapper ∈ result.1 /\
       discovery.Volume wrapper = Some external /\
       storage.InternalName (storage.Config external) = Qtree qtree).
Proof.
  induction qtrees as [|qtree rest IH]; simpl.
  { split; [constructor|]. split; [constructor|].
    intros _ qtree volume quota Hin. by apply elem_of_nil in Hin. }
  destruct IH as (Hsound & Horder & Hcomplete).
  assert (Hweaken : forall ws, Forall (correlated ext d volumes quotas rest) ws ->
                               Forall (correlated ext d volumes quotas (qtree :: rest)) ws).
  { intros ws Hws. eapply Forall_impl; [exact Hws|].
    intros w (Herr & external & q & v & qu & Hv & Hin & Hrest).
    split; [exact Herr|]. exists external, q, v, qu. split; [exact Hv|].
    split; [by apply list_elem_of_further|exact Hrest]. }
  assert (Hskip :
    (forall volume quota,
       Qtree qtree <> "" -> volume ∈ volumes -> azgo.Name volume = azgo.Volume qtree ->
       quota ∈ quotas ->
       QuotaTarget quota = "/vol/" +:+ azgo.Volume qtree +:+ "/" +:+ Qtree qtree -> False) ->
    let result :=
      GetVolumeExternalWrappers_range ext d (GetVolumeExternalWrappers_volumeMap volumes)
        (GetVolumeExternalWrappers_quotaMap quotas) rest in
    Forall (correlated ext d volumes quotas (qtree :: rest)) result.1 /\
    omap (fun wrapper =>
            storage.InternalName ∘ storage.Config <$> discovery.Volume wrapper) result.1
      `sublist_of` Qtree qtree :: map Qtree rest /\
    (result.2 = true ->
     forall qtree0 volume quota,
       qtree0 ∈ qtree :: rest -> Qtree qtree0 <> "" ->
       volume ∈ volumes -> azgo.Name volume = azgo.Volume qtree0 ->
       quota ∈ quotas ->
       QuotaTarget quota = "/vol/" +:+ azgo.Volume qtree0 +:+ "/" +:+ Qtree qtree0 ->
       exists wrapper external,
         wrapper ∈ result.1 /\
         discovery.Volume wrapper = Some external /\
         storage.InternalName (storage.Config external) = Qtree qtree0)).
  { intros Hnone. split; [by apply Hweaken|]. split; [by apply sublist_cons|].
    intros Hdone q v qu Hin Hname Hv Hvn Hq Hqt.
    apply elem_of_cons in Hin as [->|Hin]; [by destruct (Hnone v qu)|].
    by apply (Hcomplete Hdone q v qu). }
  destruct (String.eqb_spec (Qtree qtree) "") as [Hempty|Hnamed].
  { apply Hskip. intros; congruence. }
  rewrite volumeMap_lookup.
  destruct (last (filter (fun a => azgo.Name a = azgo.Volume qtree) volumes))
    as [volume|] eqn:Hvolume.
  2:{ apply Hskip. intros v qu _ Hv Hvn _ _.
      destruct (last_filter_is_Some (fun a => azgo.Name a = azgo.Volume qtree) volumes v Hv Hvn)
        as [? Hsome]. congruence. }
  rewrite quotaMap_lookup.
  destruct (last (filter (fun a => QuotaTarget a =
                            "/vol/" +:+ azgo.Volume qtree +:+ "/" +:+ Qtree qtree) quotas))
    as [quota|] eqn:Hquota.
  2:{ apply Hskip. intros v qu _ _ _ Hq Hqt.
      destruct (last_filter_is_Some
                  (fun a => QuotaTarget a =
                            "/vol/" +:+ azgo.Volume qtree +:+ "/" +:+ Qtree qtree)
                  quotas qu Hq Hqt) as [? Hsome]. congruence. }
  destruct (getVolumeExternal ext d qtree volume quota) as [external|] eqn:Hexternal.
  2:{ simpl. split; [constructor|]. split; [apply sublist_nil_l|]. discriminate. }
  destruct (GetVolumeExternalWrappers_range ext d _ _ rest) as [wrappers completed].
  simpl in *. split; [|split].
  - constructor; [|by apply Hweaken].
    split; [reflexivity|]. exists external, qtree, volume, quota.
    split; [reflexivity|]. split; [apply list_elem_of_here|]. done.
  - assert (Hname : storage.InternalName (storage.Config external) = Qtree qtree).
    { unfold getVolumeExternal in Hexternal.
      destruct (slice_from _ _); [|discriminate]. by injection Hexternal as <-. }
    rewrite Hname. by apply sublist_skip.
  - intros Hdone q v qu Hin Hname Hv Hvn Hq Hqt.
    apply elem_of_cons in Hin as [->|Hin].
    + eexists _, external. split; [apply list_elem_of_here|]. split; [reflexivity|].
      unfold getVolumeExternal in Hexternal.
      destruct (slice_from _ _); [|discriminate]. by injection Hexternal as <-.
    + destruct (Hcomplete Hdone q v qu Hin Hname Hv Hvn Hq Hqt) as (w & e & Hw & Hrest).
      exists w, e. split; [by apply list_elem_of_further|exact Hrest].
Qed.

(** X21.  What [GetVolumeExternalWrappers] writes to its channel.  It asks
    for the Flexvols, then the quota rules, then the qtrees; the first of
    these listings that fails ends the run with one wrapper that carries
    its error and no volume.  Otherwise every wrapper carries a volume and
    no error: the volume of a listed qtree that has a name, built from the
    last listed Flexvol of the qtree's Flexvol name and the last listed
    quota rule of the path [/vol/<Flexvol>/<qtree>].  The wrappers come in
    the order of the qtree listing.  When the run reaches its end, every
    listed qtree that has a name, a listed Flexvol and a listed quota rule
    has its wrapper. *)
Theorem GetVolumeExternalWrappers_correlates (s : State) :
  let '(rv, ev, w1) := discovery.VolumeGetAll _ DISC (FlexvolNamePrefix d) (world s) in
  let '(rq, eq, w2) := QuotaEntryList _ API (FlexvolNamePrefix d +:+ "*") w1 in
  let '(rt, et, w3) := discovery.QtreeGetAll _ DISC (FlexvolNamePrefix d) w2 in
  exists wrappers completed s',
    GetVolumeExternalWrappers API DISC ext d s = Ret (wrappers, completed) s' /\
    let failed e :=
      wrappers = [{| discovery.Volume := None; discovery.Error := Some e |}] /\
      completed = true in
    match GetError rv ev, GetError rq eq, GetError rt et with
    | Some e, _, _ => failed e /\ events_since s s' = []
    | None, Some e, _ => failed e
    | None, None, Some e => failed e
    | None, None, None =>
        Forall (correlated ext d (Attributes rv) (Attributes rq) (Attributes rt)) wrappers /\
        omap (fun wrapper =>
                storage.InternalName ∘ storage.Config <$> discovery.Volume wrapper) wrappers
          `sublist_of` map Qtree (Attributes rt) /\
        (completed = true ->
         forall qtree volume quota,
           qtree ∈ Attributes rt -> Qtree qtree <> "" ->
           volume ∈ Attributes rv -> azgo.Name volume = azgo.Volume qtree ->
           quota ∈ Attributes rq ->
           QuotaTarget quota = "/vol/" +:+ azgo.Volume qtree +:+ "/" +:+ Qtree qtree ->
           exists wrapper external,
             wrapper ∈ wrappers /\
             discovery.Volume wrapper = Some external /\
             storage.InternalName (storage.Config external) = Qtree qtree)
    end.
Proof.
  unfold GetVolumeExternalWrappers, bind, untraced, API_QuotaEntryList, rpc.
  destruct (discovery.VolumeGetAll _ DISC (FlexvolNamePrefix d) (world s))
    as [[rv ev] w1]. cbn [world quotaResizeMap trace].
  destruct (GetError rv ev) as [e|].
  { destruct (QuotaEntryList _ API (FlexvolNamePrefix d +:+ "*") w1) as [[rq eq] w2].
    destruct (discovery.QtreeGetAll _ DISC (FlexvolNamePrefix d) w2) as [[rt et] w3].
    eexists _, _, _. split; [reflexivity|]. split; [done|].
    unfold events_since. simpl. apply drop_all. }
  cbn [world quotaResizeMap trace].
  destruct (QuotaEntryList _ API (FlexvolNamePrefix d +:+ "*") w1) as [[rq eq] w2].
  cbn [world quotaResizeMap trace].
  destruct (GetError rq eq) as [e|].
  { destruct (discovery.QtreeGetAll _ DISC (FlexvolNamePrefix d) w2) as [[rt et] w3].
    eexists _, _, _. split; [reflexivity|]. done. }
  cbn [world quotaResizeMap trace].
  destruct (discovery.QtreeGetAll _ DISC (FlexvolNamePrefix d) w2) as [[rt et] w3].
  cbn [world quotaResizeMap trace].
  destruct (GetError rt et) as [e|].
  { eexists _, _, _. split; [reflexivity|]. done. }
  pose proof (GetVolumeExternalWrappers_range_spec (Attributes rv) (Attributes rq)
                (Attributes rt)) as Hspec.
  destruct (GetVolumeExternalWrappers_range ext d _ _ (Attributes rt))
    as [wrappers completed].
  eexists _, _, _. split; [reflexivity|]. exact Hspec.
Qed.

End Discovery.

Section Shutdown.
Context {W : Type}.
Variable API : Client W.
Variable HK : housekeeping.Client W.
Variable ext : Externals.
Variable d : NASQtreeStorageDriver.

Lemma emits_markForResize (P : Event -> bool) (flexvol : string) :
  emits P (@markForResize W flexvol).
Proof. intros s. simpl. exists []. by rewrite app_nil_r. Qed.

(** X22.  The quota steps call nothing but quota operations and the clock:
    whatever [disableQuotas], [enableQuotas], [addDefaultQuotaForFlexvol]
    and [addQuotaForQtree] do, each of their calls is one of
    [QuotaSetEntry], [QuotaStatus], [QuotaOn], [QuotaOff] and [time.Sleep];
    they create, resize, mount and destroy nothing. *)
Theorem quota_steps_call_only_quota_operations (fuel : nat) (qtree flexvol : string)
    (wait : bool) (sizeBytes : Z) :
  emits quota_call (disableQuotas API fuel flexvol wait) /\
  emits quota_call (enableQuotas API fuel flexvol wait) /\
  emits quota_call (addDefaultQuotaForFlexvol API fuel flexvol) /\
  emits quota_call (addQuotaForQtree API qtree flexvol sizeBytes).
Proof.
  split; [apply emits_disableQuotas|]. split; [apply emits_enableQuotas|].
  split; [apply emits_addDefaultQuotaForFlexvol|].
  unfold addQuotaForQtree, API_QuotaSetEntry.
  apply emits_bind; [by apply emits_rpc; intros [? ?]|]. intros [r err].
  destruct (GetError r err); [apply emits_ret|].
  apply emits_bind; [apply emits_markForResize|]. intros _. apply emits_ret.
Qed.

(** X23.  The last sweeps of [Terminate].  They always return.  The
    Flexvols destroyed are those the pruner counted as empty, each with
    force; [QuotaResize] is called for the Flexvols that were flagged when
    [Terminate] began, each once, and for no other; and nothing is put into
    the Quota Resize Set. *)
Theorem Terminate_sweeps_resizes_flagged (s : State) :
  exists s',
    Terminate_sweeps API HK ext d s = Ret tt s' /\
    let tr := events_since s s' in
    destroyedFlexvols tr = map (fun flexvol => (flexvol, true)) (emptyFlexvols tr) /\
    (forall flexvol, flexvol ∈ resizedFlexvols tr <-> quotaResizeMap s !! flexvol = Some true) /\
    NoDup (resizedFlexvols tr) /\
    quotaResizeMap s' ⊆ quotaResizeMap s.
Proof.
  unfold Terminate_sweeps, bind.
  destruct (pruneUnusedFlexvols_spec API HK d s)
    as (s1 & tr1 & Hrun1 & Htr1 & _ & Hdestroyed & Hshape1).
  pose proof (keeps_pruneUnusedFlexvols API HK d s) as Hkeep1.
  rewrite Hrun1 in *. destruct Hkeep1 as [Hmap1 _].
  pose proof (keeps_reapDeletedQtrees API d s1) as Hkeep2.
  destruct (reapDeletedQtrees_returns API d s1)
    as (s2 & r2 & err2 & tr2 & Hrun2 & _ & Htr2 & _ & Hshape2).
  rewrite Hrun2 in *. destruct Hkeep2 as [Hmap2 _].
  destruct (resizeQuotas_calls API ext s2) as (s3 & tr3 & -> & Htr3 & Hsub & Hcalls & Hnodup & Hshape3).
  exists s3. split; [reflexivity|].
  set (listing := EvQtreeList (deletedQtreeNamePrefix +:+ StoragePrefix d)
                    (FlexvolNamePrefix d) r2 err2) in *.
  assert (Hevents : events_since s s3 = tr1 ++ (listing :: tr2) ++ tr3).
  { apply events_since_app. rewrite Htr3, Htr2, Htr1, <- !app_assoc. reflexivity. }
  rewrite Hevents. clear Hevents.
  assert (Hquiet2 : destroyedFlexvols (listing :: tr2) = [] /\
                    emptyFlexvols (listing :: tr2) = [] /\
                    resizedFlexvols (listing :: tr2) = []).
  { simpl. clear -Hshape2.
    induction Hshape2 as [|ev tr2 (path & r & err & ->) _ IH]; [done|]. simpl. exact IH. }
  assert (Hquiet3 : destroyedFlexvols tr3 = [] /\ emptyFlexvols tr3 = []).
  { clear -Hshape3. induction Hshape3 as [|ev tr3 (flexvol & r & err & ->) _ IH]; [done|].
    simpl. exact IH. }
  assert (Hquiet1 : resizedFlexvols tr1 = []).
  { apply resizedFlexvols_none. eapply Forall_impl; [exact Hshape1|].
    intros ev [(? & ? & ? & ->)|(? & ? & ? & ->)]; discriminate. }
  destruct Hquiet2 as (Hd2 & He2 & Hr2). destruct Hquiet3 as (Hd3 & He3).
  cbv zeta.
  rewrite !destroyedFlexvols_app, !emptyFlexvols_app, !resizedFlexvols_app.
  rewrite Hd2, Hd3, He2, He3, Hr2, Hquiet1, !app_nil_r. simpl.
  split; [exact Hdestroyed|]. split; [|split; [exact Hnodup|]].
  - intros flexvol. rewrite Hcalls, Hmap2, Hmap1. reflexivity.
  - by rewrite Hmap2, Hmap1 in Hsub.
Qed.

End Shutdown.

(** *** Runs on the scripted appliance *)

(** The deletion of a qtree that is there. *)
Lemma Destroy_protocol_witness :
  let '(found, flexvol, lookupErr, _) :=
    QtreeExists _ (Scripted.client Scripted.healthy) "trident_a"
      (FlexvolNamePrefix (Scripted.driver "trident_")) (world (Scripted.start [])) in
  exists result s',
    Destroy (Scripted.client Scripted.healthy) (Scripted.driver "trident_") "trident_a"
            (Scripted.start []) = Ret result s' /\
    genuine (Scripted.client Scripted.healthy) (world (Scripted.start []))
      (events_since (Scripted.start []) s') (world s') /\
    quotaResizeMap s' = quotaResizeMap (Scripted.start []) /\
    exists draws calls,
      events_since (Scripted.start []) s' =
        EvQtreeExists "trident_a" (FlexvolNamePrefix (Scripted.driver "trident_"))
          found flexvol lookupErr :: draws ++ calls /\
      Forall (fun ev => exists n str, ev = EvRandomString n str) draws /\
      List.filter mutating (events_since (Scripted.start []) s') = calls /\
      match lookupErr, found with
      | Some _, _ => draws = [] /\ calls = [] /\ result = deleteError
      | None, false => draws = [] /\ calls = [] /\ result = None
      | None, true =>
          exists deletedName r1 e1,
            let path := "/vol/" +:+ flexvol +:+ "/" +:+ "trident_a" in
            let deletedPath := "/vol/" +:+ flexvol +:+ "/" +:+ deletedName in
            HasPrefix deletedName deletedQtreeNamePrefix = true /\
            ((calls = [EvQtreeRename path deletedPath r1 e1] /\
              is_Some (GetError r1 e1) /\ result = deleteError) \/
             (exists r2 e2,
                calls = [EvQtreeRename path deletedPath r1 e1;
                         EvQtreeDestroyAsync deletedPath true r2 e2] /\
                GetError r1 e1 = None /\ GetError r2 e2 = None /\ result = None) \/
             (exists r2 e2 r3 e3,
                calls = [EvQtreeRename path deletedPath r1 e1;
                         EvQtreeDestroyAsync deletedPath true r2 e2;
                         EvQtreeRename deletedPath path r3 e3] /\
                GetError r1 e1 = None /\ is_Some (GetError r2 e2) /\
                result = deleteError))
      end.
Proof.
  apply (Destroy_protocol (Scripted.client Scripted.healthy) (Scripted.driver "trident_")
           "trident_a" (Scripted.start [])).
  apply Scripted_RandomString_contract.
Defined.

Lemma Destroy_marks_for_the_reaper_witness :
  exists result s' deletedName r err,
    Destroy (Scripted.client Scripted.healthy) (Scripted.driver "trident_") "trident_a"
            (Scripted.start []) = Ret result s' /\
    EvQtreeRename ("/vol/" +:+ Scripted.pool1 +:+ "/" +:+ "trident_a")
                  ("/vol/" +:+ Scripted.pool1 +:+ "/" +:+ deletedName) r err
      ∈ events_since (Scripted.start []) s' /\
    HasPrefix deletedName
      (deletedQtreeNamePrefix +:+ StoragePrefix (Scripted.driver "trident_")) = true.
Proof.
  apply (Destroy_marks_for_the_reaper (Scripted.client Scripted.healthy)
           (Scripted.driver "trident_") "trident_a" Scripted.pool1 (Scripted.start []) []).
  - apply Scripted_RandomString_contract.
  - reflexivity.
  - unfold len. simpl. lia.
  - reflexivity.
Defined.

(** The reaping of the qtree that a deletion left behind. *)
Lemma reapDeletedQtrees_destroys_listed_witness :
  exists s' r err tr,
    let prefix := deletedQtreeNamePrefix +:+ StoragePrefix (Scripted.driver "trident_") in
    reapDeletedQtrees (Scripted.client Scenarios.leftovers) (Scripted.driver "trident_")
      (Scripted.start []) = Ret tt s' /\
    trace s' = trace (Scripted.start []) ++
      EvQtreeList prefix (FlexvolNamePrefix (Scripted.driver "trident_")) r err :: tr /\
    destroyedQtrees tr =
      map (fun q => ("/vol/" +:+ Volume q +:+ "/" +:+ Qtree q, true)) (Attributes r) /\
    Forall (fun ev => exists path r' err', ev = EvQtreeDestroyAsync path true r' err') tr /\
    (GetError r err = None ->
     Forall (fun q => HasPrefix (Qtree q) prefix = true) (Attributes r)).
Proof.
  apply (reapDeletedQtrees_destroys_listed (Scripted.client Scenarios.leftovers)
           (Scripted.driver "trident_") (Scripted.start [])).
  apply Scripted_QtreeList_contract.
Defined.

(** The start of a driver with the default periods written out. *)
Lemma Initialize_housekeeping_resizes_listed_witness :
  (exists s',
     let listed :=
       map azgo.Name
         (Attributes (housekeeping.VolumeList _ (Scenarios.lister Scenarios.leftovers)
                        (FlexvolNamePrefix (Scripted.driver "trident_"))
                        (world (Scripted.start []))).1.1) in
     Initialize_housekeeping (Scripted.client Scenarios.leftovers)
       (Scenarios.lister Scenarios.leftovers) Scripted.ext (Scripted.driver "trident_")
       (Strconv.FormatUint 600) (Strconv.FormatUint 60) (Scripted.start [])
       = Ret tt s' /\
     forall flexvol,
       flexvol ∈ resizedFlexvols (events_since (Scripted.start []) s') <->
       flexvol ∈ listed \/ quotaResizeMap (Scripted.start []) !! flexvol = Some true) /\
  Initialize_housekeeping (Scripted.client Scenarios.leftovers)
    (Scenarios.lister Scenarios.leftovers) Scripted.ext (Scripted.driver "trident_")
    "0" (Strconv.FormatUint 60) (Scripted.start []) = Panic.
Proof.
  apply (Initialize_housekeeping_resizes_listed (Scripted.client Scenarios.leftovers)
           (Scenarios.lister Scenarios.leftovers) Scripted.ext (Scripted.driver "trident_")
           600 60 (Scripted.start [])); lia.
Defined.

(** The creation of the first Flexvol of a pool. *)
Lemma createFlexvolForQtree_destroys_on_failure_witness :
  exists flexvol err s',
    createFlexvolForQtree (Scripted.client Scripted.emptyPool) (Scripted.driver "trident_")
      5 "aggr1" "none" "none" false None (Scripted.start ["on"; "off"; "off"; "on"])
      = Ret (flexvol, err) s' /\
    exists suffix r e post,
      let name := FlexvolNamePrefix (Scripted.driver "trident_") +:+ suffix in
      events_since (Scripted.start ["on"; "off"; "off"; "on"]) s' =
        EvRandomString 10 suffix ::
        EvVolumeCreate name "aggr1" "1g" "none" "none" "0700"
          (flexvolExportPolicy (Scripted.driver "trident_")) "unix" None r e :: post /\
      match err with
      | Some _ =>
          flexvol = "" /\
          ((is_Some (GetError r e) /\ post = []) \/
           (GetError r e = None /\
            destroyedFlexvols post = [(name, true)] /\
            exists r' e', last post = Some (EvVolumeDestroy name true r' e')))
      | None =>
          flexvol = name /\
          GetError r e = None /\
          destroyedFlexvols post = [] /\
          (exists r' e', EvVolumeMount name ("/" +:+ name) r' e' ∈ post /\
                         GetError r' e' = None) /\
          (exists r' e', EvQuotaSetEntry "" name "" "tree" "-" r' e' ∈ post /\
                         GetError r' e' = None)
      end.
Proof.
  eexists _, _, _. split; [vm_compute; reflexivity|].
  apply (createFlexvolForQtree_destroys_on_failure (Scripted.client Scripted.emptyPool)
           (Scripted.driver "trident_") 5 "aggr1" "none" "none" false None
           (Scripted.start ["on"; "off"; "off"; "on"])).
  vm_compute. reflexivity.
Defined.


(** A Flexvol with the default rule and the rules of two volumes, of 1 GiB
    and of 1 GiB and one byte. *)
Lemma getTotalHardDiskLimitQuota_sums_written_limits_witness :
  exists s',
    getTotalHardDiskLimitQuota
      (Scenarios.withQuotaRules Scenarios.leftovers Scenarios.twoVolumes)
      Scenarios.pool_used (Scripted.start []) =
      Ret (Strconv.wrap_uint64
             (1024 * foldr (fun limit acc =>
                              from_option (fun sizeBytes => sizeBytes / 1024) 0 limit + acc)
                       0 [None; Some 1073741824; Some 1073741825]), None) s' /\
    events_since (Scripted.start []) s' =
      [EvQuotaEntryList Scenarios.pool_used (Scripted.ok Scenarios.twoVolumes).1 None].
Proof.
  apply (getTotalHardDiskLimitQuota_sums_written_limits
           (Scenarios.withQuotaRules Scenarios.leftovers Scenarios.twoVolumes)
           Scenarios.pool_used (Scripted.start []) (Scripted.ok Scenarios.twoVolumes).1 []
           [None; Some 1073741824; Some 1073741825]).
  - reflexivity.
  - repeat constructor.
  - unfold Strconv.maxUint64. repeat constructor; lia.
Defined.

Lemma getVolumeExternal_reports_written_size_witness :
  exists external,
    getVolumeExternal Scripted.ext (Scripted.driver "trident_")
      (Scripted.qtree Scenarios.pool_used "trident_b") (Scripted.flexvol Scenarios.pool_used)
      {| QuotaTarget := "/vol/" +:+ Scenarios.pool_used +:+ "/trident_b";
         DiskLimit := "1048576" |} = Some external /\
    let reported := 1073741825 / 1024 * 1024 in
    storage.Size (storage.Config external) = Strconv.FormatUint reported /\
    Strconv.ParseUint (storage.Size (storage.Config external)) = (reported, None) /\
    1073741825 - 1024 < reported <= 1073741825.
Proof.
  apply (getVolumeExternal_reports_written_size Scripted.ext (Scripted.driver "trident_")
           (Scripted.qtree Scenarios.pool_used "trident_b")
           (Scripted.flexvol Scenarios.pool_used)
           {| QuotaTarget := "/vol/" +:+ Scenarios.pool_used +:+ "/trident_b";
              DiskLimit := "1048576" |} 1073741825).
  - unfold Strconv.maxInt64. lia.
  - simpl. lia.
  - reflexivity.
Defined.

Lemma CreateFollowup_export_is_what_Attach_mounts_witness :
  exists volConfig' err s1,
    CreateFollowup (Scripted.client Scripted.healthy) (Scripted.driver "trident_")
      (Scenarios.volConfig "trident_a") (Scripted.start []) = Ret (volConfig', err) s1 /\
    match err with
    | Some _ => volConfig' = Scenarios.volConfig "trident_a"
    | None =>
        exists flexvol,
          storage.AccessInfo volConfig' =
            {| storage.NfsServerIP := drivers.DataLIF (Config (Scripted.driver "trident_"));
               storage.NfsPath :=
                 "/" +:+ flexvol +:+ "/" +:+
                 storage.InternalName (Scenarios.volConfig "trident_a") |} /\
          (let without (c : storage.VolumeConfig) :=
             (storage.Version c, storage.Name c, storage.InternalName c, storage.Size c,
              storage.Protocol c, storage.SnapshotPolicy c, storage.ExportPolicy c,
              storage.SnapshotDir c, storage.UnixPermissions c, storage.StorageClass c,
              storage.AccessMode c, storage.BlockSize c, storage.FileSystem c) in
           without volConfig' = without (Scenarios.volConfig "trident_a")) /\
          exists mountErr s2,
            Attach (Scripted.client Scripted.healthy) (Scripted.driver "trident_")
              (storage.InternalName (Scenarios.volConfig "trident_a")) "/mnt/a" ∅
              (Scripted.start []) = Ret mountErr s2 /\
            last (trace s2) =
              Some (EvMountVolume
                      (storage.NfsServerIP (storage.AccessInfo volConfig') +:+ ":" +:+
                       storage.NfsPath (storage.AccessInfo volConfig'))
                      "/mnt/a" mountErr)
    end.
Proof.
  eexists _, _, _. split; [vm_compute; reflexivity|].
  eapply (CreateFollowup_export_is_what_Attach_mounts (Scripted.client Scripted.healthy)
            (Scripted.driver "trident_") (Scenarios.volConfig "trident_a") _ _ "/mnt/a" ∅
            (Scripted.start [])).
  vm_compute. reflexivity.
Defined.

(** Three classes to delete, of which the server refuses the second. *)
Lemma deleteStorageClassCmd_deletes_listed_in_order_witness :
  (let env := Scenarios.rest ["gold"; "silver"; "bronze"] ["silver"] in
   let baseURL := "http://127.0.0.1:8000/trident/v1" in
   let names := ["gold"; "silver"; "bronze"] in
   let result := cli.deleteStorageClassCmd_RunE env false false names 0%nat [] in
   let listing := cli.GetStorageClasses _ env baseURL 0%nat in
   let target := if false then listing.1.1 else names in
   let listErr := if false then listing.1.2 else None in
   let w0 := if false then listing.2 else 0%nat in
   exists done,
     result.2 =
       [] ++ map (fun name => cli.Rest "DELETE" (baseURL +:+ "/storageclass/" +:+ name)) done /\
     done `prefix_of` target /\
     (result.1.1 = None -> done = target) /\
     (false = true -> names <> [] ->
      done = [] /\
      result.1.1 = Some "cannot use --all switch and specify individual storage classes") /\
     (false = false -> names = [] ->
      done = [] /\ result.1.1 = Some "storage class name not specified") /\
     (false = true -> names = [] ->
      forall e, listErr = Some e -> done = [] /\ result.1.1 = Some e) /\
     ((if false then names = [] else names <> []) -> listErr = None ->
      match list_find (fun answer => cli.refused answer = true)
              (cli.DELETE_answers env baseURL target w0) with
      | None => done = target /\ result.1.1 = None
      | Some (k, answer) =>
          done = take (S k) target /\
          exists name,
            target !! k = Some name /\
            result.1.1 =
              Some match answer.2 with
                   | Some e => e
                   | None => "could not delete storage class " +:+ name +:+ ". " +:+ answer.1.2
                   end
      end)) /\
  (let env := Scenarios.rest ["gold"; "silver"; "bronze"] ["silver"] in
   let names := ["gold"; "silver"; "bronze"] in
   let tunnelled := cli.deleteStorageClassCmd_RunE env false true names 0%nat [] in
   let command := ["delete"; "storageclass"] ++ (if false then ["--all"] else []) ++ names in
   tunnelled = (None, cli.TunnelCommand _ env command 0%nat, [] ++ [cli.Tunnel command])).
Proof.
  apply (deleteStorageClassCmd_deletes_listed_in_order
           (Scenarios.rest ["gold"; "silver"; "bronze"] ["silver"]) false
           ["gold"; "silver"; "bronze"] 0%nat 0%nat [] "http://127.0.0.1:8000/trident/v1"
           None).
  reflexivity.
Defined.
